(** * MeanEdge: a shallow embedding of the intraday trading engine

    The embedding follows [trading_engine.hpp]: the EMA calculator, the
    two-candle pattern strategy, the risk manager, the position ledger and
    the [TradingEngine] orchestrator.

    Numeric model.  A C++ [double] is a Rocq primitive [float] (IEEE-754
    binary64, round to nearest even), so every arithmetic expression of the
    source is evaluated with the same rounding, in the same order, as the
    compiled program (no fused multiply-add contraction is assumed).  A C++
    [int] is a [Z] kept inside the 32-bit range; the conversion
    [static_cast<int>(double)] truncates toward zero and is undefined outside
    that range, which the embedding reports as a failure.  A [std::string] is
    a [string]; the exceptions of [substr] and [std::stoi] are failures too. *)

From Stdlib Require Import ZArith QArith Qround Qpower List Bool String Ascii Lia Psatz.
From Stdlib Require Import Floats.
Import ListNotations.

Set Warnings "-inexact-float".

Local Open Scope Z_scope.

Notation "x >=? y" := (PrimFloat.leb y x) (at level 70, no associativity) : float_scope.
Notation "x >? y" := (PrimFloat.ltb y x) (at level 70, no associativity) : float_scope.

(* ------------------------------------------------------------------ *)
(** ** Failures: C++ exceptions and undefined behaviour *)

Inductive failure : Type :=
| invalid_argument       (* std::invalid_argument, thrown by std::stoi *)
| out_of_range           (* std::out_of_range, thrown by substr and std::stoi *)
| undefined_behaviour.   (* a double-to-int conversion outside the int range *)

Inductive result (A : Type) : Type :=
| Ok (a : A)
| Fail (f : failure).

Arguments Ok {A} a.
Arguments Fail {A} f.

Definition bind {A B : Type} (r : result A) (k : A -> result B) : result B :=
  match r with
  | Ok a => k a
  | Fail f => Fail f
  end.

Notation "x <- r ;; k" := (bind r (fun x => k))
  (at level 61, r at next level, right associativity).

(* ------------------------------------------------------------------ *)
(** ** Machine integers and conversions between [int] and [double] *)

Definition INT_MIN : Z := -2147483648.
Definition INT_MAX : Z := 2147483647.

Definition in_int_range (z : Z) : bool := (INT_MIN <=? z) && (z <=? INT_MAX).

(** The integer part of a finite binary64 value, rounded toward zero; [None]
    for a NaN or an infinity. *)
Definition SFtrunc (f : spec_float) : option Z :=
  match f with
  | S754_zero _ => Some 0
  | S754_finite s m e =>
      let a := match e with
               | Zneg p => Z.shiftr (Zpos m) (Zpos p)
               | _ => Z.shiftl (Zpos m) e
               end in
      Some (if s then - a else a)
  | S754_infinity _ | S754_nan => None
  end.

Definition trunc_float (d : float) : option Z := SFtrunc (Prim2SF d).

(** The rational number a finite double stands for. *)
Definition SFvalue (f : spec_float) : option Q :=
  match f with
  | S754_zero _ => Some 0%Q
  | S754_finite s m e =>
      Some (inject_Z (if s then Zneg m else Zpos m) * 2 ^ e)%Q
  | S754_infinity _ | S754_nan => None
  end.

Definition float_value (d : float) : option Q := SFvalue (Prim2SF d).

(** Rounding a rational toward zero. *)
Definition Qtruncate (x : Q) : Z :=
  if Qle_bool 0 x then Qfloor x else Qceiling x.

(** [static_cast<int>(d)]. *)
Definition static_cast_int (d : float) : result Z :=
  match trunc_float d with
  | Some z => if in_int_range z then Ok z else Fail undefined_behaviour
  | None => Fail undefined_behaviour
  end.

(** The implicit conversion of an [int] operand to [double] (exact for every
    32-bit integer). *)
Definition double_of_int (z : Z) : float :=
  match z with
  | Z0 => 0%float
  | Zpos _ => PrimFloat.of_uint63 (Uint63.of_Z z)
  | Zneg p => (- PrimFloat.of_uint63 (Uint63.of_Z (Zpos p)))%float
  end.

(* ------------------------------------------------------------------ *)
(** ** Strings: [substr] and [std::stoi] *)

Definition isspace (c : ascii) : bool :=
  let n := nat_of_ascii c in
  (Nat.eqb n 32 || (Nat.leb 9 n && Nat.leb n 13))%bool.

Definition isdigit (c : ascii) : bool :=
  let n := nat_of_ascii c in (Nat.leb 48 n && Nat.leb n 57)%bool.

Definition digit_value (c : ascii) : Z := Z.of_nat (nat_of_ascii c) - 48.

(** [s.substr(pos, len)]: throws when [pos] is past the end. *)
Definition substr (s : string) (pos len : nat) : result string :=
  if Nat.ltb (String.length s) pos then Fail out_of_range
  else Ok (substring pos len s).

Fixpoint skip_spaces (s : string) : string :=
  match s with
  | String c r => if isspace c then skip_spaces r else s
  | EmptyString => s
  end.

(** The value of the longest prefix of decimal digits, most significant
    digit first. *)
Fixpoint read_digits (s : string) (acc : Z) : Z :=
  match s with
  | String c r => if isdigit c then read_digits r (acc * 10 + digit_value c) else acc
  | EmptyString => acc
  end.

Definition starts_with_digit (s : string) : bool :=
  match s with
  | String c _ => isdigit c
  | EmptyString => false
  end.

(** [std::stoi(s)] in base 10: leading white space, an optional sign, then
    at least one digit; anything after the digits is ignored. *)
Definition stoi (s : string) : result Z :=
  let s1 := skip_spaces s in
  let '(negative, s2) :=
    match s1 with
    | String "-"%char r => (true, r)
    | String "+"%char r => (false, r)
    | _ => (false, s1)
    end in
  if starts_with_digit s2 then
    let v := read_digits s2 0 in
    let v := if negative then - v else v in
    if in_int_range v then Ok v else Fail out_of_range
  else Fail invalid_argument.

(* ------------------------------------------------------------------ *)
(** ** Core data structures *)

Module Candle.
Record t : Type := mk {
  timestamp : string;   (* "HH:MM" *)
  open : float;
  high : float;
  low : float;
  close : float
}.

(** The default constructor. *)
Definition default : t := mk "" 0 0 0 0.
End Candle.

Inductive Side : Type := BUY | SELL.
Inductive Type_ : Type := ENTRY | EXIT.

Module Trade.
Record t : Type := mk {
  timestamp : string;
  side : Side;
  type : Type_;
  price : float;
  quantity : Z;
  pnl : float
}.
End Trade.

Module Position.
Record t : Type := mk {
  is_open : bool;
  side : Side;
  entry_price : float;
  quantity : Z;
  entry_timestamp : string
}.

Definition default : t := mk false BUY 0 0 "".

Definition open (s : Side) (price : float) (qty : Z) (ts : string) (p : t) : t :=
  mk true s price qty ts.

Definition close (p : t) : t := mk false (side p) 0 0 "".

Definition getUnrealizedPnL (current_price : float) (p : t) : float :=
  if negb (is_open p) then 0%float
  else match side p with
       | BUY => ((current_price - entry_price p) * double_of_int (quantity p))%float
       | SELL => ((entry_price p - current_price) * double_of_int (quantity p))%float
       end.
End Position.

Module MarketData.
Record t : Type := mk {
  instrument : string;
  previous_day_close : float;
  capital : float;
  candles : list Candle.t
}.
End MarketData.

(* ------------------------------------------------------------------ *)
(** ** Exponential moving average calculator *)

Module EMACalculator.
Record t : Type := mk {
  period_ : Z;
  multiplier_ : float;
  ema_ : float;
  initialized_ : bool
}.

Definition new (period : Z) : t :=
  mk period (2 / (double_of_int period + 1))%float 0%float false.

Definition update (price : float) (c : t) : t :=
  if negb (initialized_ c) then
    mk (period_ c) (multiplier_ c) price true
  else
    mk (period_ c) (multiplier_ c)
       ((price * multiplier_ c) + (ema_ c * (1 - multiplier_ c)))%float
       (initialized_ c).

Definition getValue (c : t) : float := ema_ c.
Definition isInitialized (c : t) : bool := initialized_ c.
Definition reset (c : t) : t := mk (period_ c) (multiplier_ c) 0%float false.
End EMACalculator.

(* ------------------------------------------------------------------ *)
(** ** Strategy signal generator *)

Module TwoCandelPatternStrategy.
Definition GAP_THRESHOLD : float := 0.03%float.

Record t : Type := mk {
  first_candle_ : Candle.t;
  first_candle_valid_ : bool;
  previous_day_close_ : float;
  ema3_ : EMACalculator.t;
  ema5_ : EMACalculator.t
}.

Definition new : t :=
  mk Candle.default false 0%float (EMACalculator.new 3) (EMACalculator.new 5).

Definition initialize (prev_close : float) (s : t) : t :=
  mk (first_candle_ s) false prev_close
     (EMACalculator.reset (ema3_ s)) (EMACalculator.reset (ema5_ s)).

  (** [processCandle]: the updated strategy and the returned signal. *)
Definition processCandle (candle : Candle.t) (s : t) : t * bool :=
  let e3 := EMACalculator.update (Candle.close candle) (ema3_ s) in
  let e5 := EMACalculator.update (Candle.close candle) (ema5_ s) in
  let s1 := mk (first_candle_ s) (first_candle_valid_ s) (previous_day_close_ s) e3 e5 in
  if negb (EMACalculator.isInitialized e5) then (s1, false)
  else if negb (first_candle_valid_ s1) then
    let gap_condition :=
      (Candle.open candle >=? previous_day_close_ s1 * (1 + GAP_THRESHOLD))%float in
    let ema_condition :=
      (Candle.low candle >? EMACalculator.getValue e5)%float in
    if gap_condition && ema_condition then
      (mk candle true (previous_day_close_ s1) e3 e5, false)
    else (s1, false)
  else
    let breakdown := (Candle.low candle <? Candle.low (first_candle_ s1))%float in
    if breakdown then
      (mk (first_candle_ s1) false (previous_day_close_ s1) e3 e5, true)
    else (s1, false).

Definition getEMA3 (s : t) : float := EMACalculator.getValue (ema3_ s).
Definition getEMA5 (s : t) : float := EMACalculator.getValue (ema5_ s).
Definition isEMA5Ready (s : t) : bool := EMACalculator.isInitialized (ema5_ s).
End TwoCandelPatternStrategy.

(* ------------------------------------------------------------------ *)
(** ** Risk management engine *)

Module RiskManager.
Definition STOP_LOSS_PCT : float := 0.02%float.
Definition TAKE_PROFIT_PCT : float := 0.07%float.
Definition MAX_DAILY_TRADES : Z := 2.

Record t : Type := mk {
  initial_capital_ : float;
  current_capital_ : float;
  trades_today_ : Z;
  stop_loss_amount_ : float;
  take_profit_amount_ : float
}.

Definition new (capital : float) : t :=
  mk capital capital 0
     (capital * STOP_LOSS_PCT)%float (capital * TAKE_PROFIT_PCT)%float.

Definition calculatePositionSize (entry_price : float) (r : t) : result Z :=
  if (entry_price <=? 0)%float then Ok 0
  else static_cast_int (current_capital_ r / entry_price)%float.

Definition canTrade (r : t) : bool := trades_today_ r <? MAX_DAILY_TRADES.

Definition recordTrade (r : t) : t :=
  mk (initial_capital_ r) (current_capital_ r) (trades_today_ r + 1)
     (stop_loss_amount_ r) (take_profit_amount_ r).

Definition isStopLossHit (unrealized_pnl : float) (r : t) : bool :=
  (unrealized_pnl <=? - stop_loss_amount_ r)%float.

Definition isTakeProfitHit (unrealized_pnl : float) (r : t) : bool :=
  (unrealized_pnl >=? take_profit_amount_ r)%float.

Definition updateCapital (pnl : float) (r : t) : t :=
  mk (initial_capital_ r) (current_capital_ r + pnl)%float (trades_today_ r)
     (stop_loss_amount_ r) (take_profit_amount_ r).

Definition getCurrentCapital (r : t) : float := current_capital_ r.
Definition getInitialCapital (r : t) : float := initial_capital_ r.
Definition getTotalPnL (r : t) : float :=
  (current_capital_ r - initial_capital_ r)%float.
Definition getTotalPnLPercent (r : t) : float :=
  (((current_capital_ r - initial_capital_ r) / initial_capital_ r) * 100)%float.
Definition getTradesCount (r : t) : Z := trades_today_ r.
Definition getStopLossAmount (r : t) : float := stop_loss_amount_ r.
Definition getTakeProfitAmount (r : t) : float := take_profit_amount_ r.
End RiskManager.

(* ------------------------------------------------------------------ *)
(** ** Trading engine orchestrator *)

(** What the engine writes to the console, one event per message, without
    the text formatting. *)
Inductive Event : Type :=
| LogMessage (msg : string)
| LogCandle (candle : Candle.t) (ema3 ema5 : float)
| LogWarmup (ts : string)
| LogSignal
| LogTrade (trade : Trade.t)
| LogExit (trade : Trade.t) (reason : string)
| LogPosition (unrealized : float).

Module TradingEngine.
(** The engine's fields, with [console_] for what it wrote to [std::cout];
    [current_candle_index_] is set at construction and never used, and is
    left out. *)
Record t : Type := mk {
  market_data_ : MarketData.t;
  strategy_ : TwoCandelPatternStrategy.t;
  risk_manager_ : RiskManager.t;
  position_ : Position.t;
  trade_log_ : list Trade.t;
  session_active_ : bool;
  console_ : list Event
}.

Definition MARKET_CLOSE_TIME : string := "15:00".

Definition new (data : MarketData.t) : t :=
  mk data TwoCandelPatternStrategy.new (RiskManager.new (MarketData.capital data))
     Position.default [] true [].

Definition set_strategy (s : TwoCandelPatternStrategy.t) (e : t) : t :=
  mk (market_data_ e) s (risk_manager_ e) (position_ e) (trade_log_ e)
     (session_active_ e) (console_ e).

Definition set_session_active (b : bool) (e : t) : t :=
  mk (market_data_ e) (strategy_ e) (risk_manager_ e) (position_ e) (trade_log_ e)
     b (console_ e).

Definition emit (ev : Event) (e : t) : t :=
  mk (market_data_ e) (strategy_ e) (risk_manager_ e) (position_ e) (trade_log_ e)
     (session_active_ e) (console_ e ++ [ev]).

Definition parseTimeToMinutes (time_str : string) : result Z :=
  hs <- substr time_str 0 2 ;;
  hours <- stoi hs ;;
  ms <- substr time_str 3 2 ;;
  minutes <- stoi ms ;;
  Ok (hours * 60 + minutes).

Definition isPastMarketClose (current_time : string) : result bool :=
  now <- parseTimeToMinutes current_time ;;
  limit <- parseTimeToMinutes MARKET_CLOSE_TIME ;;
  Ok (now >=? limit).

Definition executeSellOrder (candle : Candle.t) (e : t) : result t :=
  if negb (RiskManager.canTrade (risk_manager_ e)) then
    Ok (emit (LogMessage "Trade limit reached for the day") e)
  else if Position.is_open (position_ e) then
    Ok (emit (LogMessage "Position already open - skipping signal") e)
  else
    let entry_price := Candle.close candle in
    quantity <- RiskManager.calculatePositionSize entry_price (risk_manager_ e) ;;
    if quantity <=? 0 then
      Ok (emit (LogMessage "Insufficient capital for position") e)
    else
      let entry_trade :=
        Trade.mk (Candle.timestamp candle) SELL ENTRY entry_price quantity 0%float in
      Ok (mk (market_data_ e) (strategy_ e)
             (RiskManager.recordTrade (risk_manager_ e))
             (Position.open SELL entry_price quantity (Candle.timestamp candle)
                            (position_ e))
             (trade_log_ e ++ [entry_trade])
             (session_active_ e)
             (console_ e ++ [LogTrade entry_trade])).

Definition closePosition (candle : Candle.t) (reason : string) (e : t) : t :=
  if negb (Position.is_open (position_ e)) then e
  else
    let exit_price := Candle.close candle in
    let pnl := Position.getUnrealizedPnL exit_price (position_ e) in
    let exit_trade :=
      Trade.mk (Candle.timestamp candle) (Position.side (position_ e)) EXIT
               exit_price (Position.quantity (position_ e)) pnl in
    mk (market_data_ e) (strategy_ e)
       (RiskManager.updateCapital pnl (risk_manager_ e))
       (Position.close (position_ e))
       (trade_log_ e ++ [exit_trade])
       (session_active_ e)
       (console_ e ++ [LogExit exit_trade reason]).

Definition checkExitConditions (candle : Candle.t) (e : t) : result t :=
  if negb (Position.is_open (position_ e)) then Ok e
  else
    let unrealized_pnl :=
      Position.getUnrealizedPnL (Candle.close candle) (position_ e) in
    if RiskManager.isStopLossHit unrealized_pnl (risk_manager_ e) then
      Ok (closePosition candle "Stop Loss Hit" e)
    else if RiskManager.isTakeProfitHit unrealized_pnl (risk_manager_ e) then
      Ok (closePosition candle "Take Profit Hit" e)
    else
      past <- isPastMarketClose (Candle.timestamp candle) ;;
      if past : bool then
        Ok (set_session_active false (closePosition candle "Market Close (15:00)" e))
      else Ok e.

  (** The body of the [for] loop of [run], for one candle. *)
Definition processOne (candle : Candle.t) (e : t) : result t :=
  let '(s, signal) := TwoCandelPatternStrategy.processCandle candle (strategy_ e) in
  let e := set_strategy s e in
  let e :=
    if TwoCandelPatternStrategy.isEMA5Ready (strategy_ e) then
      emit (LogCandle candle (TwoCandelPatternStrategy.getEMA3 (strategy_ e))
                      (TwoCandelPatternStrategy.getEMA5 (strategy_ e))) e
    else emit (LogWarmup (Candle.timestamp candle)) e in
  e <- checkExitConditions candle e ;;
  e <- (if signal && session_active_ e then executeSellOrder candle (emit LogSignal e)
        else Ok e) ;;
  Ok (if Position.is_open (position_ e) then
        emit (LogPosition (Position.getUnrealizedPnL (Candle.close candle) (position_ e))) e
      else e).

  (** The [for] loop over the candles, with its [break]. *)
Fixpoint loop (cs : list Candle.t) (e : t) : result t :=
  match cs with
  | [] => Ok e
  | candle :: rest =>
      if negb (session_active_ e) then Ok e
      else e' <- processOne candle e ;; loop rest e'
  end.

Definition start (e : t) : t :=
  set_strategy
    (TwoCandelPatternStrategy.initialize
       (MarketData.previous_day_close (market_data_ e)) (strategy_ e)) e.

  (** [run], up to the summary. *)
Definition run (e : t) : result t :=
  let cs := MarketData.candles (market_data_ e) in
  e <- loop cs (start e) ;;
  Ok (if Position.is_open (position_ e) then
        match cs with
        | [] => e
        | c :: rest => closePosition (last rest c) "End of Market Data" e
        end
      else e).
End TradingEngine.

(** The end-of-day summary printed by [printSummary]. *)
Record Summary : Type := mkSummary {
  sum_instrument : string;
  sum_total_trades : Z;
  sum_initial_capital : float;
  sum_final_capital : float;
  sum_total_pnl : float;
  sum_return_percent : float;
  sum_trade_log : list Trade.t
}.

Definition printSummary (e : TradingEngine.t) : Summary :=
  let r := TradingEngine.risk_manager_ e in
  mkSummary (MarketData.instrument (TradingEngine.market_data_ e))
            (RiskManager.getTradesCount r)
            (RiskManager.getInitialCapital r)
            (RiskManager.getCurrentCapital r)
            (RiskManager.getTotalPnL r)
            (RiskManager.getTotalPnLPercent r)
            (TradingEngine.trade_log_ e).

(** A whole simulation on fresh components: [TradingEngine engine(data);
    engine.run();]. *)
Definition simulateLiveDataFeed (data : MarketData.t) : result (list Trade.t * Summary) :=
  e <- TradingEngine.run (TradingEngine.new data) ;;
  Ok (TradingEngine.trade_log_ e, printSummary e).

(* ------------------------------------------------------------------ *)
(** ** Rounding to binary64, in integers

    The value [N/D * 2^e] with [0 <= N] and [0 < D] is rounded by
    [binary_round_aux] to the mantissa [rnd_man N D e] at the exponent
    [rnd_exp N D e]; the definitions below name the pieces of that
    computation. *)

(** Position of a remainder [r] in a unit of [D] steps. *)
Definition locr (r D : Z) : location :=
  if r =? 0 then loc_Exact else loc_Inexact (2 * r ?= D).

Definition rne (N D : Z) : Z := round_nearest_even (N / D) (locr (N mod D) D).

Definition Rep (N D : Z) (r : shr_record) : Prop :=
  shr_m r = N / D /\ loc_of_shr_record r = locr (N mod D) D.

Definition fexp64 (e : Z) : Z := Z.max (e - 53) (-1074).

(** The exponent and the mantissa the rounding settles on. *)
Definition rnd_shift (q e : Z) : Z := Z.max 0 (fexp64 (Zdigits2 q + e) - e).

Definition finish (s : bool) (m e : Z) : spec_float :=
  match m with
  | Z0 => S754_zero s
  | Zpos p => if e <=? emax - prec then S754_finite s p e else S754_infinity s
  | Zneg _ => S754_nan
  end.

Definition rnd_exp (N D e : Z) : Z := e + rnd_shift (N / D) e.
Definition rnd_man (N D e : Z) : Z := rne N (D * 2 ^ rnd_shift (N / D) e).

Definition well_scaled (N D e : Z) : Prop := e <= fexp64 (Zdigits2 (N / D) + e).

Definition rnd_result (N D e : Z) : spec_float :=
  let M := rnd_man N D e in
  let E := rnd_exp N D e in
  let k := rnd_shift M E in
  finish false (M / 2 ^ k) (E + k).

Definition div_exp (mc : positive) (ec : Z) (mp : positive) (ep : Z) : Z :=
  Z.min (fexp64 (Zpos (digits2_pos mc) + ec - (Zpos (digits2_pos mp) + ep))) (ec - ep).

Definition div_num (mc : positive) (ec : Z) (mp : positive) (ep : Z) : Z :=
  Zpos mc * 2 ^ (ec - ep - div_exp mc ec mp ep).

Definition canonical64 (m : positive) (e : Z) : Prop :=
  fexp64 (Zpos (digits2_pos m) + e) = e.

Definition SFzero : spec_float := S754_zero false.

(* ------------------------------------------------------------------ *)
(** ** Vocabulary of the properties *)

(** The two states of the pattern detector, read off [first_candle_valid_]. *)
Inductive DetectorState : Type := SEEKING_FIRST_CANDLE | ARMED.

Definition detector_state (s : TwoCandelPatternStrategy.t) : DetectorState :=
  if TwoCandelPatternStrategy.first_candle_valid_ s then ARMED else SEEKING_FIRST_CANDLE.

(** The calculator after the prices of [prices] were fed to it in order. *)
Definition feed (prices : list float) (c : EMACalculator.t) : EMACalculator.t :=
  fold_left (fun acc price => EMACalculator.update price acc) prices c.

(** The value reported after each update of a price sequence. *)
Fixpoint ema_values (prices : list float) (c : EMACalculator.t) : list float :=
  match prices with
  | [] => []
  | price :: rest =>
      EMACalculator.getValue (EMACalculator.update price c)
      :: ema_values rest (EMACalculator.update price c)
  end.

(** The mutating methods of the risk manager, and a sequence of calls. *)
Inductive rm_call : Type :=
| call_recordTrade
| call_updateCapital (pnl : float).

Definition rm_apply (r : RiskManager.t) (op : rm_call) : RiskManager.t :=
  match op with
  | call_recordTrade => RiskManager.recordTrade r
  | call_updateCapital pnl => RiskManager.updateCapital pnl r
  end.

Definition rm_calls (ops : list rm_call) (r : RiskManager.t) : RiskManager.t :=
  fold_left rm_apply ops r.

Definition is_entry (t : Trade.t) : bool :=
  match Trade.type t with ENTRY => true | EXIT => false end.

Definition is_exit (t : Trade.t) : bool :=
  match Trade.type t with EXIT => true | ENTRY => false end.

(** The realized PnLs of a trade log, in log order, and the running total
    they give when added one after another to a starting capital. *)
Definition realized_pnls (log : list Trade.t) : list float :=
  map Trade.pnl (filter is_exit log).

Definition accumulate (K : float) (pnls : list float) : float :=
  fold_left PrimFloat.add pnls K.

Definition entries_count (log : list Trade.t) : Z :=
  Z.of_nat (List.length (filter is_entry log)).

(** Replaying a trade log against a one-position book: an ENTRY needs the
    book empty, an EXIT needs it occupied.  [None] when the log breaks that
    discipline, otherwise whether a position is open at the end. *)
Fixpoint replay (opened : bool) (log : list Trade.t) : option bool :=
  match log with
  | [] => Some opened
  | t :: rest =>
      match Trade.type t with
      | ENTRY => if opened then None else replay true rest
      | EXIT => if opened then replay false rest else None
      end
  end.

Definition no_consecutive_entries (log : list Trade.t) : Prop :=
  forall l1 t1 t2 l2,
    log = l1 ++ t1 :: t2 :: l2 -> Trade.type t1 = ENTRY -> Trade.type t2 = ENTRY -> False.

(** A well-kept ledger: the log, built record by record, and the entry
    still awaiting its exit. *)
Inductive Book : list Trade.t -> option Trade.t -> Prop :=
| Book_nil : Book [] None
| Book_entry (log : list Trade.t) (t : Trade.t) :
    Book log None ->
    Trade.type t = ENTRY -> Trade.side t = SELL ->
    0 < Trade.quantity t <= INT_MAX ->
    Trade.pnl t = 0%float ->
    Book (log ++ [t]) (Some t)
| Book_exit (log : list Trade.t) (en ex : Trade.t) :
    Book log (Some en) ->
    Trade.type ex = EXIT -> Trade.side ex = SELL ->
    Trade.quantity ex = Trade.quantity en ->
    Trade.pnl ex =
      ((Trade.price en - Trade.price ex) * double_of_int (Trade.quantity en))%float ->
    Book (log ++ [ex]) None.

Definition holds (p : Position.t) (pending : option Trade.t) : Prop :=
  match pending with
  | None => Position.is_open p = false
  | Some en =>
      Position.is_open p = true /\ Position.side p = SELL /\
      Position.entry_price p = Trade.price en /\
      Position.quantity p = Trade.quantity en
  end.

(** The class invariant of the engine for a session of starting capital [K]. *)
Record Inv (K : float) (e : TradingEngine.t) : Prop := mkInv {
  inv_book :
    exists pending,
      Book (TradingEngine.trade_log_ e) pending /\
      holds (TradingEngine.position_ e) pending;
  inv_capital :
    RiskManager.current_capital_ (TradingEngine.risk_manager_ e) =
    accumulate K (realized_pnls (TradingEngine.trade_log_ e));
  inv_initial :
    RiskManager.initial_capital_ (TradingEngine.risk_manager_ e) = K;
  inv_stop :
    RiskManager.stop_loss_amount_ (TradingEngine.risk_manager_ e) = (K * 0.02)%float;
  inv_take :
    RiskManager.take_profit_amount_ (TradingEngine.risk_manager_ e) = (K * 0.07)%float;
  inv_trades :
    RiskManager.trades_today_ (TradingEngine.risk_manager_ e) =
    entries_count (TradingEngine.trade_log_ e);
  inv_cap :
    0 <= RiskManager.trades_today_ (TradingEngine.risk_manager_ e) <= 2
}.

(** The states an engine built from [data] can be in: every one of its
    mutating methods, called on any candle, in any order. *)
Inductive Reachable (data : MarketData.t) : TradingEngine.t -> Prop :=
| Reach_new : Reachable data (TradingEngine.new data)
| Reach_strategy (s : TwoCandelPatternStrategy.t) (e : TradingEngine.t) :
    Reachable data e -> Reachable data (TradingEngine.set_strategy s e)
| Reach_session (b : bool) (e : TradingEngine.t) :
    Reachable data e -> Reachable data (TradingEngine.set_session_active b e)
| Reach_emit (ev : Event) (e : TradingEngine.t) :
    Reachable data e -> Reachable data (TradingEngine.emit ev e)
| Reach_sell (c : Candle.t) (e e' : TradingEngine.t) :
    Reachable data e -> TradingEngine.executeSellOrder c e = Ok e' -> Reachable data e'
| Reach_close (c : Candle.t) (reason : string) (e : TradingEngine.t) :
    Reachable data e -> Reachable data (TradingEngine.closePosition c reason e).

Definition exit_trade (c : Candle.t) (e : TradingEngine.t) : Trade.t :=
  Trade.mk (Candle.timestamp c) (Position.side (TradingEngine.position_ e)) EXIT
           (Candle.close c) (Position.quantity (TradingEngine.position_ e))
           (Position.getUnrealizedPnL (Candle.close c) (TradingEngine.position_ e)).

(** Every EXIT record of a log directly follows its ENTRY record and carries
    the SELL-side PnL of that pair. *)
Definition exits_settled (log : list Trade.t) : Prop :=
  forall l1 ex l2,
    log = l1 ++ ex :: l2 -> Trade.type ex = EXIT ->
    exists l0 en,
      l1 = l0 ++ [en] /\ Trade.type en = ENTRY /\
      Trade.side en = SELL /\ Trade.side ex = SELL /\
      Trade.quantity ex = Trade.quantity en /\
      Trade.pnl ex =
        ((Trade.price en - Trade.price ex) * double_of_int (Trade.quantity ex))%float.

(** The exit rules in the words of the specification: stop-loss first, then
    take-profit, then the market-close cutoff; the first that matches is
    the reason of the exit. *)
Inductive ExitReason : Type := StopLoss | TakeProfit | MarketClose.

Definition reason_text (r : ExitReason) : string :=
  match r with
  | StopLoss => "Stop Loss Hit"
  | TakeProfit => "Take Profit Hit"
  | MarketClose => "Market Close (15:00)"
  end.

Definition first_exit_condition (c : Candle.t) (e : TradingEngine.t)
  : result (option ExitReason) :=
  if Position.is_open (TradingEngine.position_ e) then
    let u := Position.getUnrealizedPnL (Candle.close c) (TradingEngine.position_ e) in
    if RiskManager.isStopLossHit u (TradingEngine.risk_manager_ e) then Ok (Some StopLoss)
    else if RiskManager.isTakeProfitHit u (TradingEngine.risk_manager_ e)
         then Ok (Some TakeProfit)
    else
      past <- TradingEngine.isPastMarketClose (Candle.timestamp c) ;;
      Ok (if past : bool then Some MarketClose else None)
  else Ok None.

(** A three-candle session: a gap-up candle that holds above its close, a
    breakdown candle, and a flat candle. *)
Definition demo : MarketData.t :=
  MarketData.mk "DEMO" 100 100000
    [Candle.mk "09:15" 104 105 103.5 103; Candle.mk "09:20" 103 103.2 101 101.5;
     Candle.mk "09:25" 101.5 102 101 101.2].

Definition demo_final : TradingEngine.t :=
  Eval vm_compute in
    match TradingEngine.run (TradingEngine.new demo) with
    | Ok e => e
    | Fail _ => TradingEngine.new demo
    end.

(** A wall-clock time written as "HH:MM". *)
Definition digit_char (d : nat) : ascii := ascii_of_nat (48 + d).

Definition format_time (h m : nat) : string :=
  String (digit_char (h / 10)) (String (digit_char (h mod 10))
    (String ":"%char
      (String (digit_char (m / 10)) (String (digit_char (m mod 10)) EmptyString)))).

(** A session that starts after the market-close time. *)
Definition late_session : MarketData.t :=
  MarketData.mk "LATE" 100 100000
    [Candle.mk "15:05" 104 105 103.5 103; Candle.mk "15:10" 103 103.2 101 101.5;
     Candle.mk "15:15" 101.5 102 101 101.2; Candle.mk "15:20" 101 101 90 90].

(** The same engine state around another market-data record. *)
Definition rebase (d : MarketData.t) (e : TradingEngine.t) : TradingEngine.t :=
  TradingEngine.mk d (TradingEngine.strategy_ e) (TradingEngine.risk_manager_ e)
    (TradingEngine.position_ e) (TradingEngine.trade_log_ e)
    (TradingEngine.session_active_ e) (TradingEngine.console_ e).

Definition with_instrument (name : string) (s : Summary) : Summary :=
  mkSummary name (sum_total_trades s) (sum_initial_capital s) (sum_final_capital s)
            (sum_total_pnl s) (sum_return_percent s) (sum_trade_log s).

Definition lift_rebase (d : MarketData.t) (r : result TradingEngine.t)
  : result TradingEngine.t :=
  e <- r ;; Ok (rebase d e).

(** States of the two sample sessions, computed by the engine itself. *)
Definition engine_after (cs : list Candle.t) (data : MarketData.t) : TradingEngine.t :=
  match TradingEngine.loop cs (TradingEngine.start (TradingEngine.new data)) with
  | Ok e => e
  | Fail _ => TradingEngine.new data
  end.

Definition demo_open : TradingEngine.t :=
  Eval vm_compute in engine_after (firstn 2 (MarketData.candles demo)) demo.

Definition demo_loop : TradingEngine.t :=
  Eval vm_compute in engine_after (MarketData.candles demo) demo.

Definition profit_candle : Candle.t := Candle.mk "09:25" 95 95 90 90.

Definition demo_profit : TradingEngine.t :=
  Eval vm_compute in
    match TradingEngine.processOne profit_candle demo_open with
    | Ok e => e
    | Fail _ => demo_open
    end.

Definition late_open : TradingEngine.t :=
  Eval vm_compute in engine_after (firstn 2 (MarketData.candles late_session)) late_session.

Definition late_closed : TradingEngine.t :=
  Eval vm_compute in engine_after (firstn 3 (MarketData.candles late_session)) late_session.

(** The session [demo] under another instrument name. *)
Definition demo_renamed : MarketData.t :=
  MarketData.mk "OTHER" (MarketData.previous_day_close demo) (MarketData.capital demo)
                (MarketData.candles demo).

Definition demo_renamed_final : TradingEngine.t :=
  Eval vm_compute in
    match TradingEngine.run (TradingEngine.new demo_renamed) with
    | Ok e => e
    | Fail _ => TradingEngine.new demo_renamed
    end.

(** A session whose first trade loses more than the whole capital. *)
Definition loss_session : MarketData.t :=
  MarketData.mk "LOSS" 1 100
    [Candle.mk "09:15" 2 2 1.5 1; Candle.mk "09:20" 1 1 1 1;
     Candle.mk "09:25" 2.5 3 2.5 3; Candle.mk "09:30" 2 2 2 2].

Definition loss_state : TradingEngine.t :=
  Eval vm_compute in engine_after (firstn 3 (MarketData.candles loss_session)) loss_session.

(* ------------------------------------------------------------------ *)
(** ** Signals, console and ledger read back *)

(** The detector after a run of candles, and the signal each of them gave. *)
Definition strategy_after (cs : list Candle.t) (s : TwoCandelPatternStrategy.t)
  : TwoCandelPatternStrategy.t :=
  fold_left (fun acc c => fst (TwoCandelPatternStrategy.processCandle c acc)) cs s.

Fixpoint signals (cs : list Candle.t) (s : TwoCandelPatternStrategy.t) : list bool :=
  match cs with
  | [] => []
  | c :: rest =>
      snd (TwoCandelPatternStrategy.processCandle c s)
      :: signals rest (fst (TwoCandelPatternStrategy.processCandle c s))
  end.

Definition count_signals (l : list bool) : nat := List.length (filter (fun b => b) l).

(** The gap-up test of [processCandle] against a previous-day close. *)
Definition gap_up (prev_close : float) (c : Candle.t) : bool :=
  (Candle.open c >=? prev_close * (1 + TwoCandelPatternStrategy.GAP_THRESHOLD))%float.

(** Reading the console back: the trade records printed by [logTrade] and
    [logExit], the candle lines of [logCandle], the warm-up lines, and the
    closing lines with their reason. *)
Definition console_trades (evs : list Event) : list Trade.t :=
  flat_map (fun ev => match ev with
                      | LogTrade t => [t]
                      | LogExit t _ => [t]
                      | _ => []
                      end) evs.

Definition candle_lines (evs : list Event) : list (Candle.t * float * float) :=
  flat_map (fun ev => match ev with
                      | LogCandle c ema3 ema5 => [(c, ema3, ema5)]
                      | _ => []
                      end) evs.

Definition warmup_lines (evs : list Event) : list string :=
  flat_map (fun ev => match ev with LogWarmup ts => [ts] | _ => [] end) evs.

Definition exit_lines (evs : list Event) : list (Trade.t * string) :=
  flat_map (fun ev => match ev with LogExit t reason => [(t, reason)] | _ => [] end) evs.

Definition entry_lines (evs : list Event) : list Trade.t :=
  flat_map (fun ev => match ev with LogTrade t => [t] | _ => [] end) evs.

(** The candle line of [c] when the candles [pre] came before it: the EMAs
    of all closes up to and including that of [c]. *)
Definition closes (cs : list Candle.t) : list float := map Candle.close cs.

Definition ema_line (pre : list Candle.t) (c : Candle.t) : Candle.t * float * float :=
  (c,
   EMACalculator.getValue (feed (closes (pre ++ [c])) (EMACalculator.new 3)),
   EMACalculator.getValue (feed (closes (pre ++ [c])) (EMACalculator.new 5))).

Fixpoint ema_lines (pre cs : list Candle.t) : list (Candle.t * float * float) :=
  match cs with
  | [] => []
  | c :: rest => ema_line pre c :: ema_lines (pre ++ [c]) rest
  end.

Definition exits_count (log : list Trade.t) : Z :=
  Z.of_nat (List.length (filter is_exit log)).

(** A trade made at the close of a candle of [cs]. *)
Definition at_candle_close (cs : list Candle.t) (t : Trade.t) : Prop :=
  exists c, In c cs /\ Trade.timestamp t = Candle.timestamp c /\
            Trade.price t = Candle.close c.

(** What stands behind the reason printed with a closed trade, for a session
    of capital [K] over the candles [cs]. *)
Definition exit_justified (K : float) (cs : list Candle.t) (line : Trade.t * string) : Prop :=
  let '(t, reason) := line in
  let stop := (Trade.pnl t <=? - (K * 0.02))%float in
  let take := (Trade.pnl t >=? K * 0.07)%float in
  Trade.type t = EXIT /\
  ((reason = "Stop Loss Hit"%string /\ stop = true) \/
   (reason = "Take Profit Hit"%string /\ stop = false /\ take = true) \/
   (reason = "Market Close (15:00)"%string /\ stop = false /\ take = false /\
    TradingEngine.isPastMarketClose (Trade.timestamp t) = Ok true) \/
   (reason = "End of Market Data"%string /\
    Trade.timestamp t = Candle.timestamp (last cs Candle.default) /\
    Trade.price t = Candle.close (last cs Candle.default))).

(** The events of one candle after its candle line. *)
Definition exit_events (c : Candle.t) (e : TradingEngine.t) (r : option ExitReason)
  : list Event :=
  match r with
  | Some reason => [LogExit (exit_trade c e) (reason_text reason)]
  | None => []
  end.

Definition entry_trade (c : Candle.t) (q : Z) : Trade.t :=
  Trade.mk (Candle.timestamp c) SELL ENTRY (Candle.close c) q 0%float.

Inductive entry_events (c : Candle.t) : list Event -> Prop :=
| no_signal : entry_events c []
| signal_dropped (msg : string) : entry_events c [LogSignal; LogMessage msg]
| signal_taken (q : Z) : 0 < q -> entry_events c [LogSignal; LogTrade (entry_trade c q)].

Inductive status_events : list Event -> Prop :=
| no_status : status_events []
| position_status (u : float) : status_events [LogPosition u].

(* ------------------------------------------------------------------ *)
(** ** The JSON parser of [json_parser.hpp]

    The cursor [pos_] is an index into [content_].  The strings and the
    vector the parser builds are taken to get the memory they ask for:
    [std::bad_alloc] is not among the outcomes. *)

(** The default constructor of [MarketData]. *)
Definition default_market_data : MarketData.t := MarketData.mk "" 0 0 [].

(** What a call of the parser ends in: a value, a [std::runtime_error] with
    its message, a failure of a library call ([std::stod], [substr]) or of
    the language (a read of [content_] past its end, [std::isdigit] on a
    negative [char]), the call stack giving out under the recursion of
    [skipValue], which ends the process, or the model's fuel running out. *)
Inductive outcome (A : Type) : Type :=
| Returns (a : A)
| Throws (what : string)
| Escapes (f : failure)
| Overflows
| OutOfFuel.

Arguments Returns {A} a.
Arguments Throws {A} what.
Arguments Escapes {A} f.
Arguments Overflows {A}.
Arguments OutOfFuel {A}.

Definition and_then {A B : Type} (r : outcome A) (k : A -> outcome B) : outcome B :=
  match r with
  | Returns a => k a
  | Throws what => Throws what
  | Escapes f => Escapes f
  | Overflows => Overflows
  | OutOfFuel => OutOfFuel
  end.

Notation "'let*' x ':=' r 'in' k" := (and_then r (fun x => k))
  (at level 10, x pattern, r at level 100, k at level 200).

Definition library {A : Type} (r : result A) : outcome A :=
  match r with
  | Ok a => Returns a
  | Fail f => Escapes f
  end.

Definition quote : ascii := "034"%char.
Definition backslash : ascii := "092"%char.
Definition NUL : ascii := "000"%char.

(** A [char] is signed, as on the x86 targets: the bytes from 0x80 on are
    the negative ones. *)
Definition negative_char (c : ascii) : bool :=
  match c with
  | Ascii _ _ _ _ _ _ _ b7 => b7
  end.

(** [std::isdigit(c)] on a [char]: the argument has to be representable as
    an [unsigned char] (or be [EOF]), so that the call is undefined on a
    negative [char]; the model does not single out the byte that equals
    [EOF]. *)
Definition std_isdigit (c : ascii) : outcome bool :=
  if negative_char c then Escapes undefined_behaviour else Returns (isdigit c).

(** The room on the call stack, counted in the nested calls of [skipValue]
    that fit on it; [None] for the abstract machine of the language, which
    sets no limit.  [enter] takes the frame of one call: what is left for
    the calls made from it, or nothing when the stack is full. *)
Definition enter (stack : option nat) : option (option nat) :=
  match stack with
  | None => Some None
  | Some O => None
  | Some (S n) => Some (Some n)
  end.

Module SimpleJSONParser.
Section Parser.

(** [std::stod], the C library's conversion, the room on the call stack, and
    the text being parsed. *)
Variable stod : string -> result float.
Variable stack_ : option nat.
Variable content_ : string.

(** [content_[pos_]]: the character at [pos], the terminating NUL at
    [pos = content_.length()], undefined beyond. *)
Definition read (pos : nat) : outcome ascii :=
  match String.get pos content_ with
  | Some c => Returns c
  | None => if (pos =? String.length content_)%nat then Returns NUL
            else Escapes undefined_behaviour
  end.

Definition is_blank (c : ascii) : bool :=
  Ascii.eqb c " " || Ascii.eqb c "010" || Ascii.eqb c "013" || Ascii.eqb c "009".

(** The [while] loops that only move the cursor run on the number of
    characters left. *)
Fixpoint skipWhitespace_loop (fuel pos : nat) : nat :=
  match fuel with
  | O => pos
  | S fuel' =>
      match String.get pos content_ with
      | Some c => if is_blank c then skipWhitespace_loop fuel' (S pos) else pos
      | None => pos
      end
  end.

Definition skipWhitespace (pos : nat) : nat :=
  skipWhitespace_loop (String.length content_ - pos) pos.

Definition expected (c : ascii) : string := "Expected '" ++ String c "'".

Definition expect (c : ascii) (pos : nat) : outcome nat :=
  let pos := skipWhitespace pos in
  match String.get pos content_ with
  | Some c' => if Ascii.eqb c' c then Returns (S pos) else Throws (expected c)
  | None => Throws (expected c)
  end.

Fixpoint parseString_loop (fuel pos : nat) (result : string) : nat * string :=
  match fuel with
  | O => (pos, result)
  | S fuel' =>
      match String.get pos content_ with
      | None => (pos, result)
      | Some c =>
          if Ascii.eqb c quote then (pos, result)
          else if Ascii.eqb c backslash then
            match String.get (S pos) content_ with
            | None => (S pos, result)
            | Some c' => parseString_loop fuel' (S (S pos)) (result ++ String c' "")
            end
          else parseString_loop fuel' (S pos) (result ++ String c "")
      end
  end.

Definition parseString (pos : nat) : outcome (string * nat) :=
  let pos := skipWhitespace pos in
  let* c := read pos in
  if negb (Ascii.eqb c quote) then Throws "Expected string"
  else
    let pos := S pos in
    let '(pos, result) := parseString_loop (String.length content_ - pos) pos "" in
    if (String.length content_ <=? pos)%nat then Throws "Unterminated string"
    else Returns (result, S pos).

Fixpoint parseNumber_loop (fuel pos : nat) : outcome nat :=
  match fuel with
  | O => Returns pos
  | S fuel' =>
      match String.get pos content_ with
      | Some c =>
          let* digit := std_isdigit c in
          if digit || Ascii.eqb c "." then parseNumber_loop fuel' (S pos) else Returns pos
      | None => Returns pos
      end
  end.

Definition parseNumber (pos : nat) : outcome (float * nat) :=
  let pos := skipWhitespace pos in
  let start := pos in
  let* c := read pos in
  let pos := if Ascii.eqb c "-" then S pos else pos in
  let* pos := parseNumber_loop (String.length content_ - pos) pos in
  let* num_str := library (substr content_ start (pos - start)) in
  let* d := library (stod num_str) in
  Returns (d, pos).

Fixpoint skipValue_scalar (fuel pos : nat) : nat :=
  match fuel with
  | O => pos
  | S fuel' =>
      match String.get pos content_ with
      | Some c =>
          if negb (Ascii.eqb c ",") && negb (Ascii.eqb c "}") && negb (Ascii.eqb c "]")
          then skipValue_scalar fuel' (S pos) else pos
      | None => pos
      end
  end.

(** [skipValue] calls itself inside its two [while (true)] loops; each of the
    three takes one unit of fuel per call.  A call of [skipValue] takes a
    frame of the stack [stack] it is given, and the calls made from its
    loops have what is left, [inner]. *)
Fixpoint skipValue (stack : option nat) (fuel pos : nat) {struct fuel} : outcome nat :=
  match fuel with
  | O => OutOfFuel
  | S fuel' =>
      match enter stack with
      | None => Overflows
      | Some inner =>
          let pos := skipWhitespace pos in
          let* c := read pos in
          if Ascii.eqb c quote then
            let* (_, pos) := parseString pos in Returns pos
          else if Ascii.eqb c "{" then
            let pos := skipWhitespace (S pos) in
            let* c := read pos in
            let* pos := (if negb (Ascii.eqb c "}")
                         then skipValue_members inner fuel' pos else Returns pos) in
            expect "}" pos
          else if Ascii.eqb c "[" then
            let pos := skipWhitespace (S pos) in
            let* c := read pos in
            let* pos := (if negb (Ascii.eqb c "]")
                         then skipValue_elements inner fuel' pos else Returns pos) in
            expect "]" pos
          else Returns (skipValue_scalar (String.length content_ - pos) pos)
      end
  end
with skipValue_members (inner : option nat) (fuel pos : nat) {struct fuel} : outcome nat :=
  match fuel with
  | O => OutOfFuel
  | S fuel' =>
      let* (_, pos) := parseString pos in
      let* pos := expect ":" pos in
      let* pos := skipValue inner fuel' pos in
      let pos := skipWhitespace pos in
      let* c := read pos in
      if Ascii.eqb c "}" then Returns pos
      else let* pos := expect "," pos in skipValue_members inner fuel' pos
  end
with skipValue_elements (inner : option nat) (fuel pos : nat) {struct fuel} : outcome nat :=
  match fuel with
  | O => OutOfFuel
  | S fuel' =>
      let* pos := skipValue inner fuel' pos in
      let pos := skipWhitespace pos in
      let* c := read pos in
      if Ascii.eqb c "]" then Returns pos
      else let* pos := expect "," pos in skipValue_elements inner fuel' pos
  end.

(** Fuel that lets [skipValue] run to its end from [pos]. *)
Definition skipValue_fuel (pos : nat) : nat := 2 * (String.length content_ - pos) + 2.

Definition loop_fuel (pos : nat) : nat := S (String.length content_ - pos).

Definition set_timestamp (ts : string) (c : Candle.t) : Candle.t :=
  Candle.mk ts (Candle.open c) (Candle.high c) (Candle.low c) (Candle.close c).
Definition set_open (d : float) (c : Candle.t) : Candle.t :=
  Candle.mk (Candle.timestamp c) d (Candle.high c) (Candle.low c) (Candle.close c).
Definition set_high (d : float) (c : Candle.t) : Candle.t :=
  Candle.mk (Candle.timestamp c) (Candle.open c) d (Candle.low c) (Candle.close c).
Definition set_low (d : float) (c : Candle.t) : Candle.t :=
  Candle.mk (Candle.timestamp c) (Candle.open c) (Candle.high c) d (Candle.close c).
Definition set_close (d : float) (c : Candle.t) : Candle.t :=
  Candle.mk (Candle.timestamp c) (Candle.open c) (Candle.high c) (Candle.low c) d.

(** The value of one member of a candle object, by its key. *)
Definition parseCandle_member (key : string) (candle : Candle.t) (pos : nat)
  : outcome (Candle.t * nat) :=
  if String.eqb key "timestamp" then
    let* (ts, pos) := parseString pos in Returns (set_timestamp ts candle, pos)
  else if String.eqb key "open" then
    let* (d, pos) := parseNumber pos in Returns (set_open d candle, pos)
  else if String.eqb key "high" then
    let* (d, pos) := parseNumber pos in Returns (set_high d candle, pos)
  else if String.eqb key "low" then
    let* (d, pos) := parseNumber pos in Returns (set_low d candle, pos)
  else if String.eqb key "close" then
    let* (d, pos) := parseNumber pos in Returns (set_close d candle, pos)
  else
    let* pos := skipValue stack_ (skipValue_fuel pos) pos in Returns (candle, pos).

(** The [while (true)] loop of [parseCandle]. *)
Fixpoint parseCandle_loop (fuel : nat) (candle : Candle.t) (pos : nat) {struct fuel}
  : outcome (Candle.t * nat) :=
  match fuel with
  | O => OutOfFuel
  | S fuel' =>
      let pos := skipWhitespace pos in
      let* c := read pos in
      if Ascii.eqb c "}" then Returns (candle, pos)
      else
        let* (key, pos) := parseString pos in
        let* pos := expect ":" pos in
        let* (candle, pos) := parseCandle_member key candle pos in
        let pos := skipWhitespace pos in
        let* c := read pos in
        if Ascii.eqb c "}" then Returns (candle, pos)
        else let* pos := expect "," pos in parseCandle_loop fuel' candle pos
  end.

Definition parseCandle (pos : nat) : outcome (Candle.t * nat) :=
  let candle := Candle.default in
  let* pos := expect "{" pos in
  let* (candle, pos) := parseCandle_loop (loop_fuel pos) candle pos in
  let* pos := expect "}" pos in
  Returns (candle, pos).

(** The [while (true)] loop over the elements of the "candles" array. *)
Fixpoint parse_candles (fuel : nat) (candles : list Candle.t) (pos : nat) {struct fuel}
  : outcome (list Candle.t * nat) :=
  match fuel with
  | O => OutOfFuel
  | S fuel' =>
      let* (candle, pos) := parseCandle pos in
      let candles := candles ++ [candle] in
      let pos := skipWhitespace pos in
      let* c := read pos in
      if Ascii.eqb c "]" then Returns (candles, pos)
      else let* pos := expect "," pos in parse_candles fuel' candles pos
  end.

Definition set_instrument (s : string) (d : MarketData.t) : MarketData.t :=
  MarketData.mk s (MarketData.previous_day_close d) (MarketData.capital d)
                (MarketData.candles d).
Definition set_previous_day_close (x : float) (d : MarketData.t) : MarketData.t :=
  MarketData.mk (MarketData.instrument d) x (MarketData.capital d) (MarketData.candles d).
Definition set_capital (x : float) (d : MarketData.t) : MarketData.t :=
  MarketData.mk (MarketData.instrument d) (MarketData.previous_day_close d) x
                (MarketData.candles d).
Definition set_candles (cs : list Candle.t) (d : MarketData.t) : MarketData.t :=
  MarketData.mk (MarketData.instrument d) (MarketData.previous_day_close d)
                (MarketData.capital d) cs.

(** The value of one member of the top-level object, by its key. *)
Definition parse_member (key : string) (data : MarketData.t) (pos : nat)
  : outcome (MarketData.t * nat) :=
  if String.eqb key "instrument" then
    let* (s, pos) := parseString pos in Returns (set_instrument s data, pos)
  else if String.eqb key "previous_day_close" then
    let* (d, pos) := parseNumber pos in Returns (set_previous_day_close d data, pos)
  else if String.eqb key "capital" then
    let* (d, pos) := parseNumber pos in Returns (set_capital d data, pos)
  else if String.eqb key "candles" then
    let* pos := expect "[" pos in
    let pos := skipWhitespace pos in
    let* c := read pos in
    let* (candles, pos) :=
      (if negb (Ascii.eqb c "]")
       then parse_candles (loop_fuel pos) (MarketData.candles data) pos
       else Returns (MarketData.candles data, pos)) in
    let* pos := expect "]" pos in
    Returns (set_candles candles data, pos)
  else
    let* pos := skipValue stack_ (skipValue_fuel pos) pos in Returns (data, pos).

(** The [while (true)] loop of [parse]. *)
Fixpoint parse_loop (fuel : nat) (data : MarketData.t) (pos : nat) {struct fuel}
  : outcome (MarketData.t * nat) :=
  match fuel with
  | O => OutOfFuel
  | S fuel' =>
      let pos := skipWhitespace pos in
      let* c := read pos in
      if Ascii.eqb c "}" then Returns (data, pos)
      else
        let* (key, pos) := parseString pos in
        let* pos := expect ":" pos in
        let* (data, pos) := parse_member key data pos in
        let pos := skipWhitespace pos in
        let* c := read pos in
        if Ascii.eqb c "}" then Returns (data, pos)
        else let* pos := expect "," pos in parse_loop fuel' data pos
  end.

(** [parse(json_content)], with [content_ = json_content] and [pos_ = 0]. *)
Definition parse : outcome MarketData.t :=
  let pos := 0%nat in
  let data := default_market_data in
  let* pos := expect "{" pos in
  let* (data, pos) := parse_loop (loop_fuel pos) data pos in
  let* pos := expect "}" pos in
  Returns data.

End Parser.

(** [loadFromFile], over a file system that gives the text of the files that
    can be opened. *)
Definition loadFromFile (stod : string -> result float) (stack : option nat)
           (files : string -> option string) (filename : string) : outcome MarketData.t :=
  match files filename with
  | None => Throws ("Cannot open file: " ++ filename)
  | Some content => parse stod stack content
  end.

End SimpleJSONParser.

(* ------------------------------------------------------------------ *)
(** ** A reference [std::stod]

    The conversion the C library makes of the strings [parseNumber] can pass
    on: an optional sign, digits with at most one decimal point in or around
    them, at least one digit in all; whatever follows is ignored.  The value
    is the double nearest to the decimal number, ties to even;
    [std::out_of_range] when the library reports a range error: the number
    is too large for a double, or it underflows. *)

Fixpoint count_digits (s : string) : nat :=
  match s with
  | String c r => if isdigit c then S (count_digits r) else O
  | EmptyString => O
  end.

Fixpoint drop_digits (s : string) : string :=
  match s with
  | String c r => if isdigit c then drop_digits r else s
  | EmptyString => s
  end.

(** The double nearest to [N / 10^k]. *)
Definition decimal_to_double (negative : bool) (N : Z) (k : nat) : spec_float :=
  match N with
  | Z0 => S754_zero negative
  | Zpos _ =>
      let '(q, e, l) := SFdiv_core_binary prec emax N 0 (10 ^ Z.of_nat k) 0 in
      binary_round_aux prec emax negative q e l
  | Zneg _ => S754_nan
  end.

(** Underflow, as [strtod] reports it where tininess is detected after
    rounding: [N / 10^k] is not zero, rounded to 53 bits it is still below
    the least normal double [2^-1022], which is to say that it is below
    [2^-1022 - 2^-1076], and it is not itself a double, a multiple of
    [2^-1074]. *)
Definition underflows (N : Z) (k : nat) : bool :=
  (0 <? N) && (N * 2 ^ 1076 <? 10 ^ Z.of_nat k * (2 ^ 54 - 1))
  && negb ((N * 2 ^ 1074) mod 10 ^ Z.of_nat k =? 0).

Definition stod_decimal (s : string) : result float :=
  let s1 := skip_spaces s in
  let '(negative, s2) :=
    match s1 with
    | String "-"%char r => (true, r)
    | String "+"%char r => (false, r)
    | _ => (false, s1)
    end in
  let whole := read_digits s2 0 in
  let after := drop_digits s2 in
  let fraction :=
    match after with
    | String "."%char r => r
    | _ => EmptyString
    end in
  if (count_digits s2 + count_digits fraction =? 0)%nat then Fail invalid_argument
  else if underflows (read_digits fraction whole) (count_digits fraction)
  then Fail out_of_range
  else
    match decimal_to_double negative (read_digits fraction whole) (count_digits fraction) with
    | S754_infinity _ => Fail out_of_range
    | f => Ok (SF2Prim f)
    end.

(** Sample documents are written with apostrophes for the quotation marks. *)
Fixpoint json (s : string) : string :=
  match s with
  | String c r => String (if Ascii.eqb c "'" then quote else c) (json r)
  | EmptyString => EmptyString
  end.

Definition sample_document : string :=
  json "{ 'instrument': 'DEMO', 'previous_day_close': 100, 'exchange': {'name': 'NSE', 'lot': [1, 2]},
  'capital': 100000.0,
  'candles': [
    {'timestamp': '09:15', 'open': 104, 'high': 105, 'low': 103.5, 'close': 103, 'volume': 1200},
    {'timestamp': '09:20', 'open': 103, 'high': 103.2, 'low': 101, 'close': 101.5},
    {'timestamp': '09:25', 'open': 101.5, 'high': 102, 'low': 101, 'close': 101.2}
  ] }".

(* ------------------------------------------------------------------ *)
(** ** What the parser may end in *)

(** The text from a position on. *)
Fixpoint rest_from (s : string) (pos : nat) : string :=
  match pos, s with
  | O, _ => s
  | S pos', String _ r => rest_from r pos'
  | S _, EmptyString => EmptyString
  end.

Fixpoint all_chars (P : ascii -> bool) (s : string) : bool :=
  match s with
  | String c r => P c && all_chars P r
  | EmptyString => true
  end.

(** A text of ASCII characters: none of its [char]s is negative. *)
Definition ascii_text (s : string) : bool :=
  all_chars (fun c => negb (negative_char c)) s.

(** The opening brackets of a text. *)
Definition opening (c : ascii) : bool := Ascii.eqb c "{" || Ascii.eqb c "[".

Fixpoint count_open (s : string) : nat :=
  match s with
  | String c r => (if opening c then 1 else 0) + count_open r
  | EmptyString => 0
  end.

(** The messages of the parser's own exceptions. *)
Inductive parser_message : string -> Prop :=
| message_expected (c : ascii) :
    In c ["{"; "}"; "["; "]"; ":"; ","]%char -> parser_message (SimpleJSONParser.expected c)
| message_string : parser_message "Expected string"
| message_unterminated : parser_message "Unterminated string".

(** An outcome that is a value satisfying [Q], one of the parser's
    exceptions, an exception of [stod], undefined behaviour when [U] holds,
    or the stack giving out when [O] holds. *)
Definition fine {A : Type} (stod : string -> result float) (U O : Prop) (Q : A -> Prop)
           (r : outcome A) : Prop :=
  match r with
  | Returns a => Q a
  | Throws what => parser_message what
  | Escapes f => (exists s, stod s = Fail f) \/ (f = undefined_behaviour /\ U)
  | Overflows => O
  | OutOfFuel => False
  end.

(** The stack has room for no more calls of [skipValue] than the text has
    opening brackets from [pos] on. *)
Definition over (content_ : string) (stack : option nat) (pos : nat) : Prop :=
  exists n, stack = Some n /\ (n <= count_open (rest_from content_ pos))%nat.

(* ------------------------------------------------------------------ *)
(** ** Texts and tokens *)

(** The text is over, or goes on with a character outside [P]. *)
Definition stops (P : ascii -> bool) (s : string) : bool :=
  match s with
  | String c _ => negb (P c)
  | EmptyString => true
  end.

Definition blanks (w : string) : bool := all_chars SimpleJSONParser.is_blank w.

(** What [parseString] makes of the text between the quotation marks: a
    backslash is dropped and the character after it is kept as it is. *)
Fixpoint unescape (raw : string) : string :=
  match raw with
  | String c r =>
      if Ascii.eqb c backslash then
        match r with
        | String c' r' => String c' (unescape r')
        | EmptyString => EmptyString
        end
      else String c (unescape r)
  | EmptyString => EmptyString
  end.

(** Text that can stand between two quotation marks: every quotation mark in
    it follows a backslash that escapes it, and no backslash is left without
    a character to escape. *)
Fixpoint quotable (raw : string) : bool :=
  match raw with
  | String c r =>
      if Ascii.eqb c backslash then
        match r with
        | String _ r' => quotable r'
        | EmptyString => false
        end
      else negb (Ascii.eqb c quote) && quotable r
  | EmptyString => true
  end.

Definition number_char (c : ascii) : bool := isdigit c || Ascii.eqb c ".".

(** The text [parseNumber] hands to [std::stod]: an optional '-' and then
    digits and points, in any number and order. *)
Definition number_token (tok : string) : bool :=
  match tok with
  | String c r => (Ascii.eqb c "-" || number_char c) && all_chars number_char r
  | EmptyString => false
  end.

Definition number_sign_or_char (c : ascii) : bool := Ascii.eqb c "-" || number_char c.

(** Where the loop of [parseNumber] stops without more ado: at the end of
    the text or before a character that [std::isdigit] can be asked about
    and that is neither a digit nor a point. *)
Definition number_end (r : string) : bool :=
  stops number_sign_or_char r && stops negative_char r.

(** *** Documents

    The texts the parser is meant for, as trees: a value that [skipValue]
    passes over, the members of a candle object and of the top-level
    object.  [render_document] writes a tree out, with the blanks [w] before
    every token. *)

#[warnings="-register-all"]
Inductive json_value : Type :=
| JString (raw : string)
| JScalar (text : string)
| JObject (members : list (string * json_value))
| JArray (elements : list json_value).

Inductive candle_member : Type :=
| CTimestamp (raw : string)
| COpen (tok : string)
| CHigh (tok : string)
| CLow (tok : string)
| CClose (tok : string)
| COther (key : string) (v : json_value).

Inductive member : Type :=
| MInstrument (raw : string)
| MPreviousDayClose (tok : string)
| MCapital (tok : string)
| MCandles (candles : list (list candle_member))
| MOther (key : string) (v : json_value).

Fixpoint join (sep : string) (parts : list string) : string :=
  match parts with
  | [] => ""
  | p :: rest =>
      match rest with
      | [] => p
      | _ :: _ => (p ++ sep ++ join sep rest)%string
      end
  end.

Definition quoted (w raw : string) : string :=
  (w ++ String quote (raw ++ String quote ""))%string.
Definition punct (w : string) (c : ascii) : string := (w ++ String c "")%string.

Fixpoint render_value (w : string) (v : json_value) : string :=
  match v with
  | JString raw => quoted w raw
  | JScalar text => (w ++ text)%string
  | JObject members =>
      (punct w "{"
       ++ join (punct w ",")
               (map (fun kv => quoted w (fst kv) ++ punct w ":" ++ render_value w (snd kv))
                    members)
       ++ punct w "}")%string
  | JArray elements =>
      (punct w "[" ++ join (punct w ",") (map (render_value w) elements)
       ++ punct w "]")%string
  end.

Definition candle_member_key (m : candle_member) : string :=
  match m with
  | CTimestamp _ => "timestamp"
  | COpen _ => "open"
  | CHigh _ => "high"
  | CLow _ => "low"
  | CClose _ => "close"
  | COther key _ => key
  end.

Definition candle_member_value (w : string) (m : candle_member) : string :=
  match m with
  | CTimestamp raw => quoted w raw
  | COpen tok | CHigh tok | CLow tok | CClose tok => (w ++ tok)%string
  | COther _ v => render_value w v
  end.

Definition render_candle_member (w : string) (m : candle_member) : string :=
  (quoted w (candle_member_key m) ++ punct w ":" ++ candle_member_value w m)%string.

Definition render_candle (w : string) (ms : list candle_member) : string :=
  (punct w "{" ++ join (punct w ",") (map (render_candle_member w) ms)
   ++ punct w "}")%string.

Definition member_key (m : member) : string :=
  match m with
  | MInstrument _ => "instrument"
  | MPreviousDayClose _ => "previous_day_close"
  | MCapital _ => "capital"
  | MCandles _ => "candles"
  | MOther key _ => key
  end.

Definition member_value (w : string) (m : member) : string :=
  match m with
  | MInstrument raw => quoted w raw
  | MPreviousDayClose tok | MCapital tok => (w ++ tok)%string
  | MCandles candles =>
      (punct w "[" ++ join (punct w ",") (map (render_candle w) candles)
       ++ punct w "]")%string
  | MOther _ v => render_value w v
  end.

Definition render_member (w : string) (m : member) : string :=
  (quoted w (member_key m) ++ punct w ":" ++ member_value w m)%string.

Definition render_document (w : string) (ms : list member) : string :=
  (punct w "{" ++ join (punct w ",") (map (render_member w) ms) ++ punct w "}")%string.

(** Which trees are documents. *)
Definition delimiter (c : ascii) : bool :=
  Ascii.eqb c "," || Ascii.eqb c "}" || Ascii.eqb c "]".

Definition not_delimiter (c : ascii) : bool := negb (delimiter c).

Definition scalar_start (c : ascii) : bool :=
  negb (SimpleJSONParser.is_blank c || Ascii.eqb c quote || Ascii.eqb c "{"
        || Ascii.eqb c "[" || delimiter c).

Definition scalar_text (text : string) : bool :=
  match text with
  | String c r => scalar_start c && all_chars not_delimiter r
  | EmptyString => false
  end.

Fixpoint skippable (v : json_value) : bool :=
  match v with
  | JString raw => quotable raw
  | JScalar text => scalar_text text
  | JObject members =>
      forallb (fun kv => quotable (fst kv) && skippable (snd kv)) members
  | JArray elements => forallb skippable elements
  end.

Definition candle_key (key : string) : bool :=
  String.eqb key "timestamp" || String.eqb key "open" || String.eqb key "high"
  || String.eqb key "low" || String.eqb key "close".

Definition document_key (key : string) : bool :=
  String.eqb key "instrument" || String.eqb key "previous_day_close"
  || String.eqb key "capital" || String.eqb key "candles".

Definition candle_member_ok (m : candle_member) : bool :=
  match m with
  | CTimestamp raw => quotable raw
  | COpen tok | CHigh tok | CLow tok | CClose tok => number_token tok
  | COther key v => quotable key && negb (candle_key (unescape key)) && skippable v
  end.

Definition member_ok (m : member) : bool :=
  match m with
  | MInstrument raw => quotable raw
  | MPreviousDayClose tok | MCapital tok => number_token tok
  | MCandles candles => forallb (forallb candle_member_ok) candles
  | MOther key v => quotable key && negb (document_key (unescape key)) && skippable v
  end.

(** The calls of [skipValue] that are on the stack together while it passes
    over a value: one for the value, and under it those of the deepest of
    its members or elements.  [fits] says that the stack has room for them. *)
Fixpoint depth (v : json_value) : nat :=
  match v with
  | JString _ | JScalar _ => 1
  | JObject members => S (list_max (map (fun kv => depth (snd kv)) members))
  | JArray elements => S (list_max (map depth elements))
  end.

Definition fits (stack : option nat) (frames : nat) : Prop :=
  match stack with
  | None => True
  | Some n => (frames <= n)%nat
  end.

Definition candle_member_depth (m : candle_member) : nat :=
  match m with
  | COther _ v => depth v
  | _ => 0
  end.

Definition candle_depth (ms : list candle_member) : nat :=
  list_max (map candle_member_depth ms).

Definition member_depth (m : member) : nat :=
  match m with
  | MOther _ v => depth v
  | MCandles candles => list_max (map candle_depth candles)
  | _ => 0
  end.

Definition document_depth (doc : list member) : nat := list_max (map member_depth doc).

(** What a document says: the members are taken in order, each one
    overwriting its field; candles are appended to those already there; a
    number is whatever [stod] makes of its token, and the first token it
    refuses ends the reading. *)
Fixpoint fold_members {M A : Type} (f : M -> A -> outcome A) (ms : list M) (a : A)
  : outcome A :=
  match ms with
  | [] => Returns a
  | m :: rest => let* a' := f m a in fold_members f rest a'
  end.

Definition candle_with (stod : string -> result float) (m : candle_member) (c : Candle.t)
  : outcome Candle.t :=
  match m with
  | CTimestamp raw => Returns (SimpleJSONParser.set_timestamp (unescape raw) c)
  | COpen tok => let* d := library (stod tok) in Returns (SimpleJSONParser.set_open d c)
  | CHigh tok => let* d := library (stod tok) in Returns (SimpleJSONParser.set_high d c)
  | CLow tok => let* d := library (stod tok) in Returns (SimpleJSONParser.set_low d c)
  | CClose tok => let* d := library (stod tok) in Returns (SimpleJSONParser.set_close d c)
  | COther _ _ => Returns c
  end.

Definition candle_of (stod : string -> result float) (ms : list candle_member)
  : outcome Candle.t :=
  fold_members (candle_with stod) ms Candle.default.

Definition candles_with (stod : string -> result float) (ms : list candle_member)
           (cs : list Candle.t) : outcome (list Candle.t) :=
  let* c := candle_of stod ms in Returns (cs ++ [c]).

Definition data_with (stod : string -> result float) (m : member) (d : MarketData.t)
  : outcome MarketData.t :=
  match m with
  | MInstrument raw => Returns (SimpleJSONParser.set_instrument (unescape raw) d)
  | MPreviousDayClose tok =>
      let* x := library (stod tok) in Returns (SimpleJSONParser.set_previous_day_close x d)
  | MCapital tok =>
      let* x := library (stod tok) in Returns (SimpleJSONParser.set_capital x d)
  | MCandles candles =>
      let* cs := fold_members (candles_with stod) candles (MarketData.candles d) in
      Returns (SimpleJSONParser.set_candles cs d)
  | MOther _ _ => Returns d
  end.

Definition data_of (stod : string -> result float) (ms : list member)
  : outcome MarketData.t :=
  fold_members (data_with stod) ms default_market_data.

(** [r] does what [X] says: it returns the value of [X] with a cursor that
    satisfies [Q], or ends the way [X] ends. *)
Definition follows {A : Type} (X : outcome A) (r : outcome (A * nat)) (Q : nat -> Prop)
  : Prop :=
  match X with
  | Returns a => exists p, r = Returns (a, p) /\ Q p
  | Throws what => r = Throws what
  | Escapes f => r = Escapes f
  | Overflows => r = Overflows
  | OutOfFuel => r = OutOfFuel
  end.

(** The text of one member of an object that [skipValue] passes over, and
    what [skipValue] is to do on the text of a value that a delimiter
    follows: with room on the stack for the value and fuel for the text, it
    returns a cursor from which the delimiter is the next character that is
    not white space. *)
Definition member_text (w : string) (kv : string * json_value) : string :=
  (quoted w (fst kv) ++ punct w ":" ++ render_value w (snd kv))%string.

Definition skipValue_ok (content_ w : string) (stack : option nat) (v : json_value)
  : Prop :=
  skippable v = true -> fits stack (depth v) ->
  forall fuel pos d k,
    rest_from content_ pos = (render_value w v ++ w ++ String d k)%string ->
    delimiter d = true ->
    (2 * String.length (render_value w v) + 2 <= fuel)%nat ->
    exists p, SimpleJSONParser.skipValue content_ stack fuel pos = Returns p /\
              rest_from content_ (SimpleJSONParser.skipWhitespace content_ p) = String d k.

(* ------------------------------------------------------------------ *)
(** ** The program of [main.cpp] *)

(** How [main] ends when it returns: after the simulation, with the trade
    log and the summary of the engine; after one of its two checks of the
    data, with the line it wrote to [std::cerr]; or in its [catch] of
    [std::exception], with the message of a [std::runtime_error] or with the
    exception of the library. *)
Inductive report : Type :=
| Completed (trade_log : list Trade.t) (summary : Summary)
| Error (line : string)
| FatalError (what : string + failure).

Definition exit_code (r : report) : Z :=
  match r with
  | Completed _ _ => 0
  | Error _ | FatalError _ => 1
  end.

(** [argv[1]] when [argc > 1]. *)
Definition input_file (argv : list string) : string :=
  match argv with
  | _ :: file :: _ => file
  | _ => "market_data.json"
  end.

(** [main]: undefined behaviour and the end of the call stack are beyond its
    [catch]. *)
Definition main (stod : string -> result float) (stack : option nat)
           (files : string -> option string) (argv : list string) : outcome report :=
  match SimpleJSONParser.loadFromFile stod stack files (input_file argv) with
  | Returns market_data =>
      match MarketData.candles market_data with
      | [] => Returns (Error "ERROR: No candle data found in file")
      | _ :: _ =>
          if (MarketData.capital market_data <=? 0)%float
          then Returns (Error "ERROR: Invalid capital amount")
          else
            match simulateLiveDataFeed market_data with
            | Ok (trade_log, summary) => Returns (Completed trade_log summary)
            | Fail undefined_behaviour => Escapes undefined_behaviour
            | Fail f => Returns (FatalError (inr f))
            end
      end
  | Throws what => Returns (FatalError (inl what))
  | Escapes undefined_behaviour => Escapes undefined_behaviour
  | Escapes f => Returns (FatalError (inr f))
  | Overflows => Overflows
  | OutOfFuel => OutOfFuel
  end.

(** A file system with the sample document under the default name. *)
Definition sample_files (filename : string) : option string :=
  if String.eqb filename "market_data.json" then Some sample_document else None.

(* ------------------------------------------------------------------ *)
(** ** Further sample data *)

(** The sample session with nothing to trade with. *)
Definition demo_broke : MarketData.t :=
  MarketData.mk "DEMO" 100 0 (MarketData.candles demo).

Definition demo_broke_final : TradingEngine.t :=
  Eval vm_compute in
    match TradingEngine.run (TradingEngine.new demo_broke) with
    | Ok e => e
    | Fail _ => TradingEngine.new demo_broke
    end.

(** The sample session as a document, with a member and a candle field the
    parser has no use for. *)
Definition demo_members : list member :=
  [MInstrument "DEMO"; MPreviousDayClose "100";
   MOther "exchange" (JObject [("name", JString "NSE");
                               ("lot", JArray [JScalar "1"; JScalar "2"])]);
   MCapital "100000.0";
   MCandles
     [[CTimestamp "09:15"; COpen "104"; CHigh "105"; CLow "103.5"; CClose "103";
       COther "volume" (JScalar "1200")];
      [CTimestamp "09:20"; COpen "103"; CHigh "103.2"; CLow "101"; CClose "101.5"];
      [CTimestamp "09:25"; COpen "101.5"; CHigh "102"; CLow "101"; CClose "101.2"]]]%string.

(* ================================================================== *)
(** * Properties *)

(* ------------------------------------------------------------------ *)
(** ** The EMA calculator *)

Lemma update_initialized (price : float) (c : EMACalculator.t) :
  EMACalculator.isInitialized (EMACalculator.update price c) = true.
Proof.
  unfold EMACalculator.update, EMACalculator.isInitialized.
  destruct (EMACalculator.initialized_ c) eqn:E; simpl; auto.
Qed.

Lemma update_multiplier (price : float) (c : EMACalculator.t) :
  EMACalculator.multiplier_ (EMACalculator.update price c) = EMACalculator.multiplier_ c.
Proof.
  unfold EMACalculator.update. destruct (EMACalculator.initialized_ c); reflexivity.
Qed.

Lemma feed_multiplier (prices : list float) (c : EMACalculator.t) :
  EMACalculator.multiplier_ (feed prices c) = EMACalculator.multiplier_ c.
Proof.
  revert c. induction prices as [|p ps IH]; intros c; simpl; [reflexivity|].
  unfold feed in IH. rewrite IH. apply update_multiplier.
Qed.

Lemma feed_initialized (p : float) (ps : list float) (c : EMACalculator.t) :
  EMACalculator.isInitialized (feed (p :: ps) c) = true.
Proof.
  simpl. generalize (update_initialized p c). generalize (EMACalculator.update p c).
  induction ps as [|q qs IH]; intros c' H; simpl; [exact H|].
  apply IH. apply update_initialized.
Qed.

(** C4.  The multiplier is 2/(period+1) and no update changes it; the first
    update stores the price itself; every later update replaces the stored
    value e by price*alpha + e*(1-alpha); with period 3 the prices 10, 12, 11
    give the values 10, 11, 11. *)
Theorem ema_update_recurrence :
  (forall p, EMACalculator.multiplier_ (EMACalculator.new p)
             = (2 / (double_of_int p + 1))%float) /\
  (forall p prices,
      EMACalculator.multiplier_ (feed prices (EMACalculator.new p))
      = EMACalculator.multiplier_ (EMACalculator.new p)) /\
  (forall p x,
      EMACalculator.getValue (EMACalculator.update x (EMACalculator.new p)) = x) /\
  (forall p x0 prices x,
      let alpha := EMACalculator.multiplier_ (EMACalculator.new p) in
      let c := feed (x0 :: prices) (EMACalculator.new p) in
      EMACalculator.getValue (EMACalculator.update x c)
      = (x * alpha + EMACalculator.getValue c * (1 - alpha))%float) /\
  ema_values [10; 12; 11]%float (EMACalculator.new 3) = [10; 11; 11]%float.
Proof.
  split; [reflexivity|].
  split; [intros; apply feed_multiplier|].
  split; [reflexivity|].
  split; [|vm_compute; reflexivity].
  intros p x0 prices x alpha c.
  pose proof (feed_initialized x0 prices (EMACalculator.new p)) as Hi.
  pose proof (feed_multiplier (x0 :: prices) (EMACalculator.new p)) as Hm.
  fold c in Hi, Hm. unfold EMACalculator.isInitialized in Hi.
  unfold EMACalculator.update, EMACalculator.getValue.
  rewrite Hi. simpl. rewrite Hm. reflexivity.
Qed.

(* ------------------------------------------------------------------ *)
(** ** The pattern detector *)

Lemma processCandle_ready (c : Candle.t) (s : TwoCandelPatternStrategy.t) :
  TwoCandelPatternStrategy.isEMA5Ready
    (fst (TwoCandelPatternStrategy.processCandle c s)) = true.
Proof.
  unfold TwoCandelPatternStrategy.processCandle, TwoCandelPatternStrategy.isEMA5Ready.
  rewrite update_initialized. cbn [negb].
  pose proof (update_initialized (Candle.close c) (TwoCandelPatternStrategy.ema5_ s)) as H.
  repeat match goal with |- context [if ?b then _ else _] => destruct b end;
    cbn [fst TwoCandelPatternStrategy.ema5_]; exact H.
Qed.

Lemma processCandle_ema5 (c : Candle.t) (s : TwoCandelPatternStrategy.t) :
  TwoCandelPatternStrategy.ema5_ (fst (TwoCandelPatternStrategy.processCandle c s)) =
  EMACalculator.update (Candle.close c) (TwoCandelPatternStrategy.ema5_ s).
Proof.
  unfold TwoCandelPatternStrategy.processCandle.
  repeat match goal with |- context [if ?b then _ else _] => destruct b end;
    reflexivity.
Qed.

(** C1.  One step of the detector.  From SEEKING_FIRST_CANDLE it arms, with
    the candle as anchor, exactly when open >= previousDayClose * 1.03 and
    low > EMA(5), and gives no signal either way; from ARMED it signals and
    returns to SEEKING_FIRST_CANDLE exactly when low < anchor low, and
    otherwise stays ARMED; the anchor is not replaced while armed; a candle
    that arms the detector does not fire. *)
Theorem processCandle_state_machine (c : Candle.t) (s : TwoCandelPatternStrategy.t) :
  let s' := fst (TwoCandelPatternStrategy.processCandle c s) in
  let signal := snd (TwoCandelPatternStrategy.processCandle c s) in
  let gap :=
    (Candle.open c >=? TwoCandelPatternStrategy.previous_day_close_ s * 1.03)%float in
  let strength := (Candle.low c >? TwoCandelPatternStrategy.getEMA5 s')%float in
  let breakdown :=
    (Candle.low c <? Candle.low (TwoCandelPatternStrategy.first_candle_ s))%float in
  TwoCandelPatternStrategy.isEMA5Ready s' = true /\
  (detector_state s = SEEKING_FIRST_CANDLE ->
     signal = false /\
     detector_state s' = (if gap && strength then ARMED else SEEKING_FIRST_CANDLE) /\
     TwoCandelPatternStrategy.first_candle_ s' =
       (if gap && strength then c else TwoCandelPatternStrategy.first_candle_ s)) /\
  (detector_state s = ARMED ->
     signal = breakdown /\
     detector_state s' = (if breakdown then SEEKING_FIRST_CANDLE else ARMED) /\
     TwoCandelPatternStrategy.first_candle_ s' = TwoCandelPatternStrategy.first_candle_ s) /\
  (detector_state s = SEEKING_FIRST_CANDLE -> detector_state s' = ARMED -> signal = false).
Proof.
  intros s' signal gap strength breakdown.
  split; [apply processCandle_ready|].
  assert (Hs : strength =
    (Candle.low c >? EMACalculator.getValue
       (EMACalculator.update (Candle.close c) (TwoCandelPatternStrategy.ema5_ s)))%float).
  { unfold strength, s', TwoCandelPatternStrategy.getEMA5.
    rewrite processCandle_ema5. reflexivity. }
  clearbody strength. subst strength.
  unfold s', signal, gap, breakdown, detector_state,
    TwoCandelPatternStrategy.processCandle.
  rewrite update_initialized. cbn [negb].
  change (1 + TwoCandelPatternStrategy.GAP_THRESHOLD)%float with 1.03%float.
  cbn [TwoCandelPatternStrategy.first_candle_valid_
       TwoCandelPatternStrategy.previous_day_close_
       TwoCandelPatternStrategy.first_candle_].
  destruct (TwoCandelPatternStrategy.first_candle_valid_ s); cbn [negb].
  - split; [discriminate|]. split; [|discriminate]. intros _.
    destruct (Candle.low c <? Candle.low (TwoCandelPatternStrategy.first_candle_ s))%float;
      cbn; auto.
  - split; [|split; [discriminate|]].
    + intros _.
      destruct ((Candle.open c >=? TwoCandelPatternStrategy.previous_day_close_ s * 1.03)%float
                && _); cbn; auto.
    + intros _ _.
      destruct ((Candle.open c >=? TwoCandelPatternStrategy.previous_day_close_ s * 1.03)%float
                && _); cbn; auto.
Qed.

(** C10.  The readiness guard of [processCandle] never fires: the update made
    just before it leaves the gating EMA initialized, so the function always
    continues past the guard; on the first candle of a session the EMA(5)
    value is that candle's close, and the candle arms the detector exactly
    when open >= previousDayClose * 1.03 and low > close, which some candle
    satisfies. *)
Theorem ema5_guard_never_fires :
  (forall c s,
     negb (EMACalculator.isInitialized
             (EMACalculator.update (Candle.close c) (TwoCandelPatternStrategy.ema5_ s)))
     = false) /\
  (forall c s,
     TwoCandelPatternStrategy.isEMA5Ready
       (fst (TwoCandelPatternStrategy.processCandle c s)) = true) /\
  (forall c prev_close,
     let s0 := TwoCandelPatternStrategy.initialize prev_close TwoCandelPatternStrategy.new in
     let s1 := fst (TwoCandelPatternStrategy.processCandle c s0) in
     TwoCandelPatternStrategy.getEMA5 s1 = Candle.close c /\
     detector_state s1 =
       (if (Candle.open c >=? prev_close * 1.03)%float
           && (Candle.low c >? Candle.close c)%float
        then ARMED else SEEKING_FIRST_CANDLE)) /\
  (exists c prev_close,
     detector_state
       (fst (TwoCandelPatternStrategy.processCandle c
               (TwoCandelPatternStrategy.initialize prev_close
                  TwoCandelPatternStrategy.new))) = ARMED).
Proof.
  split; [intros; rewrite update_initialized; reflexivity|].
  split; [apply processCandle_ready|].
  split.
  - intros c prev_close s0 s1. unfold s1, s0, detector_state.
    unfold TwoCandelPatternStrategy.processCandle, TwoCandelPatternStrategy.getEMA5.
    cbn.
    change (1 + TwoCandelPatternStrategy.GAP_THRESHOLD)%float with 1.03%float.
    destruct ((Candle.open c >=? prev_close * 1.03)%float
              && (Candle.low c >? Candle.close c)%float); cbn; auto.
  - exists (Candle.mk "09:15" 104 105 103.5 103), 100%float.
    vm_compute. reflexivity.
Qed.

(* ------------------------------------------------------------------ *)
(** ** The ledger and the class invariant *)

Lemma bind_Ok {A B : Type} (r : result A) (k : A -> result B) (b : B) :
  bind r k = Ok b -> exists a, r = Ok a /\ k a = Ok b.
Proof. destruct r as [a|f]; simpl; [eauto|discriminate]. Qed.

Lemma replay_app (l1 l2 : list Trade.t) (o : bool) :
  replay o (l1 ++ l2) =
  match replay o l1 with Some o' => replay o' l2 | None => None end.
Proof.
  revert o. induction l1 as [|t l1 IH]; intros o; simpl; [reflexivity|].
  destruct (Trade.type t), o; auto.
Qed.

Lemma replay_no_consecutive (log : list Trade.t) (o o' : bool) :
  replay o log = Some o' -> no_consecutive_entries log.
Proof.
  intros H l1 t1 t2 l2 -> E1 E2. revert o H.
  induction l1 as [|t l1 IH]; intros o H; simpl in H.
  - rewrite E1, E2 in H. destruct o; discriminate.
  - destruct (Trade.type t), o; try discriminate; eauto.
Qed.

Lemma Book_replay (log : list Trade.t) (pending : option Trade.t) :
  Book log pending ->
  replay false log = Some (match pending with Some _ => true | None => false end).
Proof.
  induction 1 as [|log t _ IH Ht _ _ _|log en ex _ IH Ht _ _ _]; [reflexivity| |];
    rewrite replay_app, IH; simpl; rewrite Ht; reflexivity.
Qed.

Lemma Book_pending_quantity (log : list Trade.t) (en : Trade.t) :
  Book log (Some en) -> 0 < Trade.quantity en <= INT_MAX.
Proof. inversion 1; subst; assumption. Qed.

Lemma realized_pnls_snoc (log : list Trade.t) (t : Trade.t) :
  realized_pnls (log ++ [t]) =
  realized_pnls log ++ (if is_exit t then [Trade.pnl t] else []).
Proof.
  unfold realized_pnls. rewrite filter_app, map_app. simpl.
  destruct (is_exit t); reflexivity.
Qed.

Lemma entries_count_snoc (log : list Trade.t) (t : Trade.t) :
  entries_count (log ++ [t]) = entries_count log + (if is_entry t then 1 else 0).
Proof.
  unfold entries_count. rewrite filter_app, length_app. simpl.
  destruct (is_entry t); simpl; lia.
Qed.

Lemma accumulate_snoc (K : float) (pnls : list float) (p : float) :
  accumulate K (pnls ++ [p]) = (accumulate K pnls + p)%float.
Proof. unfold accumulate. rewrite fold_left_app. reflexivity. Qed.

Lemma static_cast_int_range (d : float) (z : Z) :
  static_cast_int d = Ok z -> INT_MIN <= z <= INT_MAX.
Proof.
  unfold static_cast_int, in_int_range.
  destruct (trunc_float d) as [t|]; [|discriminate].
  destruct ((INT_MIN <=? t) && (t <=? INT_MAX)) eqn:E; [|discriminate].
  intros [= <-]. apply andb_true_iff in E. lia.
Qed.

Lemma calculatePositionSize_range (p : float) (r : RiskManager.t) (q : Z) :
  RiskManager.calculatePositionSize p r = Ok q -> INT_MIN <= q <= INT_MAX.
Proof.
  unfold RiskManager.calculatePositionSize.
  destruct (p <=? 0)%float.
  - intros [= <-]. unfold INT_MIN, INT_MAX. lia.
  - apply static_cast_int_range.
Qed.

Lemma Inv_new (data : MarketData.t) :
  Inv (MarketData.capital data) (TradingEngine.new data).
Proof.
  constructor; simpl; try reflexivity; try lia.
  exists None. split; [constructor|reflexivity].
Qed.

Lemma Inv_set_strategy (K : float) (s : TwoCandelPatternStrategy.t) (e : TradingEngine.t) :
  Inv K e -> Inv K (TradingEngine.set_strategy s e).
Proof. intros []; constructor; assumption. Qed.

Lemma Inv_set_session_active (K : float) (b : bool) (e : TradingEngine.t) :
  Inv K e -> Inv K (TradingEngine.set_session_active b e).
Proof. intros []; constructor; assumption. Qed.

Lemma Inv_emit (K : float) (ev : Event) (e : TradingEngine.t) :
  Inv K e -> Inv K (TradingEngine.emit ev e).
Proof. intros []; constructor; assumption. Qed.

Lemma holds_open (p : Position.t) (pending : option Trade.t) :
  holds p pending -> Position.is_open p = true ->
  exists en, pending = Some en /\ Position.side p = SELL /\
             Position.entry_price p = Trade.price en /\
             Position.quantity p = Trade.quantity en.
Proof.
  destruct pending as [en|]; simpl.
  - intros (_ & H1 & H2 & H3) _. eauto.
  - intros -> ?. discriminate.
Qed.

Lemma holds_closed (p : Position.t) (pending : option Trade.t) :
  holds p pending -> Position.is_open p = false -> pending = None.
Proof.
  destruct pending as [en|]; simpl; [|reflexivity].
  intros (H & _) H'. congruence.
Qed.

Lemma Inv_closePosition (K : float) (c : Candle.t) (reason : string) (e : TradingEngine.t) :
  Inv K e -> Inv K (TradingEngine.closePosition c reason e).
Proof.
  intros HI. unfold TradingEngine.closePosition.
  destruct (Position.is_open (TradingEngine.position_ e)) eqn:Eo; cbn [negb]; [|exact HI].
  destruct HI as [(pending & HB & HH) Hc Hi Hs Ht Hn Hb].
  destruct (holds_open _ _ HH Eo) as (en & -> & Hside & Hprice & Hqty).
  constructor; cbn [TradingEngine.trade_log_ TradingEngine.position_
                    TradingEngine.risk_manager_]; try assumption.
  - exists None. split; [|reflexivity].
    eapply Book_exit; [exact HB| | | |]; cbn; auto.
    unfold Position.getUnrealizedPnL. rewrite Eo, Hside, Hprice, Hqty. reflexivity.
  - rewrite realized_pnls_snoc. cbn. rewrite accumulate_snoc, <- Hc. reflexivity.
  - rewrite entries_count_snoc. cbn. cbn in Hn. lia.
Qed.

Lemma Inv_executeSellOrder (K : float) (c : Candle.t) (e e' : TradingEngine.t) :
  TradingEngine.executeSellOrder c e = Ok e' -> Inv K e -> Inv K e'.
Proof.
  unfold TradingEngine.executeSellOrder. intros H HI.
  destruct (RiskManager.canTrade (TradingEngine.risk_manager_ e)) eqn:Ec; cbn [negb] in H;
    [|injection H as <-; apply Inv_emit, HI].
  destruct (Position.is_open (TradingEngine.position_ e)) eqn:Eo;
    [injection H as <-; apply Inv_emit, HI|].
  apply bind_Ok in H. destruct H as (q & Hq & H).
  destruct (q <=? 0) eqn:Eq; [injection H as <-; apply Inv_emit, HI|].
  injection H as <-.
  apply calculatePositionSize_range in Hq. apply Z.leb_gt in Eq.
  unfold RiskManager.canTrade, RiskManager.MAX_DAILY_TRADES in Ec. apply Z.ltb_lt in Ec.
  destruct HI as [(pending & HB & HH) Hc Hi Hs Ht Hn Hb].
  rewrite (holds_closed _ _ HH Eo) in HB.
  constructor; cbn [TradingEngine.trade_log_ TradingEngine.position_
                    TradingEngine.risk_manager_]; cbn; try assumption.
  - eexists. split; [eapply Book_entry; [exact HB| | | |]|]; cbn; auto; lia.
  - rewrite realized_pnls_snoc. cbn. rewrite app_nil_r. exact Hc.
  - rewrite entries_count_snoc. cbn. lia.
  - lia.
Qed.

Lemma Reachable_Inv (data : MarketData.t) (e : TradingEngine.t) :
  Reachable data e -> Inv (MarketData.capital data) e.
Proof.
  induction 1.
  - apply Inv_new.
  - apply Inv_set_strategy; assumption.
  - apply Inv_set_session_active; assumption.
  - apply Inv_emit; assumption.
  - eapply Inv_executeSellOrder; eassumption.
  - apply Inv_closePosition; assumption.
Qed.

Lemma Reachable_checkExitConditions (data : MarketData.t) (c : Candle.t)
      (e e' : TradingEngine.t) :
  Reachable data e -> TradingEngine.checkExitConditions c e = Ok e' -> Reachable data e'.
Proof.
  intros HR. unfold TradingEngine.checkExitConditions.
  destruct (negb _); [intros [= <-]; exact HR|].
  destruct (RiskManager.isStopLossHit _ _); [intros [= <-]; apply Reach_close, HR|].
  destruct (RiskManager.isTakeProfitHit _ _); [intros [= <-]; apply Reach_close, HR|].
  intros H. apply bind_Ok in H. destruct H as ([|] & _ & H); injection H as <-.
  - apply Reach_session, Reach_close, HR.
  - exact HR.
Qed.

Lemma Reachable_processOne (data : MarketData.t) (c : Candle.t) (e e' : TradingEngine.t) :
  Reachable data e -> TradingEngine.processOne c e = Ok e' -> Reachable data e'.
Proof.
  intros HR. unfold TradingEngine.processOne.
  destruct (TwoCandelPatternStrategy.processCandle c (TradingEngine.strategy_ e))
    as [s signal].
  intros H. apply bind_Ok in H. destruct H as (e1 & H1 & H).
  apply bind_Ok in H. destruct H as (e2 & H2 & H).
  assert (HR1 : Reachable data e1).
  { eapply Reachable_checkExitConditions; [|exact H1].
    destruct (TwoCandelPatternStrategy.isEMA5Ready _);
      apply Reach_emit, Reach_strategy, HR. }
  assert (HR2 : Reachable data e2).
  { destruct (signal && TradingEngine.session_active_ e1).
    - eapply Reach_sell; [|exact H2]. apply Reach_emit, HR1.
    - injection H2 as <-. exact HR1. }
  destruct (Position.is_open (TradingEngine.position_ e2)); injection H as <-;
    [apply Reach_emit|]; exact HR2.
Qed.

Lemma Reachable_loop (data : MarketData.t) (cs : list Candle.t) (e e' : TradingEngine.t) :
  Reachable data e -> TradingEngine.loop cs e = Ok e' -> Reachable data e'.
Proof.
  revert e. induction cs as [|c cs IH]; intros e HR; simpl.
  - intros [= <-]. exact HR.
  - destruct (negb _); [intros [= <-]; exact HR|].
    intros H. apply bind_Ok in H. destruct H as (e1 & H1 & H).
    eapply IH; [|exact H]. eapply Reachable_processOne; eassumption.
Qed.

Lemma Reachable_run (data : MarketData.t) (e' : TradingEngine.t) :
  TradingEngine.run (TradingEngine.new data) = Ok e' -> Reachable data e'.
Proof.
  unfold TradingEngine.run. intros H.
  apply bind_Ok in H. destruct H as (e1 & H1 & H).
  assert (HR : Reachable data e1).
  { eapply Reachable_loop; [|exact H1]. apply Reach_strategy, Reach_new. }
  injection H as <-.
  destruct (Position.is_open _); [|exact HR].
  destruct (MarketData.candles _); [exact HR|apply Reach_close, HR].
Qed.

Lemma Book_last_pending (log : list Trade.t) (en : Trade.t) :
  Book log (Some en) ->
  exists l0, log = l0 ++ [en] /\ Trade.type en = ENTRY /\ Trade.side en = SELL.
Proof. inversion 1; subst; eauto. Qed.

Lemma snoc_split {A : Type} (log l1 l2 : list A) (t x : A) :
  log ++ [t] = l1 ++ x :: l2 ->
  (l2 = [] /\ l1 = log /\ x = t) \/ (exists l2', l2 = l2' ++ [t] /\ log = l1 ++ x :: l2').
Proof.
  destruct l2 as [|y l2] using rev_ind.
  - intros H. apply app_inj_tail in H. left. intuition congruence.
  - intros H. right. exists l2.
    change (l1 ++ x :: l2 ++ [y]) with (l1 ++ (x :: l2) ++ [y]) in H.
    rewrite app_assoc in H. apply app_inj_tail in H. destruct H as [-> ->]. auto.
Qed.

Lemma Book_exits_settled (log : list Trade.t) (pending : option Trade.t) :
  Book log pending -> exits_settled log.
Proof.
  induction 1 as [|log t HB IH Ht Hs Hq Hp|log en ex HB IH Ht Hs Hq Hp];
    intros l1 x l2 E Hx.
  - destruct l1; discriminate.
  - apply snoc_split in E. destruct E as [(-> & -> & ->)|(l2' & -> & E)].
    + congruence.
    + eapply IH; eassumption.
  - apply snoc_split in E. destruct E as [(-> & -> & ->)|(l2' & -> & E)].
    + destruct (Book_last_pending _ _ HB) as (l0 & -> & Hen & Hsd).
      exists l0, en. rewrite Hq. repeat split; auto.
    + eapply IH; eassumption.
Qed.

Lemma closePosition_open (c : Candle.t) (reason : string) (e : TradingEngine.t) :
  Position.is_open (TradingEngine.position_ e) = true ->
  let e' := TradingEngine.closePosition c reason e in
  TradingEngine.trade_log_ e' = TradingEngine.trade_log_ e ++ [exit_trade c e] /\
  Position.is_open (TradingEngine.position_ e') = false /\
  TradingEngine.session_active_ e' = TradingEngine.session_active_ e /\
  TradingEngine.strategy_ e' = TradingEngine.strategy_ e /\
  TradingEngine.risk_manager_ e' =
    RiskManager.updateCapital (Trade.pnl (exit_trade c e)) (TradingEngine.risk_manager_ e).
Proof.
  intros Ho. unfold TradingEngine.closePosition. rewrite Ho. cbn. auto.
Qed.

Lemma closePosition_closed (c : Candle.t) (reason : string) (e : TradingEngine.t) :
  Position.is_open (TradingEngine.position_ e) = false ->
  TradingEngine.closePosition c reason e = e.
Proof. intros Ho. unfold TradingEngine.closePosition. rewrite Ho. reflexivity. Qed.

Ltac unchanged := cbn; split; [reflexivity|split; [reflexivity|left; auto]].

Lemma executeSellOrder_cases (c : Candle.t) (e e' : TradingEngine.t) :
  TradingEngine.executeSellOrder c e = Ok e' ->
  TradingEngine.strategy_ e' = TradingEngine.strategy_ e /\
  TradingEngine.session_active_ e' = TradingEngine.session_active_ e /\
  ((TradingEngine.trade_log_ e' = TradingEngine.trade_log_ e /\
    TradingEngine.position_ e' = TradingEngine.position_ e /\
    TradingEngine.risk_manager_ e' = TradingEngine.risk_manager_ e) \/
   (exists en,
      TradingEngine.trade_log_ e' = TradingEngine.trade_log_ e ++ [en] /\
      en = Trade.mk (Candle.timestamp c) SELL ENTRY (Candle.close c)
                    (Trade.quantity en) 0%float /\
      RiskManager.calculatePositionSize (Candle.close c) (TradingEngine.risk_manager_ e)
        = Ok (Trade.quantity en) /\
      0 < Trade.quantity en /\
      Position.is_open (TradingEngine.position_ e) = false /\
      RiskManager.trades_today_ (TradingEngine.risk_manager_ e) < 2 /\
      TradingEngine.position_ e' =
        Position.mk true SELL (Candle.close c) (Trade.quantity en) (Candle.timestamp c) /\
      TradingEngine.risk_manager_ e' =
        RiskManager.recordTrade (TradingEngine.risk_manager_ e))).
Proof.
  unfold TradingEngine.executeSellOrder. intros H.
  destruct (RiskManager.canTrade (TradingEngine.risk_manager_ e)) eqn:Ec; cbn [negb] in H;
    [|injection H as <-; unchanged].
  destruct (Position.is_open (TradingEngine.position_ e)) eqn:Eo;
    [injection H as <-; unchanged|].
  apply bind_Ok in H. destruct H as (q & Hq & H).
  destruct (q <=? 0) eqn:Eq; [injection H as <-; unchanged|].
  injection H as <-. cbn. split; [reflexivity|]. split; [reflexivity|]. right.
  eexists. split; [reflexivity|]. cbn.
  apply Z.leb_gt in Eq.
  unfold RiskManager.canTrade, RiskManager.MAX_DAILY_TRADES in Ec. apply Z.ltb_lt in Ec.
  repeat split; auto.
Qed.

Lemma executeSellOrder_dropped (c : Candle.t) (e e' : TradingEngine.t) :
  TradingEngine.executeSellOrder c e = Ok e' ->
  Position.is_open (TradingEngine.position_ e) = true \/
  2 <= RiskManager.trades_today_ (TradingEngine.risk_manager_ e) ->
  TradingEngine.trade_log_ e' = TradingEngine.trade_log_ e /\
  TradingEngine.position_ e' = TradingEngine.position_ e /\
  TradingEngine.risk_manager_ e' = TradingEngine.risk_manager_ e.
Proof.
  intros H Hd. apply executeSellOrder_cases in H.
  destruct H as (_ & _ & [H|(en & _ & _ & _ & _ & Ho & Ht & _)]); [exact H|].
  destruct Hd; [congruence|lia].
Qed.

(** C8.  Every state of every run is a reachable state, and in every
    reachable state: the trade log has no two consecutive ENTRY records; it
    replays against a one-position book, every EXIT meeting an open position,
    and ends with the position flag of the engine; an open position has a
    positive quantity; at most two trades were opened; [closePosition] appends
    an EXIT only while a position is open; [executeSellOrder] drops the entry
    when a position is open or two trades were already made, and otherwise
    opens at most one position, of positive quantity. *)
Theorem single_position_discipline (data : MarketData.t) :
  (forall cs e,
     TradingEngine.loop cs (TradingEngine.start (TradingEngine.new data)) = Ok e ->
     Reachable data e) /\
  (forall e, TradingEngine.run (TradingEngine.new data) = Ok e -> Reachable data e) /\
  (forall e,
     Reachable data e ->
     no_consecutive_entries (TradingEngine.trade_log_ e) /\
     replay false (TradingEngine.trade_log_ e)
       = Some (Position.is_open (TradingEngine.position_ e)) /\
     (Position.is_open (TradingEngine.position_ e) = true ->
        0 < Position.quantity (TradingEngine.position_ e)) /\
     0 <= RiskManager.trades_today_ (TradingEngine.risk_manager_ e) <= 2 /\
     (forall c reason,
        let e' := TradingEngine.closePosition c reason e in
        if Position.is_open (TradingEngine.position_ e)
        then TradingEngine.trade_log_ e' = TradingEngine.trade_log_ e ++ [exit_trade c e] /\
             Position.is_open (TradingEngine.position_ e') = false
        else e' = e) /\
     (forall c e',
        TradingEngine.executeSellOrder c e = Ok e' ->
        (Position.is_open (TradingEngine.position_ e) = true \/
         2 <= RiskManager.trades_today_ (TradingEngine.risk_manager_ e) ->
         TradingEngine.trade_log_ e' = TradingEngine.trade_log_ e /\
         TradingEngine.position_ e' = TradingEngine.position_ e) /\
        (TradingEngine.trade_log_ e' = TradingEngine.trade_log_ e /\
         TradingEngine.position_ e' = TradingEngine.position_ e \/
         exists en,
           TradingEngine.trade_log_ e' = TradingEngine.trade_log_ e ++ [en] /\
           Trade.type en = ENTRY /\
           Position.is_open (TradingEngine.position_ e) = false /\
           Position.is_open (TradingEngine.position_ e') = true /\
           Position.quantity (TradingEngine.position_ e') = Trade.quantity en /\
           0 < Trade.quantity en))).
Proof.
  split; [|split].
  - intros cs e H. eapply Reachable_loop; [|exact H]. apply Reach_strategy, Reach_new.
  - apply Reachable_run.
  - intros e HR. pose proof (Reachable_Inv _ _ HR) as HI.
    destruct HI as [(pending & HB & HH) _ _ _ _ _ Hcap].
    pose proof (Book_replay _ _ HB) as Hrep.
    assert (Hflag : Position.is_open (TradingEngine.position_ e) =
                    match pending with Some _ => true | None => false end).
    { destruct pending; simpl in HH; intuition. }
    split; [eapply replay_no_consecutive; exact Hrep|].
    split; [rewrite Hrep, Hflag; reflexivity|].
    split.
    { intros Ho. destruct (holds_open _ _ HH Ho) as (en & -> & _ & _ & ->).
      apply (Book_pending_quantity _ _ HB). }
    split; [exact Hcap|].
    split.
    { intros c reason e'.
      destruct (Position.is_open (TradingEngine.position_ e)) eqn:Eo.
      - destruct (closePosition_open c reason e Eo) as (H1 & H2 & _). auto.
      - apply closePosition_closed, Eo. }
    intros c e' H. split.
    { intros Hd. destruct (executeSellOrder_dropped _ _ _ H Hd) as (H1 & H2 & _). auto. }
    apply executeSellOrder_cases in H.
    destruct H as (_ & _ & [(H1 & H2 & _)|(en & H1 & H2 & _ & H4 & H5 & _ & H7 & _)]);
      [left; auto|right].
    exists en. rewrite H7. cbn. rewrite H2. cbn. rewrite <- H2. auto 10.
Qed.

(* ------------------------------------------------------------------ *)
(** ** The risk manager *)

Lemma rm_calls_thresholds (ops : list rm_call) (r : RiskManager.t) :
  RiskManager.stop_loss_amount_ (rm_calls ops r) = RiskManager.stop_loss_amount_ r /\
  RiskManager.take_profit_amount_ (rm_calls ops r) = RiskManager.take_profit_amount_ r /\
  RiskManager.initial_capital_ (rm_calls ops r) = RiskManager.initial_capital_ r.
Proof.
  revert r. induction ops as [|op ops IH]; intros r; simpl; [auto|].
  destruct (IH (rm_apply r op)) as (H1 & H2 & H3).
  unfold rm_calls in *. rewrite H1, H2, H3. destruct op; simpl; auto.
Qed.

(** C5.  For every capital K and every later sequence of [recordTrade] and
    [updateCapital] calls, the stop-loss amount is K*0.02 and the take-profit
    amount is K*0.07, and so they are in every state an engine built on that
    capital can reach; the stop-loss test is [pnl <= -(K*0.02)] and the
    take-profit test is [pnl >= K*0.07], both inclusive; for K = 100000
    [isStopLossHit(-2000)] holds and [isStopLossHit(-1999.99)] does not. *)
Theorem risk_thresholds_fixed (K : float) (ops : list rm_call) (pnl : float) :
  let r := rm_calls ops (RiskManager.new K) in
  RiskManager.getStopLossAmount r = (K * 0.02)%float /\
  RiskManager.getTakeProfitAmount r = (K * 0.07)%float /\
  RiskManager.isStopLossHit pnl r = (pnl <=? - (K * 0.02))%float /\
  RiskManager.isTakeProfitHit pnl r = (pnl >=? K * 0.07)%float /\
  (forall data e,
     Reachable data e -> MarketData.capital data = K ->
     RiskManager.getStopLossAmount (TradingEngine.risk_manager_ e) = (K * 0.02)%float /\
     RiskManager.getTakeProfitAmount (TradingEngine.risk_manager_ e) = (K * 0.07)%float) /\
  RiskManager.isStopLossHit (-2000)%float (rm_calls ops (RiskManager.new 100000)) = true /\
  RiskManager.isStopLossHit (-1999.99)%float (rm_calls ops (RiskManager.new 100000)) = false /\
  RiskManager.isTakeProfitHit (100000 * 0.07)%float (rm_calls ops (RiskManager.new 100000)) = true.
Proof.
  intros r.
  destruct (rm_calls_thresholds ops (RiskManager.new K)) as (H1 & H2 & _).
  destruct (rm_calls_thresholds ops (RiskManager.new 100000)) as (H3 & H4 & _).
  unfold RiskManager.getStopLossAmount, RiskManager.getTakeProfitAmount,
    RiskManager.isStopLossHit, RiskManager.isTakeProfitHit.
  fold r in H1, H2. rewrite H1, H2, H3, H4.
  split; [reflexivity|]. split; [reflexivity|]. split; [reflexivity|].
  split; [reflexivity|]. split.
  { intros data e HR <-. destruct (Reachable_Inv _ _ HR). auto. }
  repeat split; vm_compute; reflexivity.
Qed.

(** In double arithmetic 100000 * 0.02 is 2000, but 100000 * 0.07 is the
    next double above 7000: an unrealized PnL of exactly 7000 does not reach
    the take-profit amount of a capital of 100000. *)
Remark thresholds_of_100000 :
  RiskManager.getStopLossAmount (RiskManager.new 100000) = 2000%float /\
  (RiskManager.getTakeProfitAmount (RiskManager.new 100000) =? 7000)%float = false /\
  RiskManager.getTakeProfitAmount (RiskManager.new 100000) = PrimFloat.next_up 7000 /\
  RiskManager.isTakeProfitHit 7000 (RiskManager.new 100000) = false.
Proof. vm_compute. repeat split; reflexivity. Qed.

(* ------------------------------------------------------------------ *)
(** ** End of data and the summary *)

Lemma last_cons_default {A : Type} (x d : A) (l : list A) :
  last (x :: l) d = last l x.
Proof.
  revert x d. induction l as [|y l IH]; intros x d; [reflexivity|].
  change (last (x :: y :: l) d) with (last (y :: l) d).
  rewrite (IH y d), (IH y x). reflexivity.
Qed.

Lemma loop_nil_closed (data : MarketData.t) (e : TradingEngine.t) :
  TradingEngine.loop [] (TradingEngine.start (TradingEngine.new data)) = Ok e ->
  Position.is_open (TradingEngine.position_ e) = false.
Proof. intros [= <-]. reflexivity. Qed.

(** C7.  Once the loop over the candles has completed, [run] completes too;
    when the loop leaves a position open, [run] closes it with
    [closePosition] at the last candle: one EXIT record at that
    candle's close is appended and the capital is increased by its PnL;
    afterwards no position is open, every EXIT of the log has
    PnL = (entry price - exit price) * quantity of its SELL entry, and the
    final capital of the summary is the initial capital with the realized
    PnLs of the log added to it one after another. *)
Theorem end_of_data_settlement (data : MarketData.t) (e1 : TradingEngine.t) :
  TradingEngine.loop (MarketData.candles data)
                     (TradingEngine.start (TradingEngine.new data)) = Ok e1 ->
  exists e' : TradingEngine.t,
  TradingEngine.run (TradingEngine.new data) = Ok e' /\
  (if Position.is_open (TradingEngine.position_ e1) then
     let c := last (MarketData.candles data) Candle.default in
     MarketData.candles data <> [] /\
     e' = TradingEngine.closePosition c "End of Market Data" e1 /\
     TradingEngine.trade_log_ e' = TradingEngine.trade_log_ e1 ++ [exit_trade c e1] /\
     Trade.type (exit_trade c e1) = EXIT /\
     Trade.price (exit_trade c e1) = Candle.close c /\
     RiskManager.getCurrentCapital (TradingEngine.risk_manager_ e') =
       (RiskManager.getCurrentCapital (TradingEngine.risk_manager_ e1)
        + Trade.pnl (exit_trade c e1))%float
   else e' = e1) /\
  Position.is_open (TradingEngine.position_ e') = false /\
  exits_settled (TradingEngine.trade_log_ e') /\
  sum_initial_capital (printSummary e') = MarketData.capital data /\
  sum_final_capital (printSummary e') =
    accumulate (MarketData.capital data) (realized_pnls (TradingEngine.trade_log_ e')) /\
  sum_trade_log (printSummary e') = TradingEngine.trade_log_ e'.
Proof.
  intros Hloop.
  assert (Hex : exists e', TradingEngine.run (TradingEngine.new data) = Ok e').
  { unfold TradingEngine.run. cbn [TradingEngine.new TradingEngine.market_data_].
    fold (TradingEngine.new data). rewrite Hloop. cbn [bind]. eexists. reflexivity. }
  destruct Hex as (e' & Hrun). exists e'. split; [exact Hrun|].
  pose proof (Reachable_Inv _ _ (Reachable_run _ _ Hrun)) as HI.
  unfold TradingEngine.run in Hrun. cbn [TradingEngine.new TradingEngine.market_data_] in Hrun.
  fold (TradingEngine.new data) in Hrun. rewrite Hloop in Hrun. cbn [bind] in Hrun.
  injection Hrun as Hrun.
  assert (Hfirst :
    if Position.is_open (TradingEngine.position_ e1) then
      MarketData.candles data <> [] /\
      e' = TradingEngine.closePosition
             (last (MarketData.candles data) Candle.default) "End of Market Data" e1
    else e' = e1).
  { destruct (Position.is_open (TradingEngine.position_ e1)) eqn:Eo; [|auto].
    destruct (MarketData.candles data) as [|c rest] eqn:Ec.
    - rewrite (loop_nil_closed _ _ Hloop) in Eo. discriminate.
    - split; [discriminate|]. rewrite last_cons_default. auto. }
  clear Hrun.
  assert (Hclosed : Position.is_open (TradingEngine.position_ e') = false).
  { destruct (Position.is_open (TradingEngine.position_ e1)) eqn:Eo.
    - destruct Hfirst as (_ & ->). apply closePosition_open, Eo.
    - subst e'. exact Eo. }
  split.
  { destruct (Position.is_open (TradingEngine.position_ e1)) eqn:Eo; [|exact Hfirst].
    destruct Hfirst as (Hne & He). cbv zeta.
    destruct (closePosition_open (last (MarketData.candles data) Candle.default)
                "End of Market Data" e1 Eo) as (H1 & _ & _ & _ & H5).
    rewrite <- He in H1, H5.
    repeat split; auto. rewrite H5. reflexivity. }
  split; [exact Hclosed|].
  destruct HI as [(pending & HB & HH) Hc Hi _ _ _ _].
  split; [eapply Book_exits_settled; exact HB|].
  unfold printSummary, RiskManager.getInitialCapital, RiskManager.getCurrentCapital.
  cbn. auto.
Qed.

(* ------------------------------------------------------------------ *)
(** ** The per-candle step *)

Lemma checkExitConditions_spec (c : Candle.t) (e e2 : TradingEngine.t) :
  TradingEngine.checkExitConditions c e = Ok e2 ->
  exists r,
    first_exit_condition c e = Ok r /\
    match r with
    | None => e2 = e
    | Some reason =>
        Position.is_open (TradingEngine.position_ e) = true /\
        e2 = (match reason with
              | MarketClose => TradingEngine.set_session_active false
              | _ => fun x => x
              end) (TradingEngine.closePosition c (reason_text reason) e)
    end.
Proof.
  unfold TradingEngine.checkExitConditions, first_exit_condition.
  destruct (Position.is_open (TradingEngine.position_ e)) eqn:Eo; cbn [negb].
  - destruct (RiskManager.isStopLossHit _ _).
    { intros [= <-]. exists (Some StopLoss). auto. }
    destruct (RiskManager.isTakeProfitHit _ _).
    { intros [= <-]. exists (Some TakeProfit). auto. }
    intros H. apply bind_Ok in H. destruct H as (past & -> & H). cbn [bind].
    destruct past; injection H as <-; eexists; split; try reflexivity; cbn; auto.
  - intros [= <-]. exists None. auto.
Qed.

Lemma stoi_two_digits (a b : nat) :
  (a < 10)%nat -> (b < 10)%nat ->
  stoi (String (digit_char a) (String (digit_char b) EmptyString))
  = Ok (Z.of_nat (10 * a + b)).
Proof.
  intros Ha Hb.
  do 10 (destruct a as [|a]; [do 10 (destruct b as [|b]; [reflexivity|]); lia|]).
  lia.
Qed.

Lemma parseTimeToMinutes_format (h m : nat) :
  (h < 100)%nat -> (m < 100)%nat ->
  TradingEngine.parseTimeToMinutes (format_time h m) = Ok (Z.of_nat (60 * h + m)).
Proof.
  intros Hh Hm. unfold TradingEngine.parseTimeToMinutes, format_time, substr.
  cbn [String.length Nat.ltb Nat.leb substring bind].
  assert (Hd : forall n, (n < 100)%nat -> (n / 10 < 10)%nat /\ (n mod 10 < 10)%nat).
  { intros n Hn. split; [apply Nat.Div0.div_lt_upper_bound; lia|apply Nat.mod_upper_bound; lia]. }
  destruct (Hd h Hh) as (H1 & H2). destruct (Hd m Hm) as (H3 & H4).
  rewrite (stoi_two_digits _ _ H1 H2). cbn [bind].
  rewrite (stoi_two_digits _ _ H3 H4). cbn [bind].
  f_equal.
  pose proof (Nat.div_mod_eq h 10). pose proof (Nat.div_mod_eq m 10). lia.
Qed.

Lemma static_cast_int_fail (d : float) (f : failure) :
  static_cast_int d = Fail f -> f = undefined_behaviour.
Proof.
  unfold static_cast_int. destruct (trunc_float d) as [z|]; [|congruence].
  destruct (in_int_range z); congruence.
Qed.

Lemma executeSellOrder_fail (c : Candle.t) (e : TradingEngine.t) (f : failure) :
  TradingEngine.executeSellOrder c e = Fail f -> f = undefined_behaviour.
Proof.
  unfold TradingEngine.executeSellOrder, RiskManager.calculatePositionSize.
  destruct (negb _); [discriminate|].
  destruct (Position.is_open _); [discriminate|].
  destruct (Candle.close c <=? 0)%float; cbn [bind].
  - discriminate.
  - destruct (static_cast_int _) as [q|f'] eqn:E; cbn [bind].
    + destruct (q <=? 0); discriminate.
    + intros [= <-]. apply (static_cast_int_fail _ _ E).
Qed.

Lemma checkExitConditions_total (c : Candle.t) (e : TradingEngine.t) (h m : nat) :
  Candle.timestamp c = format_time h m -> (h < 100)%nat -> (m < 100)%nat ->
  exists e2, TradingEngine.checkExitConditions c e = Ok e2.
Proof.
  intros Ht Hh Hm. unfold TradingEngine.checkExitConditions.
  destruct (negb _); [eauto|].
  destruct (RiskManager.isStopLossHit _ _); [eauto|].
  destruct (RiskManager.isTakeProfitHit _ _); [eauto|].
  unfold TradingEngine.isPastMarketClose.
  rewrite Ht, parseTimeToMinutes_format by assumption. cbn [bind].
  change (TradingEngine.parseTimeToMinutes TradingEngine.MARKET_CLOSE_TIME) with (Ok 900).
  cbn [bind]. destruct (_ >=? _); eauto.
Qed.

Lemma processOne_total (c : Candle.t) (e : TradingEngine.t) (h m : nat) :
  Candle.timestamp c = format_time h m -> (h < 100)%nat -> (m < 100)%nat ->
  (exists e', TradingEngine.processOne c e = Ok e') \/
  TradingEngine.processOne c e = Fail undefined_behaviour.
Proof.
  intros Ht Hh Hm. unfold TradingEngine.processOne.
  destruct (TwoCandelPatternStrategy.processCandle c (TradingEngine.strategy_ e))
    as [s signal].
  set (e1 := if TwoCandelPatternStrategy.isEMA5Ready _ then _ else _).
  destruct (checkExitConditions_total c e1 h m Ht Hh Hm) as (e2 & ->). cbn [bind].
  destruct (signal && TradingEngine.session_active_ e2); cbn [bind]; [|eauto].
  destruct (TradingEngine.executeSellOrder c _) as [e3|f] eqn:E; cbn [bind]; [eauto|].
  right. rewrite (executeSellOrder_fail _ _ _ E). reflexivity.
Qed.

Lemma processOne_steps (c : Candle.t) (e e' : TradingEngine.t) :
  TradingEngine.processOne c e = Ok e' ->
  let s := fst (TwoCandelPatternStrategy.processCandle c (TradingEngine.strategy_ e)) in
  let signal := snd (TwoCandelPatternStrategy.processCandle c (TradingEngine.strategy_ e)) in
  exists e1 e2 e3 : TradingEngine.t,
    (TradingEngine.strategy_ e1 = s /\
     TradingEngine.position_ e1 = TradingEngine.position_ e /\
     TradingEngine.risk_manager_ e1 = TradingEngine.risk_manager_ e /\
     TradingEngine.trade_log_ e1 = TradingEngine.trade_log_ e /\
     TradingEngine.session_active_ e1 = TradingEngine.session_active_ e) /\
    TradingEngine.checkExitConditions c e1 = Ok e2 /\
    (if signal && TradingEngine.session_active_ e2
     then TradingEngine.executeSellOrder c (TradingEngine.emit LogSignal e2) = Ok e3
     else e3 = e2) /\
    (TradingEngine.strategy_ e' = TradingEngine.strategy_ e3 /\
     TradingEngine.trade_log_ e' = TradingEngine.trade_log_ e3 /\
     TradingEngine.position_ e' = TradingEngine.position_ e3 /\
     TradingEngine.risk_manager_ e' = TradingEngine.risk_manager_ e3 /\
     TradingEngine.session_active_ e' = TradingEngine.session_active_ e3).
Proof.
  intros H. cbv zeta. unfold TradingEngine.processOne in H.
  destruct (TwoCandelPatternStrategy.processCandle c (TradingEngine.strategy_ e))
    as [s signal]. cbn [fst snd].
  set (e1 := if TwoCandelPatternStrategy.isEMA5Ready _ then _ else _) in H.
  apply bind_Ok in H. destruct H as (e2 & Hx & H).
  apply bind_Ok in H. destruct H as (e3 & Hn & H).
  exists e1, e2, e3. split; [|split; [exact Hx|split]].
  - subst e1. destruct (TwoCandelPatternStrategy.isEMA5Ready _); cbn; auto.
  - destruct (signal && TradingEngine.session_active_ e2); [exact Hn|congruence].
  - destruct (Position.is_open (TradingEngine.position_ e3)); injection H as <-; cbn; auto.
Qed.

(** C2.  One candle of the loop.  On a candle stamped "HH:MM" the step
    completes, unless the size of a new position does not fit an int.  The
    detector is fed first, whatever follows; then, on the book as the
    previous candle left it, the first of stop-loss, take-profit and
    market-close that matches closes the open position at the candle's close
    price, appending one EXIT record and adding its PnL, the unrealized PnL
    of the position at that close, to the capital: the capital after the
    exit is the capital before it plus that PnL (the market close also ends
    the session); only then is a true signal handed to [executeSellOrder],
    on the state the exit left, which leaves the capital as the exit made
    it, so that the log grows by at most one EXIT followed by at most one
    ENTRY. *)
Theorem exit_before_entry (c : Candle.t) (e : TradingEngine.t) :
  (forall h m,
     Candle.timestamp c = format_time h m -> (h < 100)%nat -> (m < 100)%nat ->
     (exists e', TradingEngine.processOne c e = Ok e') \/
     TradingEngine.processOne c e = Fail undefined_behaviour) /\
  forall e' : TradingEngine.t,
  TradingEngine.processOne c e = Ok e' ->
  let s := fst (TwoCandelPatternStrategy.processCandle c (TradingEngine.strategy_ e)) in
  let signal := snd (TwoCandelPatternStrategy.processCandle c (TradingEngine.strategy_ e)) in
  exists (r : option ExitReason) (e2 e3 : TradingEngine.t),
    TradingEngine.strategy_ e' = s /\
    first_exit_condition c e = Ok r /\
    match r with
    | Some reason =>
        Position.is_open (TradingEngine.position_ e) = true /\
        TradingEngine.trade_log_ e2 = TradingEngine.trade_log_ e ++ [exit_trade c e] /\
        Trade.type (exit_trade c e) = EXIT /\
        Trade.price (exit_trade c e) = Candle.close c /\
        Position.is_open (TradingEngine.position_ e2) = false /\
        TradingEngine.risk_manager_ e2 =
          RiskManager.updateCapital (Trade.pnl (exit_trade c e))
                                    (TradingEngine.risk_manager_ e) /\
        RiskManager.getCurrentCapital (TradingEngine.risk_manager_ e2) =
          (RiskManager.getCurrentCapital (TradingEngine.risk_manager_ e)
           + Trade.pnl (exit_trade c e))%float /\
        Trade.pnl (exit_trade c e) =
          Position.getUnrealizedPnL (Candle.close c) (TradingEngine.position_ e) /\
        In (LogExit (exit_trade c e) (reason_text reason)) (TradingEngine.console_ e2)
    | None =>
        TradingEngine.trade_log_ e2 = TradingEngine.trade_log_ e /\
        TradingEngine.position_ e2 = TradingEngine.position_ e /\
        TradingEngine.risk_manager_ e2 = TradingEngine.risk_manager_ e
    end /\
    TradingEngine.session_active_ e2 =
      match r with
      | Some MarketClose => false
      | _ => TradingEngine.session_active_ e
      end /\
    (if signal && TradingEngine.session_active_ e2
     then TradingEngine.executeSellOrder c (TradingEngine.emit LogSignal e2) = Ok e3
     else e3 = e2) /\
    TradingEngine.trade_log_ e' = TradingEngine.trade_log_ e3 /\
    TradingEngine.position_ e' = TradingEngine.position_ e3 /\
    TradingEngine.risk_manager_ e' = TradingEngine.risk_manager_ e3 /\
    TradingEngine.session_active_ e' = TradingEngine.session_active_ e3 /\
    RiskManager.getCurrentCapital (TradingEngine.risk_manager_ e') =
      RiskManager.getCurrentCapital (TradingEngine.risk_manager_ e2) /\
    exists entries,
      TradingEngine.trade_log_ e' = TradingEngine.trade_log_ e2 ++ entries /\
      (entries = [] \/
       exists en, entries = [en] /\ Trade.type en = ENTRY /\
                  signal = true /\ TradingEngine.session_active_ e2 = true).
Proof.
  split; [apply processOne_total|].
  intros e' H. cbv zeta.
  destruct (processOne_steps c e e' H)
    as (e1 & e2 & e3 & (Hs1 & Hp1 & Hr1 & Hl1 & Ha1) & Hx & Hn & (Hs' & Hl' & Hp' & Hr' & Ha')).
  cbv zeta in Hs1, Hn.
  set (s := fst (TwoCandelPatternStrategy.processCandle c (TradingEngine.strategy_ e))) in *.
  set (signal := snd (TwoCandelPatternStrategy.processCandle c (TradingEngine.strategy_ e)))
    in *.
  clearbody s signal.
  apply checkExitConditions_spec in Hx. destruct Hx as (r & Hr & Hx).
  assert (Hfe : first_exit_condition c e = Ok r).
  { rewrite <- Hr. unfold first_exit_condition. rewrite Hp1, Hr1. reflexivity. }
  assert (Hxt : exit_trade c e1 = exit_trade c e).
  { unfold exit_trade. rewrite Hp1. reflexivity. }
  assert (H23 :
    TradingEngine.strategy_ e3 = TradingEngine.strategy_ e2 /\
    exists entries,
      TradingEngine.trade_log_ e3 = TradingEngine.trade_log_ e2 ++ entries /\
      (entries = [] \/
       exists en, entries = [en] /\ Trade.type en = ENTRY /\
                  signal = true /\ TradingEngine.session_active_ e2 = true)).
  { destruct (signal && TradingEngine.session_active_ e2) eqn:Eg.
    - apply andb_true_iff in Eg. destruct Eg as (-> & Eg).
      apply executeSellOrder_cases in Hn. cbn in Hn.
      destruct Hn as (Hs3 & _ & [(Hl3 & _)|(en & Hl3 & Hen & _)]).
      + split; [exact Hs3|]. exists []. rewrite app_nil_r. auto.
      + split; [exact Hs3|]. exists [en]. split; [exact Hl3|]. right.
        exists en. rewrite Hen. cbn. auto.
    - subst e3. split; [reflexivity|]. exists []. rewrite app_nil_r. auto. }
  destruct H23 as (Hs3 & entries & Hent & Hcases).
  assert (Hc' : RiskManager.getCurrentCapital (TradingEngine.risk_manager_ e') =
                RiskManager.getCurrentCapital (TradingEngine.risk_manager_ e2)).
  { rewrite Hr'. destruct (signal && TradingEngine.session_active_ e2);
      [|subst e3; reflexivity].
    apply executeSellOrder_cases in Hn. cbn in Hn.
    destruct Hn as (_ & _ & [(_ & _ & ->)|(en & _ & _ & _ & _ & _ & _ & _ & ->)]);
      reflexivity. }
  assert (Hs2 : TradingEngine.strategy_ e2 = s /\
                TradingEngine.session_active_ e2 =
                  match r with
                  | Some MarketClose => false
                  | _ => TradingEngine.session_active_ e
                  end).
  { destruct r as [reason|].
    - destruct Hx as (Ho & ->).
      destruct (closePosition_open c (reason_text reason) e1 Ho) as (_ & _ & Hsa & Hst & _).
      destruct reason; cbv beta iota;
        cbn [TradingEngine.set_session_active TradingEngine.strategy_
             TradingEngine.session_active_];
        rewrite ?Hsa, ?Hst; auto.
    - subst e2. auto. }
  destruct Hs2 as (Hs2 & Ha2).
  exists r, e2, e3.
  split; [congruence|]. split; [exact Hfe|].
  split.
  { destruct r as [reason|].
    - destruct Hx as (Ho & ->).
      destruct (closePosition_open c (reason_text reason) e1 Ho) as (Hl & Hc & _ & _ & Hrm).
      rewrite Hxt, Hl1 in Hl. rewrite Hxt, Hr1 in Hrm.
      assert (Hcap : RiskManager.getCurrentCapital
                       (TradingEngine.risk_manager_
                          (TradingEngine.closePosition c (reason_text reason) e1)) =
                     (RiskManager.getCurrentCapital (TradingEngine.risk_manager_ e)
                      + Trade.pnl (exit_trade c e))%float)
        by (rewrite Hrm; reflexivity).
      assert (Hcons : In (LogExit (exit_trade c e) (reason_text reason))
                (TradingEngine.console_
                   (TradingEngine.closePosition c (reason_text reason) e1))).
      { unfold TradingEngine.closePosition. rewrite Ho. cbn.
        apply in_or_app. right. left. fold (exit_trade c e1). rewrite Hxt. reflexivity. }
      rewrite <- Hp1.
      destruct reason; cbv beta iota;
        cbn [TradingEngine.set_session_active TradingEngine.trade_log_
             TradingEngine.position_ TradingEngine.risk_manager_
             TradingEngine.console_];
        repeat split; auto; rewrite Hp1; reflexivity.
    - subst e2. auto. }
  split; [exact Ha2|].
  split; [exact Hn|].
  repeat (split; [assumption|]).
  exists entries. rewrite Hl'. auto.
Qed.

(* ------------------------------------------------------------------ *)
(** ** The end of the session *)

Lemma loop_ended (cs : list Candle.t) (e : TradingEngine.t) :
  TradingEngine.session_active_ e = false -> TradingEngine.loop cs e = Ok e.
Proof. intros H. destruct cs as [|c cs]; simpl; [reflexivity|]. rewrite H. reflexivity. Qed.

Lemma processOne_session (c : Candle.t) (e e' : TradingEngine.t) :
  TradingEngine.processOne c e = Ok e' ->
  exists r,
    first_exit_condition c e = Ok r /\
    TradingEngine.session_active_ e' =
      match r with
      | Some MarketClose => false
      | _ => TradingEngine.session_active_ e
      end /\
    (r = Some MarketClose -> Position.is_open (TradingEngine.position_ e') = false).
Proof.
  intros H.
  destruct (processOne_steps c e e' H)
    as (e1 & e2 & e3 & (_ & Hp1 & Hr1 & _ & Ha1) & Hx & Hn & (_ & _ & Hp' & _ & Ha')).
  cbv zeta in Hn.
  apply checkExitConditions_spec in Hx. destruct Hx as (r & Hr & Hx).
  exists r. split.
  { rewrite <- Hr. unfold first_exit_condition. rewrite Hp1, Hr1. reflexivity. }
  assert (H3 : TradingEngine.session_active_ e3 = TradingEngine.session_active_ e2 /\
               (TradingEngine.session_active_ e2 = false ->
                TradingEngine.position_ e3 = TradingEngine.position_ e2)).
  { destruct (snd _ && TradingEngine.session_active_ e2) eqn:Eg.
    - apply andb_true_iff in Eg. destruct Eg as (_ & Eg).
      apply executeSellOrder_cases in Hn. cbn in Hn.
      destruct Hn as (_ & -> & _). split; [reflexivity|congruence].
    - subst e3. auto. }
  destruct H3 as (H3 & H3').
  destruct r as [reason|].
  - destruct Hx as (Ho & ->).
    destruct (closePosition_open c (reason_text reason) e1 Ho) as (_ & Hc & Hsa & _).
    destruct reason; cbv beta iota in *;
      cbn [TradingEngine.set_session_active TradingEngine.session_active_
           TradingEngine.position_] in *.
    + split; [congruence|discriminate].
    + split; [congruence|discriminate].
    + split; [congruence|]. intros _. rewrite Hp', H3' by reflexivity. exact Hc.
  - subst e2. split; [congruence|discriminate].
Qed.

Lemma loop_ended_closed (cs : list Candle.t) (e e1 : TradingEngine.t) :
  (TradingEngine.session_active_ e = false ->
   Position.is_open (TradingEngine.position_ e) = false) ->
  TradingEngine.loop cs e = Ok e1 ->
  TradingEngine.session_active_ e1 = false ->
  Position.is_open (TradingEngine.position_ e1) = false.
Proof.
  revert e. induction cs as [|c cs IH]; intros e He; simpl.
  - intros [= <-]. exact He.
  - destruct (TradingEngine.session_active_ e) eqn:Ea; cbn [negb];
      [|intros [= <-] _; apply He; reflexivity].
    intros H. apply bind_Ok in H. destruct H as (e' & H' & H).
    apply (IH e'); [|exact H].
    destruct (processOne_session _ _ _ H') as (r & _ & Hs & Hc).
    destruct r as [[| |]|]; rewrite ?Ea in Hs; try congruence. auto.
Qed.

(** C3, as the code has it.  A candle ends the session exactly when the
    market-close exit is the one that fires on it: a position is open,
    neither the stop-loss nor the take-profit test holds, and the candle's
    time is at or past 15:00, that is 900 minutes since midnight; once ended,
    the loop processes no further candle and [run] changes nothing more. *)
Theorem session_ends_on_market_close_exit :
  (forall c e e',
     TradingEngine.processOne c e = Ok e' ->
     TradingEngine.session_active_ e = true ->
     (TradingEngine.session_active_ e' = false <->
      first_exit_condition c e = Ok (Some MarketClose))) /\
  (forall c e,
     first_exit_condition c e = Ok (Some MarketClose) <->
     let u := Position.getUnrealizedPnL (Candle.close c) (TradingEngine.position_ e) in
     Position.is_open (TradingEngine.position_ e) = true /\
     RiskManager.isStopLossHit u (TradingEngine.risk_manager_ e) = false /\
     RiskManager.isTakeProfitHit u (TradingEngine.risk_manager_ e) = false /\
     TradingEngine.isPastMarketClose (Candle.timestamp c) = Ok true) /\
  (forall h m,
     (h < 24)%nat -> (m < 60)%nat ->
     TradingEngine.isPastMarketClose (format_time h m)
     = Ok (Z.of_nat (60 * h + m) >=? 900)) /\
  (forall cs e,
     TradingEngine.session_active_ e = false -> TradingEngine.loop cs e = Ok e) /\
  (forall data e1,
     TradingEngine.loop (MarketData.candles data)
                        (TradingEngine.start (TradingEngine.new data)) = Ok e1 ->
     TradingEngine.session_active_ e1 = false ->
     TradingEngine.run (TradingEngine.new data) = Ok e1).
Proof.
  split; [|split; [|split; [|split]]].
  - intros c e e' H Ha.
    destruct (processOne_session _ _ _ H) as (r & Hr & Hs & _).
    rewrite Hr, Hs, Ha.
    destruct r as [[| |]|]; split; congruence.
  - intros c e. unfold first_exit_condition. cbv zeta.
    destruct (Position.is_open (TradingEngine.position_ e)).
    + destruct (RiskManager.isStopLossHit _ _); [split; [discriminate|intuition discriminate]|].
      destruct (RiskManager.isTakeProfitHit _ _); [split; [discriminate|intuition discriminate]|].
      destruct (TradingEngine.isPastMarketClose (Candle.timestamp c)) as [[|]|f]; cbn;
        split; try discriminate; intuition congruence.
    + split; [discriminate|intuition discriminate].
  - intros h m Hh Hm. unfold TradingEngine.isPastMarketClose.
    rewrite parseTimeToMinutes_format by lia. reflexivity.
  - apply loop_ended.
  - intros data e1 Hloop Ha. unfold TradingEngine.run.
    cbn [TradingEngine.new TradingEngine.market_data_]. fold (TradingEngine.new data).
    rewrite Hloop. cbn [bind].
    rewrite (loop_ended_closed _ (TradingEngine.start (TradingEngine.new data)) _
               (fun _ => eq_refl) Hloop Ha).
    reflexivity.
Qed.

(** C3 as stated fails: the first candle of [late_session] is stamped 15:05,
    past the market close, yet the session stays active after it, and the run
    goes on to open a position at 15:10. *)
Lemma session_active_after_market_close :
  let c := Candle.mk "15:05" 104 105 103.5 103 in
  let e := TradingEngine.start (TradingEngine.new late_session) in
  TradingEngine.isPastMarketClose (Candle.timestamp c) = Ok true /\
  (exists e', TradingEngine.processOne c e = Ok e' /\
              TradingEngine.session_active_ e' = true) /\
  (exists e', TradingEngine.run (TradingEngine.new late_session) = Ok e' /\
              map (fun t => (Trade.timestamp t, Trade.type t)) (TradingEngine.trade_log_ e')
              = [("15:10"%string, ENTRY); ("15:15"%string, EXIT)]).
Proof.
  cbv zeta. split; [vm_compute; reflexivity|].
  split; eexists; (split; [vm_compute; reflexivity|vm_compute; reflexivity]).
Qed.

(* ------------------------------------------------------------------ *)
(** ** Determinism *)

Lemma closePosition_rebase (d : MarketData.t) (c : Candle.t) (reason : string)
      (e : TradingEngine.t) :
  TradingEngine.closePosition c reason (rebase d e)
  = rebase d (TradingEngine.closePosition c reason e).
Proof.
  unfold TradingEngine.closePosition. cbn.
  destruct (Position.is_open (TradingEngine.position_ e)); reflexivity.
Qed.

Lemma checkExitConditions_rebase (d : MarketData.t) (c : Candle.t) (e : TradingEngine.t) :
  TradingEngine.checkExitConditions c (rebase d e)
  = lift_rebase d (TradingEngine.checkExitConditions c e).
Proof.
  unfold TradingEngine.checkExitConditions, lift_rebase.
  cbn [rebase TradingEngine.position_ TradingEngine.risk_manager_].
  destruct (negb _); [reflexivity|].
  destruct (RiskManager.isStopLossHit _ _); [rewrite closePosition_rebase; reflexivity|].
  destruct (RiskManager.isTakeProfitHit _ _); [rewrite closePosition_rebase; reflexivity|].
  destruct (TradingEngine.isPastMarketClose _) as [[|]|f]; cbn [bind];
    rewrite ?closePosition_rebase; reflexivity.
Qed.

Lemma executeSellOrder_rebase (d : MarketData.t) (c : Candle.t) (e : TradingEngine.t) :
  TradingEngine.executeSellOrder c (rebase d e)
  = lift_rebase d (TradingEngine.executeSellOrder c e).
Proof.
  unfold TradingEngine.executeSellOrder, lift_rebase.
  cbn [rebase TradingEngine.position_ TradingEngine.risk_manager_].
  destruct (negb _); [reflexivity|].
  destruct (Position.is_open _); [reflexivity|].
  destruct (RiskManager.calculatePositionSize _ _) as [q|f]; cbn [bind]; [|reflexivity].
  destruct (q <=? 0); reflexivity.
Qed.

Lemma processOne_rebase (d : MarketData.t) (c : Candle.t) (e : TradingEngine.t) :
  TradingEngine.processOne c (rebase d e) = lift_rebase d (TradingEngine.processOne c e).
Proof.
  unfold TradingEngine.processOne, lift_rebase.
  cbn [rebase TradingEngine.strategy_].
  destruct (TwoCandelPatternStrategy.processCandle c (TradingEngine.strategy_ e))
    as [s signal].
  set (e1 := if TwoCandelPatternStrategy.isEMA5Ready
                  (TradingEngine.strategy_ (TradingEngine.set_strategy s e)) then _ else _).
  match goal with
  | |- bind (TradingEngine.checkExitConditions c ?x) _ = _ =>
      replace x with (rebase d e1)
        by (subst e1; cbn; destruct (TwoCandelPatternStrategy.isEMA5Ready s); reflexivity)
  end.
  rewrite checkExitConditions_rebase. unfold lift_rebase.
  destruct (TradingEngine.checkExitConditions c e1) as [e2|f]; cbn [bind]; [|reflexivity].
  cbn [rebase TradingEngine.session_active_].
  destruct (signal && TradingEngine.session_active_ e2); cbn [bind].
  - change (TradingEngine.emit LogSignal (rebase d e2))
      with (rebase d (TradingEngine.emit LogSignal e2)).
    rewrite executeSellOrder_rebase. unfold lift_rebase.
    destruct (TradingEngine.executeSellOrder c _) as [e3|f]; cbn [bind]; [|reflexivity].
    cbn [rebase TradingEngine.position_].
    destruct (Position.is_open (TradingEngine.position_ e3)); reflexivity.
  - cbn [rebase TradingEngine.position_].
    destruct (Position.is_open (TradingEngine.position_ e2)); reflexivity.
Qed.

Lemma loop_rebase (d : MarketData.t) (cs : list Candle.t) (e : TradingEngine.t) :
  TradingEngine.loop cs (rebase d e) = lift_rebase d (TradingEngine.loop cs e).
Proof.
  revert e. induction cs as [|c cs IH]; intros e; [reflexivity|].
  cbn [TradingEngine.loop]. cbn [rebase TradingEngine.session_active_].
  destruct (negb (TradingEngine.session_active_ e)); [reflexivity|].
  rewrite processOne_rebase. unfold lift_rebase at 1.
  destruct (TradingEngine.processOne c e) as [e1|f]; cbn [bind]; [apply IH|reflexivity].
Qed.

Lemma run_rebase (d1 d2 : MarketData.t) :
  MarketData.candles d1 = MarketData.candles d2 ->
  MarketData.previous_day_close d1 = MarketData.previous_day_close d2 ->
  MarketData.capital d1 = MarketData.capital d2 ->
  TradingEngine.run (TradingEngine.new d1)
  = lift_rebase d1 (TradingEngine.run (TradingEngine.new d2)).
Proof.
  intros Hc Hp Hk. unfold TradingEngine.run.
  cbn [TradingEngine.new TradingEngine.market_data_].
  fold (TradingEngine.new d1). fold (TradingEngine.new d2).
  replace (TradingEngine.start (TradingEngine.new d1))
    with (rebase d1 (TradingEngine.start (TradingEngine.new d2)))
    by (unfold TradingEngine.start, TradingEngine.new; cbn; rewrite Hp, Hk; reflexivity).
  rewrite Hc, loop_rebase. unfold lift_rebase.
  destruct (TradingEngine.loop _ _) as [e|f]; cbn [bind]; [|reflexivity].
  cbn [rebase TradingEngine.position_].
  destruct (Position.is_open (TradingEngine.position_ e)); [|reflexivity].
  destruct (MarketData.candles d2); [reflexivity|].
  rewrite closePosition_rebase. reflexivity.
Qed.

(** C9.  Two simulations on fresh engines whose data have the same candles,
    previous-day close and capital end alike: one fails exactly when the
    other does, with the same failure, and when they complete they leave the
    same trade log, the same console events and the same summary up to the
    instrument name copied from the input; with the same instrument name the
    two results are identical. *)
Theorem simulation_deterministic (d1 d2 : MarketData.t) :
  MarketData.candles d1 = MarketData.candles d2 ->
  MarketData.previous_day_close d1 = MarketData.previous_day_close d2 ->
  MarketData.capital d1 = MarketData.capital d2 ->
  (forall f,
     TradingEngine.run (TradingEngine.new d1) = Fail f <->
     TradingEngine.run (TradingEngine.new d2) = Fail f) /\
  (forall e1 e2,
     TradingEngine.run (TradingEngine.new d1) = Ok e1 ->
     TradingEngine.run (TradingEngine.new d2) = Ok e2 ->
     TradingEngine.trade_log_ e1 = TradingEngine.trade_log_ e2 /\
     TradingEngine.console_ e1 = TradingEngine.console_ e2 /\
     printSummary e1 = with_instrument (MarketData.instrument d1) (printSummary e2)) /\
  (MarketData.instrument d1 = MarketData.instrument d2 ->
   simulateLiveDataFeed d1 = simulateLiveDataFeed d2).
Proof.
  intros Hc Hp Hk. pose proof (run_rebase d1 d2 Hc Hp Hk) as H.
  unfold lift_rebase in H. split; [|split].
  - intros f. rewrite H.
    destruct (TradingEngine.run (TradingEngine.new d2)) as [e2|f2]; cbn [bind];
      split; congruence.
  - intros e1 e2 H1 H2. rewrite H2 in H. cbn [bind] in H.
    rewrite H1 in H. injection H as ->. repeat split; reflexivity.
  - intros Hi. replace d1 with d2; [reflexivity|].
    destruct d1, d2; cbn in *; congruence.
Qed.

(* ------------------------------------------------------------------ *)
(** ** Position sizing: division and truncation of doubles *)

Lemma new_location_locr (D r : Z) :
  0 < D -> 0 <= r < D -> new_location D r = locr r D.
Proof.
  intros HD Hr. unfold new_location, new_location_even, new_location_odd, locr.
  destruct (Z.even D) eqn:Ev; [reflexivity|].
  destruct (r =? 0); [reflexivity|]. f_equal.
  assert (Ho : Z.odd D = true) by (rewrite <- Z.negb_even, Ev; reflexivity).
  apply Z.odd_spec in Ho. destruct Ho as [k Hk].
  destruct (2 * r + 1 ?= D) eqn:E1; destruct (2 * r ?= D) eqn:E2;
    try reflexivity;
    rewrite ?Z.compare_eq_iff, ?Z.compare_lt_iff, ?Z.compare_gt_iff in *; lia.
Qed.

Lemma Rep_of_loc (N D : Z) :
  Rep N D (shr_record_of_loc (N / D) (locr (N mod D) D)).
Proof.
  unfold Rep. destruct (locr (N mod D) D) as [|[| |]]; simpl; auto.
Qed.

Lemma Rep_shr_1 (N D : Z) (r : shr_record) :
  0 <= N -> 0 < D -> Rep N D r -> Rep N (2 * D) (shr_1 r).
Proof.
  intros HN HD [Hm Hl].
  assert (Hq : 0 <= N / D) by (apply Z.div_pos; lia).
  pose proof (Z.mod_pos_bound N D HD) as Hr.
  assert (Hdiv : N / (2 * D) = (N / D) / 2).
  { rewrite (Z.mul_comm 2 D), Z.div_div by lia. reflexivity. }
  assert (Hmod : N mod (2 * D) = N mod D + D * ((N / D) mod 2)).
  { rewrite (Z.mul_comm 2 D). apply Z.rem_mul_r; lia. }
  pose proof (Z.div_mod (N / D) 2 ltac:(lia)) as Hdm.
  pose proof (Z.mod_pos_bound (N / D) 2 ltac:(lia)) as Hb.
  destruct r as [m rb sb]. simpl in Hm. subst m.
  unfold Rep. rewrite Hdiv, Hmod.
  assert (Hshape :
    shr_1 {| shr_m := N / D; shr_r := rb; shr_s := sb |} =
    {| shr_m := N / D / 2; shr_r := Z.odd (N / D); shr_s := rb || sb |}).
  { destruct (N / D) as [|[p|p|]|p]; try reflexivity; try lia.
    - simpl shr_1. f_equal. rewrite Pos2Z.inj_xI.
      apply Z.div_unique with (r := 1); lia.
    - simpl shr_1. f_equal. rewrite Pos2Z.inj_xO.
      apply Z.div_unique with (r := 0); lia. }
  rewrite Hshape. simpl shr_m. split; [reflexivity|].
  assert (Hnz : (rb || sb = true) <-> N mod D <> 0).
  { unfold locr in Hl. simpl in Hl.
    destruct (N mod D =? 0) eqn:E0.
    - apply Z.eqb_eq in E0. destruct rb, sb; simpl in *; try discriminate.
      split; [discriminate|lia].
    - apply Z.eqb_neq in E0. destruct rb, sb; simpl in *; try discriminate;
        split; auto. }
  rewrite Zmod_odd. unfold locr.
  clear Hl Hdm Hb Hmod Hdiv Hshape. revert Hr Hnz. generalize (N mod D) as rho.
  intros rho Hr Hnz.
  assert (Hcases : (rb || sb = true /\ rho <> 0) \/ (rb || sb = false /\ rho = 0)).
  { destruct (rb || sb); [left; split; [reflexivity|apply Hnz; reflexivity]|right].
    split; [reflexivity|]. destruct (Z.eq_dec rho 0) as [H0|H0]; [exact H0|].
    apply Hnz in H0. discriminate. }
  destruct (Z.odd (N / D)), Hcases as [[-> H0]|[-> ->]]; cbn [loc_of_shr_record].
  - replace (rho + D * 1 =? 0) with false by (symmetry; apply Z.eqb_neq; lia).
    f_equal. symmetry. apply Z.compare_gt_iff. lia.
  - replace (0 + D * 1 =? 0) with false by (symmetry; apply Z.eqb_neq; lia).
    f_equal. symmetry. apply Z.compare_eq_iff. lia.
  - replace (rho + D * 0 =? 0) with false by (symmetry; apply Z.eqb_neq; lia).
    f_equal. symmetry. apply Z.compare_lt_iff. lia.
  - rewrite Z.mul_0_r. reflexivity.
Qed.

(** [iter_pos] carries an invariant indexed by the number of steps. *)
Lemma iter_pos_invariant {A : Type} (f : A -> A) (I : Z -> A -> Prop) :
  (forall k a, 0 <= k -> I k a -> I (k + 1) (f a)) ->
  forall p k a, 0 <= k -> I k a -> I (k + Zpos p) (iter_pos f p a).
Proof.
  intros Hstep. induction p as [p IH|p IH|]; intros k a Hk Ha; simpl.
  - replace (k + Zpos p~1) with (k + 1 + Zpos p + Zpos p) by lia.
    apply IH; [lia|]. apply IH; [lia|]. apply Hstep; assumption.
  - replace (k + Zpos p~0) with (k + Zpos p + Zpos p) by lia.
    apply IH; [lia|]. apply IH; assumption.
  - apply Hstep; assumption.
Qed.

Lemma Rep_shr (N D : Z) (r : shr_record) (e n : Z) :
  0 <= N -> 0 < D -> Rep N D r ->
  exists r', shr r e n = (r', e + Z.max 0 n) /\ Rep N (D * 2 ^ Z.max 0 n) r'.
Proof.
  intros HN HD HR. destruct n as [|p|p]; simpl shr.
  - exists r. rewrite Z.add_0_r, Z.mul_1_r. auto.
  - exists (iter_pos shr_1 p r). replace (Z.max 0 (Zpos p)) with (Zpos p) by lia.
    split; [reflexivity|].
    assert (Hstep : forall k a, 0 <= k -> Rep N (D * 2 ^ k) a ->
                                Rep N (D * 2 ^ (k + 1)) (shr_1 a)).
    { intros k a Hk Ha. rewrite Z.pow_add_r, Z.pow_1_r by lia.
      replace (D * (2 ^ k * 2)) with (2 * (D * 2 ^ k)) by ring.
      apply Rep_shr_1; [lia| |assumption].
      apply Z.mul_pos_pos; [lia|apply Z.pow_pos_nonneg; lia]. }
    apply (iter_pos_invariant shr_1 (fun k a => Rep N (D * 2 ^ k) a) Hstep p 0 r);
      [lia|]. rewrite Z.mul_1_r. exact HR.
  - exists r. replace (Z.max 0 (Zneg p)) with 0 by lia.
    rewrite Z.add_0_r, Z.mul_1_r. auto.
Qed.

Lemma fexp_fexp64 (e : Z) : fexp prec emax e = fexp64 e.
Proof. reflexivity. Qed.

Lemma binary_round_aux_closed (s : bool) (N D e : Z) :
  0 <= N -> 0 < D ->
  let n := rnd_shift (N / D) e in
  let M := rne N (D * 2 ^ n) in
  let k := rnd_shift M (e + n) in
  binary_round_aux prec emax s (N / D) e (locr (N mod D) D)
  = finish s (M / 2 ^ k) (e + n + k).
Proof.
  intros HN HD n M k. unfold binary_round_aux, shr_fexp.
  change (fexp prec emax (Zdigits2 (N / D) + e)) with (fexp64 (Zdigits2 (N / D) + e)).
  destruct (Rep_shr N D _ e (fexp64 (Zdigits2 (N / D) + e) - e) HN HD (Rep_of_loc N D))
    as (r1 & -> & [Hm1 Hl1]).
  cbv beta iota zeta.
  change (Z.max 0 (fexp64 (Zdigits2 (N / D) + e) - e)) with n in *.
  rewrite Hm1, Hl1.
  change (round_nearest_even (N / (D * 2 ^ n)) (locr (N mod (D * 2 ^ n)) (D * 2 ^ n)))
    with M.
  change (fexp prec emax (Zdigits2 M + (e + n))) with (fexp64 (Zdigits2 M + (e + n))).
  assert (HM : 0 <= M).
  { unfold M, rne, round_nearest_even.
    assert (0 <= N / (D * 2 ^ n)).
    { apply Z.div_pos; [lia|]. apply Z.mul_pos_pos; [lia|].
      apply Z.pow_pos_nonneg; unfold n, rnd_shift; lia. }
    destruct (locr _ _) as [|[| |]]; try lia.
    destruct (Z.even _); lia. }
  assert (HR : Rep M 1 (shr_record_of_loc M loc_Exact)).
  { split; simpl; [rewrite Z.div_1_r; reflexivity|].
    rewrite Z.mod_1_r. reflexivity. }
  destruct (Rep_shr M 1 _ (e + n) (fexp64 (Zdigits2 M + (e + n)) - (e + n)) HM ltac:(lia) HR)
    as (r2 & -> & [Hm2 _]).
  cbv beta iota zeta.
  change (Z.max 0 (fexp64 (Zdigits2 M + (e + n)) - (e + n))) with k in *.
  rewrite Hm2, Z.mul_1_l. reflexivity.
Qed.

Lemma rne_spec (N D : Z) :
  0 <= N -> 0 < D ->
  let M := rne N D in
  (2 * M - 1) * D <= 2 * N <= (2 * M + 1) * D /\
  (2 * N = (2 * M - 1) * D -> Z.even M = true) /\
  (2 * N = (2 * M + 1) * D -> Z.even M = true) /\
  N / D <= M <= N / D + 1.
Proof.
  intros HN HD M. subst M. unfold rne, locr, round_nearest_even.
  pose proof (Z.div_mod N D ltac:(lia)) as Hdm.
  pose proof (Z.mod_pos_bound N D HD) as Hr.
  revert Hdm Hr. generalize (N mod D) as r. generalize (N / D) as q.
  intros q r Hdm Hr. subst N.
  destruct (r =? 0) eqn:E0.
  - apply Z.eqb_eq in E0. subst r. repeat split; try nia; intros H; exfalso; nia.
  - apply Z.eqb_neq in E0.
    destruct (2 * r ?= D) eqn:Ec.
    + rewrite Z.compare_eq_iff in Ec.
      destruct (Z.even q) eqn:Ev.
      * repeat split; try nia; intros; exact Ev.
      * assert (Ev' : Z.even (q + 1) = true).
        { rewrite Z.even_add, Ev. reflexivity. }
        repeat split; try nia; intros; exact Ev'.
    + rewrite Z.compare_lt_iff in Ec.
      repeat split; try nia; intros H; exfalso; nia.
    + rewrite Z.compare_gt_iff in Ec.
      repeat split; try nia; intros H; exfalso; nia.
Qed.

Lemma rne_mono (N1 D1 N2 D2 : Z) :
  0 <= N1 -> 0 < D1 -> 0 <= N2 -> 0 < D2 ->
  N2 * D1 <= N1 * D2 -> rne N2 D2 <= rne N1 D1.
Proof.
  intros HN1 HD1 HN2 HD2 Hle.
  destruct (rne_spec N1 D1 HN1 HD1) as ((_ & Hu1) & _ & Ht1 & _).
  destruct (rne_spec N2 D2 HN2 HD2) as ((Hl2 & _) & Ht2 & _ & _).
  set (M1 := rne N1 D1) in *. set (M2 := rne N2 D2) in *.
  destruct (Z_le_gt_dec M2 M1) as [H|H]; [exact H|exfalso].
  assert (Hc1 : (2 * M2 - 1) * (D1 * D2) <= 2 * (N2 * D1)) by nia.
  assert (Hc2 : 2 * (N1 * D2) <= (2 * M1 + 1) * (D1 * D2)) by nia.
  assert (HP : 0 < D1 * D2) by nia.
  assert (Hm : M2 = M1 + 1) by nia.
  assert (He2 : 2 * N2 = (2 * M2 - 1) * D2) by nia.
  assert (He1 : 2 * N1 = (2 * M1 + 1) * D1) by nia.
  specialize (Ht1 He1). specialize (Ht2 He2).
  rewrite Hm, Z.even_add, Ht1 in Ht2. discriminate.
Qed.

Lemma rne_exact (k D : Z) : 0 < D -> rne (k * D) D = k.
Proof.
  intros HD. unfold rne, locr.
  rewrite Z.mod_mul, Z.div_mul by lia. reflexivity.
Qed.

Lemma digits2_pos_bounds (p : positive) :
  2 ^ (Zpos (digits2_pos p) - 1) <= Zpos p < 2 ^ Zpos (digits2_pos p).
Proof.
  induction p as [p IH|p IH|]; simpl digits2_pos; [| |simpl; lia];
    rewrite Pos2Z.inj_succ;
    replace (Z.succ (Zpos (digits2_pos p)) - 1) with (Zpos (digits2_pos p)) by lia;
    rewrite Z.pow_succ_r by lia;
    assert (H : 2 ^ Zpos (digits2_pos p) = 2 * 2 ^ (Zpos (digits2_pos p) - 1))
      by (rewrite <- Z.pow_succ_r by lia; f_equal; lia);
    [change (Zpos p~1) with (2 * Zpos p + 1)|change (Zpos p~0) with (2 * Zpos p)]; lia.
Qed.

Lemma Zdigits2_bounds (q : Z) :
  0 < q -> 0 < Zdigits2 q /\ 2 ^ (Zdigits2 q - 1) <= q < 2 ^ Zdigits2 q.
Proof.
  destruct q as [|p|p]; try lia. intros _. simpl Zdigits2.
  split; [lia|apply digits2_pos_bounds].
Qed.

Lemma Zdigits2_0 : Zdigits2 0 = 0.
Proof. reflexivity. Qed.

Lemma Zdigits2_upper (q k : Z) : 0 <= q -> 0 <= k -> q < 2 ^ k -> Zdigits2 q <= k.
Proof.
  intros Hq Hk H. destruct (Z.eq_dec q 0) as [->|Hne]; [simpl; lia|].
  destruct (Zdigits2_bounds q ltac:(lia)) as (Hd & Hl & _).
  destruct (Z_le_gt_dec (Zdigits2 q) k) as [|Hgt]; [assumption|exfalso].
  assert (2 ^ k <= 2 ^ (Zdigits2 q - 1)) by (apply Z.pow_le_mono_r; lia).
  lia.
Qed.

Lemma Zdigits2_lower (q k : Z) : 0 <= k -> 2 ^ k <= q -> k + 1 <= Zdigits2 q.
Proof.
  intros Hk H.
  assert (Hq : 0 < q) by (pose proof (Z.pow_pos_nonneg 2 k); lia).
  destruct (Zdigits2_bounds q Hq) as (Hd & _ & Hu).
  destruct (Z_le_gt_dec (k + 1) (Zdigits2 q)) as [|Hgt]; [assumption|exfalso].
  assert (2 ^ Zdigits2 q <= 2 ^ k) by (apply Z.pow_le_mono_r; lia).
  lia.
Qed.

Lemma pow2_split (a b : Z) : 0 <= a -> 0 <= b -> 2 ^ (a + b) = 2 ^ a * 2 ^ b.
Proof. intros. apply Z.pow_add_r; assumption. Qed.

Lemma pow2_pos (a : Z) : 0 <= a -> 0 < 2 ^ a.
Proof. intros. apply Z.pow_pos_nonneg; lia. Qed.

(** ** One rounding, on a value [N/D * 2^e] *)

Lemma fexp64_ge (e : Z) : -1074 <= fexp64 e.
Proof. unfold fexp64. lia. Qed.

Lemma fexp64_mono (a b : Z) : a <= b -> fexp64 a <= fexp64 b.
Proof. unfold fexp64. lia. Qed.

Lemma well_scaled_shift (N D e : Z) :
  well_scaled N D e ->
  rnd_shift (N / D) e = fexp64 (Zdigits2 (N / D) + e) - e /\
  rnd_exp N D e = fexp64 (Zdigits2 (N / D) + e) /\
  0 <= rnd_shift (N / D) e.
Proof. unfold well_scaled, rnd_exp, rnd_shift. lia. Qed.

Lemma quotient_lt_pow (N D : Z) :
  0 <= N -> 0 < D -> N < 2 ^ Zdigits2 (N / D) * D.
Proof.
  intros HN HD.
  pose proof (Z.div_mod N D ltac:(lia)) as Hdm.
  pose proof (Z.mod_pos_bound N D HD) as Hr.
  assert (Hq : 0 <= N / D) by (apply Z.div_pos; lia).
  assert (Hlt : N / D + 1 <= 2 ^ Zdigits2 (N / D)).
  { destruct (Z.eq_dec (N / D) 0) as [->|Hne]; [simpl; lia|].
    destruct (Zdigits2_bounds (N / D) ltac:(lia)) as (_ & _ & Hu). lia. }
  nia.
Qed.

Lemma quotient_ge_pow (N D : Z) :
  0 <= N -> 0 < D -> 0 < N / D -> 2 ^ (Zdigits2 (N / D) - 1) * D <= N.
Proof.
  intros HN HD Hq.
  pose proof (Z.div_mod N D ltac:(lia)) as Hdm.
  pose proof (Z.mod_pos_bound N D HD) as Hr.
  destruct (Zdigits2_bounds (N / D) Hq) as (_ & Hl & _).
  nia.
Qed.

Lemma rnd_man_upper (N D e : Z) :
  0 <= N -> 0 < D -> well_scaled N D e -> 0 <= rnd_man N D e <= 2 ^ 53.
Proof.
  intros HN HD Hw. destruct (well_scaled_shift _ _ _ Hw) as (Hn & _ & Hn0).
  unfold rnd_man. set (n := rnd_shift (N / D) e) in *.
  assert (HP : 0 < 2 ^ n) by (apply Z.pow_pos_nonneg; lia).
  assert (HD' : 0 < D * 2 ^ n) by nia.
  split.
  - destruct (rne_spec N (D * 2 ^ n) HN HD') as (_ & _ & _ & Hb & _).
    assert (0 <= N / (D * 2 ^ n)) by (apply Z.div_pos; lia). lia.
  - rewrite <- (rne_exact (2 ^ 53) (D * 2 ^ n) HD').
    pose proof (quotient_lt_pow N D HN HD) as Hlt.
    assert (Hd : Zdigits2 (N / D) <= 53 + n) by (unfold fexp64 in Hn; lia).
    assert (Hd0 : 0 <= Zdigits2 (N / D)).
    { destruct (N / D); simpl; lia. }
    assert (Hpw : 2 ^ Zdigits2 (N / D) <= 2 ^ 53 * 2 ^ n).
    { rewrite <- Z.pow_add_r by lia. apply Z.pow_le_mono_r; lia. }
    assert (Hc : 0 < 2 ^ 53) by reflexivity.
    revert Hpw Hc. generalize (2 ^ 53) as c. intros c Hpw Hc.
    assert (HN53 : N <= c * (D * 2 ^ n)).
    { apply Z.le_trans with (2 ^ Zdigits2 (N / D) * D); [lia|].
      rewrite (Z.mul_comm D), Z.mul_assoc. apply Z.mul_le_mono_nonneg_r; lia. }
    apply rne_mono; try lia;
      first [apply Z.mul_le_mono_nonneg_r; lia|apply Z.mul_nonneg_nonneg; lia].
Qed.

Lemma rnd_man_lower (N D e : Z) :
  0 <= N -> 0 < D -> well_scaled N D e ->
  -1074 < rnd_exp N D e -> 2 ^ 52 <= rnd_man N D e.
Proof.
  intros HN HD Hw HE. destruct (well_scaled_shift _ _ _ Hw) as (Hn & HEq & Hn0).
  unfold rnd_man. set (n := rnd_shift (N / D) e) in *.
  assert (HP : 0 < 2 ^ n) by (apply Z.pow_pos_nonneg; lia).
  assert (HD' : 0 < D * 2 ^ n) by nia.
  assert (Hd : Zdigits2 (N / D) = 53 + n) by (unfold fexp64 in *; lia).
  assert (Hq : 0 < N / D).
  { assert (H0 : 0 <= N / D) by (apply Z.div_pos; lia).
    clearbody n. revert Hd H0 Hn0. clear. generalize (N / D) as q. intros q Hd H0 Hn0.
    destruct q as [|p|p]; [change (Zdigits2 0) with 0 in Hd|..]; lia. }
  pose proof (quotient_ge_pow N D HN HD Hq) as Hge.
  rewrite Hd in Hge. replace (53 + n - 1) with (52 + n) in Hge by lia.
  rewrite Z.pow_add_r in Hge by lia.
  rewrite <- (rne_exact (2 ^ 52) (D * 2 ^ n) HD').
  assert (Hc : 0 < 2 ^ 52) by reflexivity.
  revert Hge Hc. generalize (2 ^ 52) as c. intros c Hge Hc.
  assert (HN52 : c * (D * 2 ^ n) <= N).
  { rewrite (Z.mul_comm D), Z.mul_assoc. exact Hge. }
  apply rne_mono; try lia;
    first [apply Z.mul_le_mono_nonneg_r; lia|apply Z.mul_nonneg_nonneg; lia].
Qed.

(** ** The rounded value in normal form, and its integer part *)

Lemma binary_round_aux_result (N D e : Z) :
  0 <= N -> 0 < D ->
  binary_round_aux prec emax false (N / D) e (locr (N mod D) D) = rnd_result N D e.
Proof.
  intros HN HD. rewrite binary_round_aux_closed by assumption. reflexivity.
Qed.

(** The normal form of a rounded value: a mantissa below 2^53 that is at
    least 2^52 unless the exponent is the least one. *)
Lemma rnd_result_normal (N D e b : Z) :
  0 <= N -> 0 < D -> well_scaled N D e -> b <= e ->
  exists M' E',
    rnd_result N D e = finish false M' E' /\
    0 <= M' < 2 ^ 53 /\ b <= E' /\ -1074 <= E' /\
    (-1074 < E' -> 2 ^ 52 <= M') /\
    M' * 2 ^ (E' - b) = rnd_man N D e * 2 ^ (rnd_exp N D e - b).
Proof.
  intros HN HD Hw Hb.
  pose proof (rnd_man_upper _ _ _ HN HD Hw) as Hu.
  destruct (well_scaled_shift _ _ _ Hw) as (_ & HE & Hn).
  assert (HElow : -1074 <= rnd_exp N D e) by (rewrite HE; apply fexp64_ge).
  assert (HbE : b <= rnd_exp N D e) by (unfold rnd_exp; lia).
  unfold rnd_result.
  set (M := rnd_man N D e) in *. set (E := rnd_exp N D e) in *.
  assert (Hlow : -1074 < E -> 2 ^ 52 <= M).
  { intros H. apply rnd_man_lower; assumption. }
  clearbody M E. clear HE.
  assert (HdM : Zdigits2 M <= 54).
  { apply Zdigits2_upper; lia. }
  assert (Hd0 : 0 <= Zdigits2 M) by (destruct M; simpl; lia).
  assert (Hk : rnd_shift M E = Z.max 0 (Zdigits2 M - 53)).
  { unfold rnd_shift, fexp64. lia. }
  rewrite Hk.
  destruct (Z_le_gt_dec (Zdigits2 M) 53) as [Hle|Hgt].
  - replace (Z.max 0 (Zdigits2 M - 53)) with 0 by lia.
    exists M, E. rewrite Z.pow_0_r, Z.div_1_r, Z.add_0_r.
    split; [reflexivity|]. split.
    { split; [lia|].
      destruct (Z.eq_dec M 0) as [->|Hne]; [reflexivity|].
      destruct (Zdigits2_bounds M ltac:(lia)) as (_ & _ & Hlt).
      assert (2 ^ Zdigits2 M <= 2 ^ 53) by (apply Z.pow_le_mono_r; lia). lia. }
    auto.
  - replace (Z.max 0 (Zdigits2 M - 53)) with 1 by lia.
    assert (HM : M = 2 ^ 53).
    { assert (M <> 0) by (intros ->; simpl in Hgt; lia).
      destruct (Zdigits2_bounds M ltac:(lia)) as (_ & Hl & _).
      assert (2 ^ 53 <= 2 ^ (Zdigits2 M - 1)) by (apply Z.pow_le_mono_r; lia). lia. }
    exists (2 ^ 52), (E + 1). subst M.
    split; [reflexivity|]. split; [split; [|reflexivity]; apply Z.pow_nonneg; lia|].
    split; [lia|]. split; [lia|]. split; [lia|].
    replace (E + 1 - b) with (1 + (E - b)) by lia.
    rewrite pow2_split by lia. change (2 ^ 53) with (2 ^ 52 * 2 ^ 1). ring.
Qed.

Lemma shift_scaled (m e b : Z) :
  0 <= m -> b <= e -> b <= 0 ->
  match e with
  | Zneg p => Z.shiftr m (Zpos p)
  | _ => Z.shiftl m e
  end = (m * 2 ^ (e - b)) / 2 ^ (- b).
Proof.
  intros Hm Hbe Hb0.
  assert (HP : 0 < 2 ^ (- b)) by (apply pow2_pos; lia).
  destruct e as [|p|p].
  - rewrite Z.shiftl_0_r. replace (0 - b) with (- b) by lia.
    rewrite Z.div_mul by lia. reflexivity.
  - rewrite Z.shiftl_mul_pow2 by lia.
    replace (Zpos p - b) with (Zpos p + - b) by lia.
    rewrite pow2_split, Z.mul_assoc, Z.div_mul by lia. reflexivity.
  - rewrite Z.shiftr_div_pow2 by lia.
    replace (- b) with ((Zneg p - b) + Zpos p) by lia.
    rewrite pow2_split by lia.
    rewrite (Z.mul_comm (2 ^ (Zneg p - b))).
    rewrite Z.div_mul_cancel_r; [reflexivity| |];
      apply Z.neq_sym, Z.lt_neq, pow2_pos; lia.
Qed.

Lemma SFtrunc_finish (M' E' b : Z) :
  0 <= M' -> b <= E' -> b <= 0 ->
  SFtrunc (finish false M' E') =
  if (M' =? 0) || (E' <=? emax - prec) then Some ((M' * 2 ^ (E' - b)) / 2 ^ (- b))
  else None.
Proof.
  intros HM Hb Hb0. unfold finish.
  destruct M' as [|p|p]; [| |lia].
  - simpl. rewrite Z.div_0_l; [reflexivity|].
    apply Z.neq_sym, Z.lt_neq, pow2_pos; lia.
  - change (Zpos p =? 0) with false. cbn [orb].
    destruct (E' <=? emax - prec); [|reflexivity].
    unfold SFtrunc. rewrite (shift_scaled (Zpos p) E' b) by lia. reflexivity.
Qed.

(** ** Two roundings compared *)

Section TwoRoundings.

(** Two values [N1/D1 * 2^e1] and [N2/D2 * 2^e2], the second no larger
    than the first; [b] is a common lower bound of the exponents. *)
Variables N1 D1 e1 N2 D2 e2 b : Z.
Hypothesis HN1 : 0 <= N1.
Hypothesis HD1 : 0 < D1.
Hypothesis HN2 : 0 <= N2.
Hypothesis HD2 : 0 < D2.
Hypothesis Hw1 : well_scaled N1 D1 e1.
Hypothesis Hw2 : well_scaled N2 D2 e2.
Hypothesis Hb1 : b <= e1.
Hypothesis Hb2 : b <= e2.
Hypothesis Hord : N2 * 2 ^ (e2 - b) * D1 <= N1 * 2 ^ (e1 - b) * D2.

Lemma rnd_exp_mono : rnd_exp N2 D2 e2 <= rnd_exp N1 D1 e1.
Proof.
  pose proof Hw2 as Hw2'.
  destruct (well_scaled_shift _ _ _ Hw1) as (_ & -> & _).
  destruct (well_scaled_shift _ _ _ Hw2) as (_ & -> & _).
  assert (Hq2 : 0 <= N2 / D2) by (apply Z.div_pos; lia).
  destruct (Z.eq_dec (N2 / D2) 0) as [E0|E0].
  - unfold well_scaled in Hw2'. rewrite E0 in Hw2' |- *.
    change (Zdigits2 0) with 0 in Hw2' |- *.
    pose proof (fexp64_ge (Zdigits2 (N1 / D1) + e1)). unfold fexp64 in *. lia.
  - apply fexp64_mono.
    pose proof (quotient_ge_pow N2 D2 HN2 HD2 ltac:(lia)) as Hge.
    pose proof (quotient_lt_pow N1 D1 HN1 HD1) as Hlt.
    destruct (Zdigits2_bounds (N2 / D2) ltac:(lia)) as (Hd2 & _).
    assert (Hd1 : 0 <= Zdigits2 (N1 / D1)) by (destruct (N1 / D1); simpl; lia).
    set (d1 := Zdigits2 (N1 / D1)) in *. set (d2 := Zdigits2 (N2 / D2)) in *.
    assert (HA : 0 < 2 ^ (e2 - b)) by (apply pow2_pos; lia).
    assert (HB : 0 < 2 ^ (e1 - b)) by (apply pow2_pos; lia).
    assert (Hchain : 2 ^ (d2 - 1) * 2 ^ (e2 - b) * (D1 * D2)
                     < 2 ^ d1 * 2 ^ (e1 - b) * (D1 * D2)).
    { revert Hge Hlt Hord HA HB.
      generalize (2 ^ (d2 - 1)) as P2, (2 ^ d1) as P1,
                 (2 ^ (e2 - b)) as A, (2 ^ (e1 - b)) as B.
      intros P2 P1 A B Hge Hlt Hord HA HB.
      assert (s1 : P2 * D2 * (A * D1) <= N2 * (A * D1))
        by (apply Z.mul_le_mono_nonneg_r; nia).
      assert (s2 : N1 * (B * D2) < P1 * D1 * (B * D2))
        by (apply Z.mul_lt_mono_pos_r; nia).
      lia. }
    rewrite <- !pow2_split in Hchain by lia.
    assert (HDD : 0 < D1 * D2) by nia.
    apply Z.mul_lt_mono_pos_r in Hchain; [|exact HDD].
    apply Z.pow_lt_mono_r_iff in Hchain; lia.
Qed.

Lemma rnd_value_mono :
  rnd_man N2 D2 e2 * 2 ^ (rnd_exp N2 D2 e2 - b)
  <= rnd_man N1 D1 e1 * 2 ^ (rnd_exp N1 D1 e1 - b).
Proof.
  pose proof rnd_exp_mono as HE.
  pose proof (rnd_man_upper _ _ _ HN1 HD1 Hw1) as Hu1.
  pose proof (rnd_man_upper _ _ _ HN2 HD2 Hw2) as Hu2.
  destruct (well_scaled_shift _ _ _ Hw1) as (_ & HE1 & Hn1).
  destruct (well_scaled_shift _ _ _ Hw2) as (_ & HE2 & Hn2).
  assert (Hlow2 : -1074 <= rnd_exp N2 D2 e2) by (rewrite HE2; apply fexp64_ge).
  destruct (Z.eq_dec (rnd_exp N2 D2 e2) (rnd_exp N1 D1 e1)) as [Heq|Hne].
  - rewrite Heq. apply Z.mul_le_mono_nonneg_r.
    { apply Z.pow_nonneg. lia. }
    unfold rnd_man. unfold rnd_exp in Heq.
    set (n1 := rnd_shift (N1 / D1) e1) in *. set (n2 := rnd_shift (N2 / D2) e2) in *.
    assert (HP1 : 0 < 2 ^ n1) by (apply pow2_pos; lia).
    assert (HP2 : 0 < 2 ^ n2) by (apply pow2_pos; lia).
    apply rne_mono; try nia.
    assert (HA : 0 < 2 ^ (e2 - b)) by (apply pow2_pos; lia).
    assert (HB : 0 < 2 ^ (e1 - b)) by (apply pow2_pos; lia).
    assert (Hs : 2 ^ (e2 - b) * 2 ^ n2 = 2 ^ (e1 - b) * 2 ^ n1).
    { rewrite <- !pow2_split by lia. f_equal. lia. }
    revert Hord HA HB Hs HP1 HP2.
    generalize (2 ^ (e2 - b)) as A, (2 ^ (e1 - b)) as B, (2 ^ n1) as P1, (2 ^ n2) as P2.
    intros A B P1 P2 Hord HA HB Hs HP1 HP2.
    assert (Hm : N2 * A * D1 * (P1 * P2) <= N1 * B * D2 * (P1 * P2))
      by (apply Z.mul_le_mono_nonneg_r; nia).
    replace (N2 * A * D1 * (P1 * P2)) with (N2 * (D1 * P1) * (A * P2)) in Hm by ring.
    replace (N1 * B * D2 * (P1 * P2)) with (N1 * (D2 * P2) * (B * P1)) in Hm by ring.
    rewrite <- Hs in Hm.
    apply Z.mul_le_mono_pos_r in Hm; [exact Hm|nia].
  - assert (HE' : rnd_exp N2 D2 e2 + 1 <= rnd_exp N1 D1 e1) by lia.
    pose proof (rnd_man_lower _ _ _ HN1 HD1 Hw1 ltac:(lia)) as Hl1.
    set (E1 := rnd_exp N1 D1 e1) in *. set (E2 := rnd_exp N2 D2 e2) in *.
    assert (HbE2 : b <= E2) by (unfold E2, rnd_exp; lia).
    apply Z.le_trans with (2 ^ 53 * 2 ^ (E2 - b)).
    { apply Z.mul_le_mono_nonneg_r; [apply Z.pow_nonneg|]; lia. }
    apply Z.le_trans with (2 ^ 52 * 2 ^ (E1 - b)).
    { rewrite <- !pow2_split by lia. apply Z.pow_le_mono_r; lia. }
    apply Z.mul_le_mono_nonneg_r; [apply Z.pow_nonneg|]; lia.
Qed.

(** Rounding then truncating is monotone. *)
Lemma rnd_trunc_mono (t1 : Z) :
  b <= 0 ->
  SFtrunc (rnd_result N1 D1 e1) = Some t1 ->
  exists t2, SFtrunc (rnd_result N2 D2 e2) = Some t2 /\ 0 <= t2 <= t1.
Proof.
  intros Hb0 Ht1.
  pose proof rnd_value_mono as HV.
  destruct (rnd_result_normal N1 D1 e1 b HN1 HD1 Hw1 Hb1)
    as (M1 & E1 & Hr1 & HM1 & HbE1 & _ & _ & HV1).
  destruct (rnd_result_normal N2 D2 e2 b HN2 HD2 Hw2 Hb2)
    as (M2 & E2 & Hr2 & HM2 & HbE2 & HE2 & Hlow2 & HV2).
  rewrite <- HV1, <- HV2 in HV. clear HV1 HV2.
  rewrite Hr1, (SFtrunc_finish M1 E1 b) in Ht1 by lia.
  rewrite Hr2, (SFtrunc_finish M2 E2 b) by lia.
  assert (HP : 0 < 2 ^ (- b)) by (apply pow2_pos; lia).
  assert (HP1 : 0 < 2 ^ (E1 - b)) by (apply pow2_pos; lia).
  assert (HP2 : 0 < 2 ^ (E2 - b)) by (apply pow2_pos; lia).
  destruct ((M1 =? 0) || (E1 <=? emax - prec)) eqn:Ok1; [|discriminate].
  injection Ht1 as <-.
  assert (Hfin : (M2 =? 0) || (E2 <=? emax - prec) = true).
  { apply orb_true_iff.
    destruct (Z.eq_dec M2 0) as [->|HM2ne]; [left; reflexivity|right].
    apply Z.leb_le. change (emax - prec) with 971.
    destruct (Z_le_gt_dec E2 971) as [|Hbig]; [assumption|exfalso].
    assert (Hm2 : 2 ^ 52 <= M2) by (apply Hlow2; lia).
    apply orb_true_iff in Ok1. destruct Ok1 as [Ok1|Ok1].
    - apply Z.eqb_eq in Ok1. subst M1. nia.
    - apply Z.leb_le in Ok1. change (emax - prec) with 971 in Ok1.
      assert (Hp : 2 * 2 ^ (E1 - b) <= 2 ^ (E2 - b)).
      { change 2 with (2 ^ 1) at 1. rewrite <- pow2_split by lia.
        apply Z.pow_le_mono_r; lia. }
      assert (H53 : 2 ^ 53 = 2 * 2 ^ 52) by reflexivity.
      revert H53 Hm2 HM1. generalize (2 ^ 53) as c53, (2 ^ 52) as c52.
      intros c53 c52 H53 Hm2 HM1.
      assert (M1 * 2 ^ (E1 - b) < c53 * 2 ^ (E1 - b))
        by (apply Z.mul_lt_mono_pos_r; lia).
      assert (c52 * 2 ^ (E2 - b) <= M2 * 2 ^ (E2 - b))
        by (apply Z.mul_le_mono_nonneg_r; lia).
      assert (c52 * (2 * 2 ^ (E1 - b)) <= c52 * 2 ^ (E2 - b))
        by (apply Z.mul_le_mono_nonneg_l; lia).
      lia. }
  rewrite Hfin. eexists. split; [reflexivity|]. split.
  - apply Z.div_pos; [|lia]. apply Z.mul_nonneg_nonneg; lia.
  - apply Z.div_le_mono; lia.
Qed.

End TwoRoundings.

(** ** Division of positive finite doubles *)

Lemma div_exp_le (mc : positive) (ec : Z) (mp : positive) (ep : Z) :
  div_exp mc ec mp ep <= ec - ep.
Proof. unfold div_exp. lia. Qed.

Lemma div_num_pos (mc : positive) (ec : Z) (mp : positive) (ep : Z) :
  0 < div_num mc ec mp ep.
Proof.
  unfold div_num. pose proof (div_exp_le mc ec mp ep).
  apply Z.mul_pos_pos; [lia|apply pow2_pos; lia].
Qed.

Lemma SFdiv_finite (mc : positive) (ec : Z) (mp : positive) (ep : Z) :
  SFdiv prec emax (S754_finite false mc ec) (S754_finite false mp ep)
  = rnd_result (div_num mc ec mp ep) (Zpos mp) (div_exp mc ec mp ep).
Proof.
  pose proof (div_exp_le mc ec mp ep) as Hle.
  pose proof (div_num_pos mc ec mp ep) as Hpos.
  rewrite <- binary_round_aux_result by lia.
  unfold SFdiv, SFdiv_core_binary. cbn [xorb Zdigits2].
  change (fexp prec emax (Zpos (digits2_pos mc) + ec - (Zpos (digits2_pos mp) + ep)))
    with (fexp64 (Zpos (digits2_pos mc) + ec - (Zpos (digits2_pos mp) + ep))).
  fold (div_exp mc ec mp ep).
  assert (Hm : match ec - ep - div_exp mc ec mp ep with
               | 0 => Zpos mc
               | Zpos _ => Z.shiftl (Zpos mc) (ec - ep - div_exp mc ec mp ep)
               | Zneg _ => 0
               end = div_num mc ec mp ep).
  { unfold div_num. destruct (ec - ep - div_exp mc ec mp ep) as [|s|s] eqn:Es; [| |lia].
    - rewrite Z.pow_0_r, Z.mul_1_r. reflexivity.
    - rewrite Z.shiftl_mul_pow2 by lia. reflexivity. }
  rewrite Hm.
  unfold Z.div, Z.modulo.
  destruct (Z.div_eucl (div_num mc ec mp ep) (Zpos mp)) as [q r] eqn:Ed.
  rewrite new_location_locr; [reflexivity|lia|].
  pose proof (Z.mod_pos_bound (div_num mc ec mp ep) (Zpos mp) ltac:(lia)) as Hr.
  unfold Z.modulo in Hr. rewrite Ed in Hr. exact Hr.
Qed.

Lemma div_well_scaled (mc : positive) (ec : Z) (mp : positive) (ep : Z) :
  well_scaled (div_num mc ec mp ep) (Zpos mp) (div_exp mc ec mp ep).
Proof.
  unfold well_scaled.
  pose proof (div_exp_le mc ec mp ep) as Hle.
  pose proof (div_num_pos mc ec mp ep) as Hpos.
  set (g := Zpos (digits2_pos mc) + ec - (Zpos (digits2_pos mp) + ep)).
  assert (He : div_exp mc ec mp ep <= fexp64 g) by (unfold div_exp; fold g; lia).
  apply Z.le_trans with (fexp64 g); [exact He|]. apply fexp64_mono.
  set (e' := div_exp mc ec mp ep) in *. set (N := div_num mc ec mp ep) in *.
  assert (Hq : 0 <= N / Zpos mp) by (apply Z.div_pos; lia).
  assert (Hd0 : 0 <= Zdigits2 (N / Zpos mp)) by (destruct (N / Zpos mp); simpl; lia).
  destruct (Z_le_gt_dec (g - e') 0) as [|Hgt]; [lia|].
  pose proof (digits2_pos_bounds mc) as (Hc & _).
  pose proof (digits2_pos_bounds mp) as (_ & Hp).
  set (d1 := Zpos (digits2_pos mc)) in *. set (d2 := Zpos (digits2_pos mp)) in *.
  assert (Hd1 : 0 < d1) by (unfold d1; lia).
  assert (Hd2 : 0 < d2) by (unfold d2; lia).
  assert (Hs : 0 <= ec - ep - e') by lia.
  assert (Ht : 2 ^ (g - e' - 1) <= N / Zpos mp).
  { apply Z.div_le_lower_bound; [lia|].
    apply Z.le_trans with (2 ^ d2 * 2 ^ (g - e' - 1)).
    - apply Z.mul_le_mono_nonneg_r; [apply Z.pow_nonneg|]; lia.
    - rewrite <- pow2_split by lia.
      replace (d2 + (g - e' - 1)) with ((d1 - 1) + (ec - ep - e')) by (unfold g; lia).
      rewrite pow2_split by lia. unfold N, div_num. fold e'.
      apply Z.mul_le_mono_nonneg_r; [apply Z.pow_nonneg|]; lia. }
  pose proof (Zdigits2_lower (N / Zpos mp) (g - e' - 1) ltac:(lia) Ht). lia.
Qed.

Lemma canonical64_of_valid (s : bool) (m : positive) (e : Z) :
  valid_binary (S754_finite s m e) = true -> canonical64 m e.
Proof.
  unfold SpecFloat.valid_binary, bounded, canonical_mantissa. intros H.
  apply andb_true_iff in H. destruct H as (H & _). apply Z.eqb_eq in H. exact H.
Qed.

Lemma SFleb_finite (m1 : positive) (e1 : Z) (m2 : positive) (e2 : Z) :
  canonical64 m1 e1 -> canonical64 m2 e2 ->
  SFleb (S754_finite false m1 e1) (S754_finite false m2 e2) = true ->
  e1 <= e2 /\ Zpos m1 <= Zpos m2 * 2 ^ (e2 - e1).
Proof.
  unfold canonical64, fexp64, SFleb, SFcompare. intros Hc1 Hc2 H.
  destruct (e1 ?= e2) eqn:Ec.
  - apply Z.compare_eq_iff in Ec. subst e2. split; [lia|].
    rewrite Z.sub_diag, Z.pow_0_r, Z.mul_1_r.
    change (Pos.compare_cont Eq m1 m2) with (Pos.compare m1 m2) in H.
    destruct (Pos.compare m1 m2) eqn:Em; try discriminate.
    + apply Pos.compare_eq in Em. subst. lia.
    + rewrite Pos.compare_lt_iff in Em. lia.
  - rewrite Z.compare_lt_iff in Ec. split; [lia|].
    pose proof (digits2_pos_bounds m1) as (_ & Hu).
    pose proof (digits2_pos_bounds m2) as (Hl & _).
    assert (Hd2 : Zpos (digits2_pos m2) = 53) by lia.
    assert (Hd1 : Zpos (digits2_pos m1) <= 53) by lia.
    rewrite Hd2 in Hl. change (2 ^ (53 - 1)) with (2 ^ 52) in Hl.
    assert (H1 : Zpos m1 < 2 ^ 53).
    { apply Z.lt_le_trans with (2 ^ Zpos (digits2_pos m1)); [exact Hu|].
      apply Z.pow_le_mono_r; lia. }
    assert (H2 : 2 <= 2 ^ (e2 - e1)).
    { change 2 with (2 ^ 1) at 1. apply Z.pow_le_mono_r; lia. }
    assert (H53 : 2 ^ 53 = 2 * 2 ^ 52) by reflexivity.
    revert H53 Hl H1. generalize (2 ^ 53) as c53, (2 ^ 52) as c52. intros. nia.
  - discriminate.
Qed.

(** Dividing a positive finite double by a larger one gives a smaller
    integer part. *)
Lemma SFdiv_trunc_mono (mc : positive) (ec : Z) (m1 : positive) (e1 : Z)
      (m2 : positive) (e2 : Z) (t1 : Z) :
  canonical64 m1 e1 -> canonical64 m2 e2 ->
  SFleb (S754_finite false m1 e1) (S754_finite false m2 e2) = true ->
  SFtrunc (SFdiv prec emax (S754_finite false mc ec) (S754_finite false m1 e1)) = Some t1 ->
  exists t2,
    SFtrunc (SFdiv prec emax (S754_finite false mc ec) (S754_finite false m2 e2)) = Some t2 /\
    0 <= t2 <= t1.
Proof.
  intros Hc1 Hc2 Hle. rewrite !SFdiv_finite.
  destruct (SFleb_finite _ _ _ _ Hc1 Hc2 Hle) as (He & Hm).
  set (b := Z.min (Z.min (div_exp mc ec m1 e1) (div_exp mc ec m2 e2)) 0).
  pose proof (div_exp_le mc ec m1 e1) as Hl1.
  pose proof (div_exp_le mc ec m2 e2) as Hl2.
  apply (rnd_trunc_mono _ _ _ _ _ _ b);
    try (pose proof (div_num_pos mc ec m1 e1); pose proof (div_num_pos mc ec m2 e2); lia);
    try apply div_well_scaled; try (unfold b; lia).
  unfold div_num.
  set (x1 := div_exp mc ec m1 e1) in *. set (x2 := div_exp mc ec m2 e2) in *.
  assert (Hb1 : b <= x1) by (unfold b; lia). assert (Hb2 : b <= x2) by (unfold b; lia).
  assert (HA : 2 ^ (ec - e2 - x2) * 2 ^ (x2 - b) = 2 ^ (ec - e2 - b))
    by (rewrite <- pow2_split by lia; f_equal; lia).
  assert (HB : 2 ^ (ec - e1 - x1) * 2 ^ (x1 - b) = 2 ^ (ec - e2 - b) * 2 ^ (e2 - e1))
    by (rewrite <- !pow2_split by lia; f_equal; lia).
  replace (Zpos mc * 2 ^ (ec - e2 - x2) * 2 ^ (x2 - b) * Zpos m1)
    with (Zpos mc * (2 ^ (ec - e2 - x2) * 2 ^ (x2 - b)) * Zpos m1) by ring.
  replace (Zpos mc * 2 ^ (ec - e1 - x1) * 2 ^ (x1 - b) * Zpos m2)
    with (Zpos mc * (2 ^ (ec - e1 - x1) * 2 ^ (x1 - b)) * Zpos m2) by ring.
  rewrite HA, HB.
  assert (HP : 0 <= 2 ^ (ec - e2 - b)) by (apply Z.pow_nonneg; lia).
  revert Hm HP. generalize (2 ^ (ec - e2 - b)) as P, (2 ^ (e2 - e1)) as Q.
  intros P Q Hm HP.
  assert (H1 : P * Zpos m1 <= P * (Zpos m2 * Q)) by (apply Z.mul_le_mono_nonneg_l; lia).
  assert (H2 : Zpos mc * (P * Zpos m1) <= Zpos mc * (P * (Zpos m2 * Q)))
    by (apply Z.mul_le_mono_nonneg_l; lia).
  lia.
Qed.

Lemma Qfloor_scaled (m e : Z) :
  0 <= m ->
  Qfloor (inject_Z m * 2 ^ e) =
  match e with
  | Zneg p => Z.shiftr m (Zpos p)
  | _ => Z.shiftl m e
  end.
Proof.
  intros Hm. destruct e as [|p|p].
  - rewrite Z.shiftl_0_r. simpl Qpower.
    assert (H : (inject_Z m * 1 == inject_Z m)%Q) by ring.
    rewrite H. apply Qfloor_Z.
  - rewrite Z.shiftl_mul_pow2 by lia.
    assert (H : (inject_Z m * 2 ^ Zpos p == inject_Z (m * 2 ^ Zpos p))%Q).
    { rewrite inject_Z_mult. rewrite (Zpower_Qpower 2 (Zpos p)) by lia. reflexivity. }
    rewrite H. apply Qfloor_Z.
  - rewrite Z.shiftr_div_pow2 by lia.
    assert (H : (inject_Z m * 2 ^ Zneg p == inject_Z m / inject_Z (2 ^ Zpos p))%Q).
    { change (Zneg p) with (- Zpos p). rewrite Qpower_opp.
      rewrite (Zpower_Qpower 2 (Zpos p)) by lia. reflexivity. }
    rewrite H. symmetry. apply Zdiv_Qdiv.
Qed.

Lemma Qpow2_pos (e : Z) : (0 < 2 ^ e)%Q.
Proof. apply Qpower_0_lt. reflexivity. Qed.

Lemma SFtrunc_value (f : spec_float) (z : Z) :
  SFtrunc f = Some z ->
  exists x, SFvalue f = Some x /\ z = Qtruncate x.
Proof.
  destruct f as [s|s| |s m e]; simpl; try discriminate.
  - intros [= <-]. exists 0%Q. split; reflexivity.
  - intros [= <-]. eexists. split; [reflexivity|].
    pose proof (Qpow2_pos e) as HP.
    unfold Qtruncate. destruct s.
    + assert (Hneg : (inject_Z (Zneg m) * 2 ^ e < 0)%Q).
      { setoid_replace 0%Q with (0 * 2 ^ e)%Q by ring.
        apply Qmult_lt_compat_r; [exact HP|reflexivity]. }
      assert (Hb : Qle_bool 0 (inject_Z (Zneg m) * 2 ^ e) = false).
      { destruct (Qle_bool 0 (inject_Z (Zneg m) * 2 ^ e)) eqn:E; [|reflexivity].
        apply Qle_bool_iff in E. exfalso. apply (Qlt_not_le _ _ Hneg E). }
      rewrite Hb. unfold Qceiling. f_equal.
      assert (H : (- (inject_Z (Zneg m) * 2 ^ e) == inject_Z (Zpos m) * 2 ^ e)%Q).
      { change (inject_Z (Zneg m)) with (- inject_Z (Zpos m))%Q. ring. }
      rewrite H. symmetry. apply Qfloor_scaled. lia.
    + assert (Hpos : (0 <= inject_Z (Zpos m) * 2 ^ e)%Q).
      { apply Qmult_le_0_compat; [discriminate|apply Qlt_le_weak, HP]. }
      apply Qle_bool_iff in Hpos. rewrite Hpos.
      symmetry. apply Qfloor_scaled. lia.
Qed.

Lemma SFvalue_trunc (f : spec_float) (x : Q) :
  SFvalue f = Some x -> exists z, SFtrunc f = Some z.
Proof. destruct f; simpl; try discriminate; eauto. Qed.

Lemma Qtruncate_nonneg (x : Q) : (0 <= x)%Q -> Qtruncate x = Qfloor x /\ 0 <= Qfloor x.
Proof.
  intros H. unfold Qtruncate. apply Qle_bool_iff in H. rewrite H.
  split; [reflexivity|]. apply Qle_bool_iff in H.
  change 0 with (Qfloor 0). apply Qfloor_resp_le. exact H.
Qed.

(** ** Comparisons and signs of doubles *)

Lemma SFleb_refl_finite (m : positive) (e : Z) :
  SFleb (S754_finite false m e) (S754_finite false m e) = true.
Proof.
  unfold SFleb, SFcompare. rewrite Z.compare_refl.
  change (Pos.compare_cont Eq m m) with (Pos.compare m m).
  rewrite Pos.compare_refl. reflexivity.
Qed.

(** Dividing a non-negative capital by a positive price, and by a larger
    one. *)
Lemma SFdiv_trunc_positive (K p1 p2 : spec_float) (t1 : Z) :
  valid_binary p1 = true -> valid_binary p2 = true ->
  SFleb SFzero K = true -> SFltb SFzero p1 = true -> SFleb p1 p2 = true ->
  SFtrunc (SFdiv prec emax K p1) = Some t1 ->
  SFleb p1 SFzero = false /\ SFleb p2 SFzero = false /\
  exists t2, SFtrunc (SFdiv prec emax K p2) = Some t2 /\ 0 <= t2 <= t1.
Proof.
  intros Hv1 Hv2 HK Hp1 Hle Ht1.
  destruct p1 as [s1|[|]| |[|] m1 e1]; try discriminate Hp1;
    destruct p2 as [s2|[|]| |[|] m2 e2]; try discriminate Hle;
    (split; [reflexivity|split; [reflexivity|]]);
    destruct K as [sk|[|]| |[|] mk ek]; try discriminate HK; try discriminate Ht1.
  - (* zero capital, infinite prices *)
    simpl in *. injection Ht1 as <-. exists 0. split; [reflexivity|lia].
  - (* finite capital, infinite prices *)
    simpl in *. injection Ht1 as <-. exists 0. split; [reflexivity|lia].
  - (* zero capital, finite then infinite price *)
    simpl in *. injection Ht1 as <-. exists 0. split; [reflexivity|lia].
  - (* finite capital, finite then infinite price *)
    apply canonical64_of_valid in Hv1.
    destruct (SFdiv_trunc_mono mk ek m1 e1 m1 e1 t1 Hv1 Hv1 (SFleb_refl_finite m1 e1) Ht1)
      as (t & Ht & Hr).
    rewrite Ht1 in Ht. injection Ht as <-.
    exists 0. split; [reflexivity|lia].
  - (* zero capital, finite prices *)
    simpl in *. injection Ht1 as <-. exists 0. split; [reflexivity|lia].
  - (* finite capital, finite prices *)
    apply canonical64_of_valid in Hv1. apply canonical64_of_valid in Hv2.
    exact (SFdiv_trunc_mono mk ek m1 e1 m2 e2 t1 Hv1 Hv2 Hle Ht1).
Qed.

Lemma SFdiv_value_nonneg (K p : spec_float) (x : Q) :
  SFleb SFzero K = true -> SFleb p SFzero = false ->
  SFvalue (SFdiv prec emax K p) = Some x -> (0 <= x)%Q.
Proof.
  intros HK Hp.
  destruct K as [sk|[|]| |[|] mk ek]; try discriminate HK;
    destruct p as [sp|[|]| |[|] mp ep]; try discriminate Hp; try discriminate;
    try (simpl; intros [= <-]; apply Qle_refl).
  rewrite SFdiv_finite. unfold rnd_result, finish.
  destruct (rnd_man _ _ _ / _) as [|m|m]; simpl; try discriminate.
  - intros [= <-]. apply Qle_refl.
  - destruct (_ <=? _); simpl; [|discriminate]. intros [= <-].
    apply Qmult_le_0_compat; [discriminate|apply Qlt_le_weak, Qpow2_pos].
Qed.

Lemma Prim2SF_zero : Prim2SF 0%float = SFzero.
Proof. reflexivity. Qed.

Lemma calculatePositionSize_positive (p : float) (r : RiskManager.t) (q : Z) :
  (p <=? 0)%float = false ->
  RiskManager.calculatePositionSize p r = Ok q ->
  trunc_float (RiskManager.current_capital_ r / p)%float = Some q /\
  INT_MIN <= q <= INT_MAX.
Proof.
  unfold RiskManager.calculatePositionSize. intros -> H.
  split; [|apply (static_cast_int_range _ _ H)].
  unfold static_cast_int in H.
  destruct (trunc_float _) as [t|]; [|discriminate].
  destruct (in_int_range t); [|discriminate]. congruence.
Qed.

Lemma calculatePositionSize_monotone (r : RiskManager.t) (p1 p2 : float) (q1 : Z) :
  (0 <=? RiskManager.current_capital_ r)%float = true ->
  (0 <? p1)%float = true -> (p1 <=? p2)%float = true ->
  RiskManager.calculatePositionSize p1 r = Ok q1 ->
  exists q2, RiskManager.calculatePositionSize p2 r = Ok q2 /\ 0 <= q2 <= q1.
Proof.
  intros HK Hp1 Hle H1.
  rewrite leb_spec, Prim2SF_zero in HK. rewrite ltb_spec, Prim2SF_zero in Hp1.
  rewrite leb_spec in Hle.
  assert (Hn1 : (p1 <=? 0)%float = false /\ (p2 <=? 0)%float = false /\
                forall t1, trunc_float (RiskManager.current_capital_ r / p1)%float = Some t1 ->
                exists t2, trunc_float (RiskManager.current_capital_ r / p2)%float = Some t2 /\
                           0 <= t2 <= t1).
  { rewrite !leb_spec, Prim2SF_zero. unfold trunc_float. rewrite !div_spec.
    assert (forall t1,
      SFtrunc (SFdiv prec emax (Prim2SF (RiskManager.current_capital_ r)) (Prim2SF p1))
        = Some t1 ->
      SFleb (Prim2SF p1) SFzero = false /\ SFleb (Prim2SF p2) SFzero = false /\
      exists t2,
        SFtrunc (SFdiv prec emax (Prim2SF (RiskManager.current_capital_ r)) (Prim2SF p2))
          = Some t2 /\ 0 <= t2 <= t1) as Hall.
    { intros t1. apply SFdiv_trunc_positive; auto using Prim2SF_valid. }
    destruct (SFleb (Prim2SF p1) SFzero) eqn:E1.
    - exfalso. destruct (Prim2SF p1) as [s|[|]| |[|] m e]; discriminate.
    - split; [reflexivity|]. split.
      + destruct (Prim2SF p1) as [s1|[|]| |[|] m1 e1]; try discriminate;
          destruct (Prim2SF p2) as [s2|[|]| |[|] m2 e2]; try discriminate; reflexivity.
      + intros t1 Ht1. apply (Hall t1 Ht1). }
  destruct Hn1 as (Hn1 & Hn2 & Hmono).
  destruct (calculatePositionSize_positive p1 r q1 Hn1 H1) as (Ht1 & Hr1).
  destruct (Hmono q1 Ht1) as (t2 & Ht2 & Hb).
  exists t2. split; [|exact Hb].
  unfold RiskManager.calculatePositionSize, static_cast_int, in_int_range.
  rewrite Hn2, Ht2.
  replace ((INT_MIN <=? t2) && (t2 <=? INT_MAX)) with true; [reflexivity|].
  symmetry. apply andb_true_iff.
  unfold INT_MIN, INT_MAX in *. split; [apply Z.leb_le|apply Z.leb_le]; lia.
Qed.

Lemma calculatePositionSize_value (r : RiskManager.t) (p : float) (q : Z) :
  (p <=? 0)%float = false ->
  RiskManager.calculatePositionSize p r = Ok q ->
  exists x,
    float_value (RiskManager.current_capital_ r / p)%float = Some x /\
    q = Qtruncate x /\
    ((0 <=? RiskManager.current_capital_ r)%float = true -> (0 <= x)%Q).
Proof.
  intros Hp H. destruct (calculatePositionSize_positive p r q Hp H) as (Ht & _).
  unfold trunc_float in Ht. destruct (SFtrunc_value _ _ Ht) as (x & Hx & Hq).
  exists x. unfold float_value. split; [exact Hx|]. split; [exact Hq|].
  intros HK. rewrite leb_spec, Prim2SF_zero in HK, Hp.
  rewrite div_spec in Hx. exact (SFdiv_value_nonneg _ _ _ HK Hp Hx).
Qed.

(** C6, as the code has it.  [calculatePositionSize] returns 0 for every
    price <= 0; for any other price a returned size lies in the int range
    and is the double quotient currentCapital / entryPrice rounded toward
    zero, and that size is returned whenever the quotient is finite and its
    rounding fits an int; with a non-negative capital the size is non-negative and is the
    floor of that quotient; and for a fixed non-negative capital the size
    does not increase as a positive price grows. *)
Theorem position_size_properties (r : RiskManager.t) :
  let K := RiskManager.current_capital_ r in
  (forall p, (p <=? 0)%float = true -> RiskManager.calculatePositionSize p r = Ok 0) /\
  (forall p q,
     (p <=? 0)%float = false -> RiskManager.calculatePositionSize p r = Ok q ->
     INT_MIN <= q <= INT_MAX /\
     exists x, float_value (K / p)%float = Some x /\ q = Qtruncate x) /\
  (forall p x,
     (p <=? 0)%float = false -> float_value (K / p)%float = Some x ->
     INT_MIN <= Qtruncate x <= INT_MAX ->
     RiskManager.calculatePositionSize p r = Ok (Qtruncate x)) /\
  (forall p q,
     (0 <=? K)%float = true -> RiskManager.calculatePositionSize p r = Ok q ->
     0 <= q /\
     ((p <=? 0)%float = false ->
      exists x, float_value (K / p)%float = Some x /\ q = Qfloor x)) /\
  (forall p1 p2 q1,
     (0 <=? K)%float = true -> (0 <? p1)%float = true -> (p1 <=? p2)%float = true ->
     RiskManager.calculatePositionSize p1 r = Ok q1 ->
     exists q2, RiskManager.calculatePositionSize p2 r = Ok q2 /\ 0 <= q2 <= q1).
Proof.
  intros K. split; [|split; [|split; [|split]]].
  - intros p Hp. unfold RiskManager.calculatePositionSize. rewrite Hp. reflexivity.
  - intros p q Hp H. split; [apply (calculatePositionSize_positive p r q Hp H)|].
    destruct (calculatePositionSize_value r p q Hp H) as (x & Hx & Hq & _). eauto.
  - intros p x Hp Hx Hr. unfold K in Hx. unfold float_value in Hx.
    destruct (SFvalue_trunc _ _ Hx) as (z & Hz).
    destruct (SFtrunc_value _ _ Hz) as (x' & Hx' & ->).
    rewrite Hx in Hx'. injection Hx' as <-.
    unfold RiskManager.calculatePositionSize, static_cast_int, trunc_float, in_int_range.
    rewrite Hp, Hz.
    replace ((INT_MIN <=? Qtruncate x) && (Qtruncate x <=? INT_MAX)) with true;
      [reflexivity|].
    symmetry. apply andb_true_iff. split; apply Z.leb_le; lia.
  - intros p q HK H. destruct (p <=? 0)%float eqn:Hp.
    + unfold RiskManager.calculatePositionSize in H. rewrite Hp in H.
      injection H as <-. split; [lia|discriminate].
    + destruct (calculatePositionSize_value r p q Hp H) as (x & Hx & Hq & Hx0).
      destruct (Qtruncate_nonneg x (Hx0 HK)) as (Hf & H0). rewrite Hf in Hq.
      split; [lia|]. intros _. eauto.
  - apply calculatePositionSize_monotone.
Qed.

(** C6 as stated fails.  With capital 100 the size is 0 at price 0 and 10 at
    the larger price 10, so it is not non-increasing over all prices; with
    the capital -100 that [loss_session] reaches after its stop-loss, the
    size at price 2 is -50, which is negative; with capital -150 the size at
    price 100 is -1, not the floor -2 of -1.5; and with capital 100000 the
    quotient at price 0.00001 does not fit an int, so no size is defined. *)
Lemma position_size_counterexample :
  RiskManager.calculatePositionSize 0 (RiskManager.new 100) = Ok 0 /\
  RiskManager.calculatePositionSize 10 (RiskManager.new 100) = Ok 10 /\
  RiskManager.getCurrentCapital (TradingEngine.risk_manager_ loss_state) = (-100)%float /\
  RiskManager.calculatePositionSize 2 (TradingEngine.risk_manager_ loss_state) = Ok (-50) /\
  RiskManager.calculatePositionSize 100 (RiskManager.new (-150)) = Ok (-1) /\
  (exists x, float_value (-150 / 100)%float = Some x /\ (x == -3 # 2)%Q /\ Qfloor x = -2) /\
  RiskManager.calculatePositionSize 0.00001 (RiskManager.new 100000)
    = Fail undefined_behaviour.
Proof.
  repeat (split; [vm_compute; reflexivity|]).
  split; [|vm_compute; reflexivity].
  eexists. split; [vm_compute; reflexivity|]. split; vm_compute; reflexivity.
Qed.

(* ------------------------------------------------------------------ *)
(** ** The properties at the sample sessions *)

Lemma processCandle_state_machine_witness :
  let s0 := TwoCandelPatternStrategy.initialize 100 TwoCandelPatternStrategy.new in
  let c1 := Candle.mk "09:15" 104 105 103.5 103 in
  let c2 := Candle.mk "09:20" 103 103.2 101 101.5 in
  let s1 := fst (TwoCandelPatternStrategy.processCandle c1 s0) in
  detector_state s0 = SEEKING_FIRST_CANDLE /\
  detector_state s1 = ARMED /\
  snd (TwoCandelPatternStrategy.processCandle c1 s0) = false /\
  snd (TwoCandelPatternStrategy.processCandle c2 s1) = true /\
  detector_state (fst (TwoCandelPatternStrategy.processCandle c2 s1)) = SEEKING_FIRST_CANDLE.
Proof.
  intros s0 c1 c2 s1.
  destruct (processCandle_state_machine c1 s0) as (_ & Hseek & _ & _).
  destruct (Hseek eq_refl) as (Hsig & Hst & _).
  destruct (processCandle_state_machine c2 s1) as (_ & _ & Harmed & _).
  assert (Hs1 : detector_state s1 = ARMED) by (unfold s1; rewrite Hst; vm_compute; reflexivity).
  destruct (Harmed Hs1) as (Hsig2 & Hst2 & _).
  split; [reflexivity|]. split; [exact Hs1|]. split; [exact Hsig|].
  split; [rewrite Hsig2|rewrite Hst2]; vm_compute; reflexivity.
Defined.

Lemma exit_before_entry_witness :
  TradingEngine.processOne profit_candle demo_open = Ok demo_profit /\
  first_exit_condition profit_candle demo_open = Ok (Some TakeProfit) /\
  TradingEngine.trade_log_ demo_profit =
    TradingEngine.trade_log_ demo_open ++ [exit_trade profit_candle demo_open] /\
  RiskManager.getCurrentCapital (TradingEngine.risk_manager_ demo_open) = 100000%float /\
  Trade.pnl (exit_trade profit_candle demo_open) = 11327.5%float /\
  RiskManager.getCurrentCapital (TradingEngine.risk_manager_ demo_profit) = 111327.5%float.
Proof.
  assert (H : TradingEngine.processOne profit_candle demo_open = Ok demo_profit)
    by (vm_compute; reflexivity).
  assert (H0 : first_exit_condition profit_candle demo_open = Ok (Some TakeProfit))
    by (vm_compute; reflexivity).
  assert (Hk : RiskManager.getCurrentCapital (TradingEngine.risk_manager_ demo_open)
               = 100000%float) by reflexivity.
  assert (Hp : Trade.pnl (exit_trade profit_candle demo_open) = 11327.5%float)
    by (vm_compute; reflexivity).
  destruct (proj2 (exit_before_entry profit_candle demo_open) demo_profit H)
    as (r & e2 & e3 & _ & Hr & Hexit & _ & _ & Hl & _ & _ & _ & Hc & entries & He & _).
  rewrite H0 in Hr. injection Hr as <-.
  destruct Hexit as (_ & Hl2 & _ & _ & _ & _ & Hc2 & _).
  split; [exact H|]. split; [exact H0|].
  split; [vm_compute; reflexivity|]. split; [exact Hk|]. split; [exact Hp|].
  rewrite Hc, Hc2, Hk, Hp. vm_compute. reflexivity.
Defined.

Lemma session_ends_on_market_close_exit_witness :
  let c := Candle.mk "15:15" 101.5 102 101 101.2 in
  TradingEngine.session_active_ late_open = true /\
  TradingEngine.processOne c late_open = Ok late_closed /\
  first_exit_condition c late_open = Ok (Some MarketClose) /\
  TradingEngine.session_active_ late_closed = false /\
  TradingEngine.loop (MarketData.candles late_session) late_closed = Ok late_closed.
Proof.
  intros c.
  destruct session_ends_on_market_close_exit as (Hstep & _ & _ & Hloop & _).
  assert (H : TradingEngine.processOne c late_open = Ok late_closed)
    by (vm_compute; reflexivity).
  assert (Ha : TradingEngine.session_active_ late_open = true) by reflexivity.
  assert (Hc : TradingEngine.session_active_ late_closed = false) by reflexivity.
  split; [exact Ha|]. split; [exact H|].
  split; [apply (proj1 (Hstep c late_open late_closed H Ha)); exact Hc|].
  split; [exact Hc|]. apply Hloop. exact Hc.
Defined.

Lemma end_of_data_settlement_witness :
  Position.is_open (TradingEngine.position_ demo_loop) = true /\
  Position.is_open (TradingEngine.position_ demo_final) = false /\
  exits_settled (TradingEngine.trade_log_ demo_final) /\
  sum_final_capital (printSummary demo_final) =
    accumulate 100000 (realized_pnls (TradingEngine.trade_log_ demo_final)).
Proof.
  assert (H1 : TradingEngine.loop (MarketData.candles demo)
                 (TradingEngine.start (TradingEngine.new demo)) = Ok demo_loop)
    by (vm_compute; reflexivity).
  assert (H2 : TradingEngine.run (TradingEngine.new demo) = Ok demo_final)
    by (vm_compute; reflexivity).
  destruct (end_of_data_settlement demo demo_loop H1)
    as (e' & Hrun & _ & Hc & Hs & _ & Hf & _).
  rewrite H2 in Hrun. injection Hrun as <-.
  split; [reflexivity|]. split; [exact Hc|]. split; [exact Hs|exact Hf].
Defined.

Lemma single_position_discipline_witness :
  Reachable demo demo_final /\
  no_consecutive_entries (TradingEngine.trade_log_ demo_final) /\
  replay false (TradingEngine.trade_log_ demo_final) = Some false /\
  Reachable demo demo_open /\
  0 < Position.quantity (TradingEngine.position_ demo_open).
Proof.
  destruct (single_position_discipline demo) as (Hloop & Hrun & Hinv).
  assert (R1 : Reachable demo demo_final) by (apply Hrun; vm_compute; reflexivity).
  assert (R2 : Reachable demo demo_open)
    by (apply (Hloop (firstn 2 (MarketData.candles demo))); vm_compute; reflexivity).
  destruct (Hinv _ R1) as (Hn & Hr & _).
  destruct (Hinv _ R2) as (_ & _ & Hq & _).
  split; [exact R1|]. split; [exact Hn|]. split; [exact Hr|]. split; [exact R2|].
  apply Hq. reflexivity.
Defined.

Lemma simulation_deterministic_witness :
  TradingEngine.run (TradingEngine.new demo) = Ok demo_final /\
  TradingEngine.run (TradingEngine.new demo_renamed) = Ok demo_renamed_final /\
  TradingEngine.trade_log_ demo_final = TradingEngine.trade_log_ demo_renamed_final /\
  printSummary demo_final = with_instrument "DEMO" (printSummary demo_renamed_final).
Proof.
  assert (H1 : TradingEngine.run (TradingEngine.new demo) = Ok demo_final)
    by (vm_compute; reflexivity).
  assert (H2 : TradingEngine.run (TradingEngine.new demo_renamed) = Ok demo_renamed_final)
    by (vm_compute; reflexivity).
  assert (Hc : MarketData.candles demo = MarketData.candles demo_renamed) by reflexivity.
  assert (Hp : MarketData.previous_day_close demo
               = MarketData.previous_day_close demo_renamed) by reflexivity.
  assert (Hk : MarketData.capital demo = MarketData.capital demo_renamed) by reflexivity.
  destruct (simulation_deterministic demo demo_renamed Hc Hp Hk) as (_ & Hok & _).
  destruct (Hok demo_final demo_renamed_final H1 H2) as (Hl & _ & Hs).
  split; [exact H1|]. split; [exact H2|]. split; [exact Hl|exact Hs].
Defined.

Lemma position_size_properties_witness :
  RiskManager.calculatePositionSize 104.5 (RiskManager.new 100000) = Ok 956 /\
  (exists q2, RiskManager.calculatePositionSize 250 (RiskManager.new 100000) = Ok q2 /\
              0 <= q2 <= 956) /\
  (exists x, float_value (100000 / 104.5)%float = Some x /\ 956 = Qfloor x).
Proof.
  destruct (position_size_properties (RiskManager.new 100000))
    as (_ & _ & _ & Hfloor & Hmono).
  assert (H : RiskManager.calculatePositionSize 104.5 (RiskManager.new 100000) = Ok 956)
    by (vm_compute; reflexivity).
  split; [exact H|]. split.
  - apply (Hmono 104.5%float 250%float 956); [reflexivity|reflexivity|reflexivity|exact H].
  - apply (Hfloor 104.5%float 956); [reflexivity|exact H|reflexivity].
Defined.

(* ================================================================== *)
(** * Further properties of the engine *)

Lemma processCandle_cases (c : Candle.t) (s : TwoCandelPatternStrategy.t) :
  let e3 := EMACalculator.update (Candle.close c) (TwoCandelPatternStrategy.ema3_ s) in
  let e5 := EMACalculator.update (Candle.close c) (TwoCandelPatternStrategy.ema5_ s) in
  let pdc := TwoCandelPatternStrategy.previous_day_close_ s in
  let f := TwoCandelPatternStrategy.first_candle_ s in
  TwoCandelPatternStrategy.processCandle c s =
  if TwoCandelPatternStrategy.first_candle_valid_ s then
    if (Candle.low c <? Candle.low f)%float
    then (TwoCandelPatternStrategy.mk f false pdc e3 e5, true)
    else (TwoCandelPatternStrategy.mk f true pdc e3 e5, false)
  else
    if gap_up pdc c && (Candle.low c >? EMACalculator.getValue e5)%float
    then (TwoCandelPatternStrategy.mk c true pdc e3 e5, false)
    else (TwoCandelPatternStrategy.mk f false pdc e3 e5, false).
Proof.
  cbv zeta. unfold TwoCandelPatternStrategy.processCandle, gap_up.
  rewrite update_initialized. cbn [negb].
  cbn [TwoCandelPatternStrategy.first_candle_valid_
       TwoCandelPatternStrategy.previous_day_close_
       TwoCandelPatternStrategy.first_candle_].
  destruct (TwoCandelPatternStrategy.first_candle_valid_ s); cbn [negb]; reflexivity.
Qed.

Lemma signal_needs_armed (c : Candle.t) (s : TwoCandelPatternStrategy.t) :
  TwoCandelPatternStrategy.first_candle_valid_ s = false ->
  snd (TwoCandelPatternStrategy.processCandle c s) = false.
Proof.
  intros H. rewrite processCandle_cases. cbv zeta. rewrite H.
  destruct (gap_up _ c && _); reflexivity.
Qed.

Lemma signal_disarms (c : Candle.t) (s : TwoCandelPatternStrategy.t) :
  snd (TwoCandelPatternStrategy.processCandle c s) = true ->
  TwoCandelPatternStrategy.first_candle_valid_
    (fst (TwoCandelPatternStrategy.processCandle c s)) = false.
Proof.
  rewrite processCandle_cases. cbv zeta.
  destruct (TwoCandelPatternStrategy.first_candle_valid_ s).
  - destruct (Candle.low c <? _)%float; cbn; congruence.
  - destruct (gap_up _ c && _); cbn; congruence.
Qed.

Lemma signals_count_bound (cs : list Candle.t) (s : TwoCandelPatternStrategy.t) :
  (2 * count_signals (signals cs s)
   <= List.length cs + (if TwoCandelPatternStrategy.first_candle_valid_ s then 1 else 0))%nat.
Proof.
  revert s. induction cs as [|c cs IH]; intros s.
  - cbn. lia.
  - cbn [signals List.length]. unfold count_signals in *. cbn [filter].
    specialize (IH (fst (TwoCandelPatternStrategy.processCandle c s))).
    destruct (snd (TwoCandelPatternStrategy.processCandle c s)) eqn:Es.
    + rewrite (signal_disarms _ _ Es) in IH. cbn [List.length].
      destruct (TwoCandelPatternStrategy.first_candle_valid_ s) eqn:Ev.
      * lia.
      * rewrite (signal_needs_armed _ _ Ev) in Es. discriminate.
    + destruct (TwoCandelPatternStrategy.first_candle_valid_ (fst _));
        destruct (TwoCandelPatternStrategy.first_candle_valid_ s) eqn:Ev; lia.
Qed.

Lemma signals_app (l1 l2 : list Candle.t) (s : TwoCandelPatternStrategy.t) :
  signals (l1 ++ l2) s = signals l1 s ++ signals l2 (strategy_after l1 s).
Proof.
  revert s. induction l1 as [|c l1 IH]; intros s; [reflexivity|].
  cbn [app signals]. rewrite IH. reflexivity.
Qed.

Lemma strategy_after_app (l1 l2 : list Candle.t) (s : TwoCandelPatternStrategy.t) :
  strategy_after (l1 ++ l2) s = strategy_after l2 (strategy_after l1 s).
Proof. apply fold_left_app. Qed.

Lemma signals_length (cs : list Candle.t) (s : TwoCandelPatternStrategy.t) :
  List.length (signals cs s) = List.length cs.
Proof.
  revert s. induction cs as [|c cs IH]; intros s; [reflexivity|].
  cbn [signals List.length]. rewrite IH. reflexivity.
Qed.

(** X1.  Signals of the detector over any run of candles: no two candles in
    a row both signal, a detector that starts unarmed (as [initialize] leaves
    it) is silent on its first candle, and at most every second candle
    signals. *)
Theorem signals_never_adjacent (cs : list Candle.t) (s : TwoCandelPatternStrategy.t) :
  (forall l1 l2, signals cs s <> l1 ++ true :: true :: l2) /\
  (forall prev_close,
     let s0 := TwoCandelPatternStrategy.initialize prev_close s in
     hd false (signals cs s0) = false /\
     (2 * count_signals (signals cs s0) <= List.length cs)%nat).
Proof.
  split.
  - revert s. induction cs as [|c cs IH]; intros s l1 l2 H.
    + destruct l1; discriminate.
    + cbn [signals] in H. destruct l1 as [|b l1].
      * cbn [app] in H. injection H as H1 H2.
        destruct cs as [|c' cs]; [discriminate|].
        cbn [signals] in H2. injection H2 as H2 _.
        rewrite (signal_needs_armed _ _ (signal_disarms _ _ H1)) in H2. discriminate.
      * cbn [app] in H. injection H as _ H. exact (IH _ _ _ H).
  - intros prev_close s0. split.
    + destruct cs as [|c cs]; [reflexivity|]. cbn [signals hd].
      apply signal_needs_armed. reflexivity.
    + pose proof (signals_count_bound cs s0) as H.
      change (TwoCandelPatternStrategy.first_candle_valid_ s0) with false in H.
      rewrite Nat.add_0_r in H. exact H.
Qed.

Lemma strategy_after_prev_close (cs : list Candle.t) (s : TwoCandelPatternStrategy.t) :
  TwoCandelPatternStrategy.previous_day_close_ (strategy_after cs s)
  = TwoCandelPatternStrategy.previous_day_close_ s.
Proof.
  revert s. induction cs as [|c cs IH]; intros s; [reflexivity|].
  cbn [strategy_after fold_left]. fold (strategy_after cs). rewrite IH.
  rewrite processCandle_cases. cbv zeta.
  repeat match goal with |- context [if ?b then _ else _] => destruct b end; reflexivity.
Qed.

Lemma strategy_after_snoc (cs : list Candle.t) (c : Candle.t) (s : TwoCandelPatternStrategy.t) :
  strategy_after (cs ++ [c]) s
  = fst (TwoCandelPatternStrategy.processCandle c (strategy_after cs s)).
Proof. rewrite strategy_after_app. reflexivity. Qed.

(** While armed on [f], candles that do not break below the low of [f] leave
    the detector armed on [f]. *)
Lemma armed_stays (f : Candle.t) (cs : list Candle.t) (s : TwoCandelPatternStrategy.t) :
  TwoCandelPatternStrategy.first_candle_valid_ s = true ->
  TwoCandelPatternStrategy.first_candle_ s = f ->
  Forall (fun d => (Candle.low d <? Candle.low f)%float = false) cs ->
  TwoCandelPatternStrategy.first_candle_valid_ (strategy_after cs s) = true /\
  TwoCandelPatternStrategy.first_candle_ (strategy_after cs s) = f.
Proof.
  revert s. induction cs as [|c cs IH]; intros s Hv Hf Hall; [auto|].
  inversion Hall as [|? ? Hc Hcs]; subst.
  cbn [strategy_after fold_left]. fold (strategy_after cs). apply IH; [| |exact Hcs];
    rewrite processCandle_cases; cbv zeta; rewrite Hv, Hc; reflexivity.
Qed.

Lemma armed_history (prev_close : float) (s0 : TwoCandelPatternStrategy.t)
      (pre : list Candle.t) :
  let init := TwoCandelPatternStrategy.initialize prev_close s0 in
  TwoCandelPatternStrategy.first_candle_valid_ (strategy_after pre init) = true ->
  exists pre1 f pre2,
    pre = pre1 ++ f :: pre2 /\
    TwoCandelPatternStrategy.first_candle_ (strategy_after pre init) = f /\
    detector_state (strategy_after pre1 init) = SEEKING_FIRST_CANDLE /\
    gap_up prev_close f = true /\
    (Candle.low f >? TwoCandelPatternStrategy.getEMA5 (strategy_after (pre1 ++ [f]) init))%float
      = true /\
    Forall (fun d => (Candle.low d <? Candle.low f)%float = false) pre2.
Proof.
  intros init. induction pre as [|d pre IH] using rev_ind.
  - cbn. discriminate.
  - rewrite strategy_after_snoc.
    pose proof (strategy_after_prev_close pre init) as Hp.
    change (TwoCandelPatternStrategy.previous_day_close_ init) with prev_close in Hp.
    pose proof (processCandle_ema5 d (strategy_after pre init)) as He5.
    rewrite processCandle_cases in *. cbv zeta in *. rewrite Hp in *.
    destruct (TwoCandelPatternStrategy.first_candle_valid_ (strategy_after pre init)) eqn:Ev.
    + destruct (IH eq_refl) as (pre1 & f & pre2 & -> & Hf & Hs & Hg & He & Hall).
      rewrite Hf in *.
      destruct (Candle.low d <? Candle.low f)%float eqn:Eb; cbn; [discriminate|].
      intros _. exists pre1, f, (pre2 ++ [d]). rewrite <- app_assoc. cbn [app].
      repeat split; auto. apply Forall_app. split; [exact Hall|]. constructor; auto.
    + destruct (gap_up prev_close d) eqn:Eg; cbn [andb]; [|cbn; discriminate].
      destruct (Candle.low d >? _)%float eqn:El; cbn; [|discriminate].
      intros _. exists pre, d, []. repeat split; auto.
      * unfold detector_state. rewrite Ev. reflexivity.
      * rewrite strategy_after_snoc, processCandle_cases. cbv zeta.
        rewrite Ev, Hp, Eg, El. cbn. exact El.
Qed.

(** X2.  What a signal means.  After [initialize], the detector signals on a
    candle [c] exactly when the candles before it split as [pre1 ++ f :: pre2]
    where the detector was unarmed after [pre1], [f] opened at or above
    previous close * 1.03 with its low above the EMA(5) that includes [f],
    no candle of [pre2] went below the low of [f], and the low of [c] is
    below the low of [f]. *)
Theorem signal_is_breakdown_of_gap_candle (prev_close : float)
      (s0 : TwoCandelPatternStrategy.t) (pre : list Candle.t) (c : Candle.t) :
  let init := TwoCandelPatternStrategy.initialize prev_close s0 in
  snd (TwoCandelPatternStrategy.processCandle c (strategy_after pre init)) = true <->
  exists pre1 f pre2,
    pre = pre1 ++ f :: pre2 /\
    detector_state (strategy_after pre1 init) = SEEKING_FIRST_CANDLE /\
    gap_up prev_close f = true /\
    (Candle.low f >? TwoCandelPatternStrategy.getEMA5 (strategy_after (pre1 ++ [f]) init))%float
      = true /\
    Forall (fun d => (Candle.low d <? Candle.low f)%float = false) pre2 /\
    (Candle.low c <? Candle.low f)%float = true.
Proof.
  intros init. split.
  - intros H.
    destruct (TwoCandelPatternStrategy.first_candle_valid_ (strategy_after pre init)) eqn:Ev;
      [|rewrite (signal_needs_armed _ _ Ev) in H; discriminate].
    destruct (armed_history prev_close s0 pre Ev) as (pre1 & f & pre2 & Hpre & Hf & Hs & Hg & He & Hall).
    exists pre1, f, pre2. repeat split; auto.
    fold init in Hf. rewrite processCandle_cases in H. cbv zeta in H.
    rewrite Ev, Hf in H. destruct (Candle.low c <? Candle.low f)%float; [reflexivity|discriminate].
  - intros (pre1 & f & pre2 & -> & Hs & Hg & He & Hall & Hb).
    replace (pre1 ++ f :: pre2) with ((pre1 ++ [f]) ++ pre2)
      by (rewrite <- app_assoc; reflexivity).
    rewrite strategy_after_app.
    assert (Harm :
      TwoCandelPatternStrategy.first_candle_valid_ (strategy_after (pre1 ++ [f]) init) = true /\
      TwoCandelPatternStrategy.first_candle_ (strategy_after (pre1 ++ [f]) init) = f).
    { pose proof (processCandle_ema5 f (strategy_after pre1 init)) as He5.
      rewrite strategy_after_snoc in *. unfold TwoCandelPatternStrategy.getEMA5 in He.
      rewrite He5 in He.
      pose proof (strategy_after_prev_close pre1 init) as Hp.
      change (TwoCandelPatternStrategy.previous_day_close_ init) with prev_close in Hp.
      rewrite processCandle_cases. cbv zeta.
      unfold detector_state in Hs.
      destruct (TwoCandelPatternStrategy.first_candle_valid_ (strategy_after pre1 init));
        [discriminate|].
      rewrite Hp, Hg. unfold EMACalculator.getValue in *. rewrite He. cbn. auto. }
    destruct Harm as (Hv & Hf).
    destruct (armed_stays f pre2 _ Hv Hf Hall) as (Hv' & Hf').
    rewrite processCandle_cases. cbv zeta. rewrite Hv', Hf', Hb. reflexivity.
Qed.

Lemma executeSellOrder_events (c : Candle.t) (e e' : TradingEngine.t) :
  TradingEngine.executeSellOrder c e = Ok e' ->
  (exists msg,
     TradingEngine.console_ e' = TradingEngine.console_ e ++ [LogMessage msg] /\
     TradingEngine.trade_log_ e' = TradingEngine.trade_log_ e) \/
  (exists q, 0 < q /\
     TradingEngine.console_ e' = TradingEngine.console_ e ++ [LogTrade (entry_trade c q)] /\
     TradingEngine.trade_log_ e' = TradingEngine.trade_log_ e ++ [entry_trade c q]).
Proof.
  unfold TradingEngine.executeSellOrder. intros H.
  destruct (RiskManager.canTrade (TradingEngine.risk_manager_ e)); cbn [negb] in H;
    [|injection H as <-; left; eexists; cbn; eauto].
  destruct (Position.is_open (TradingEngine.position_ e));
    [injection H as <-; left; eexists; cbn; eauto|].
  apply bind_Ok in H. destruct H as (q & Hq & H).
  destruct (q <=? 0) eqn:Eq; [injection H as <-; left; eexists; cbn; eauto|].
  injection H as <-. right. exists q. apply Z.leb_gt in Eq. cbn. auto.
Qed.

Lemma first_exit_condition_ext (c : Candle.t) (e1 e : TradingEngine.t) :
  TradingEngine.position_ e1 = TradingEngine.position_ e ->
  TradingEngine.risk_manager_ e1 = TradingEngine.risk_manager_ e ->
  first_exit_condition c e1 = first_exit_condition c e.
Proof. intros Hp Hr. unfold first_exit_condition. rewrite Hp, Hr. reflexivity. Qed.

(** Everything one candle adds to the console and to the trade log. *)
Lemma processOne_events (c : Candle.t) (e e' : TradingEngine.t) :
  TradingEngine.processOne c e = Ok e' ->
  let s' := fst (TwoCandelPatternStrategy.processCandle c (TradingEngine.strategy_ e)) in
  exists (r : option ExitReason) (entry status : list Event),
    first_exit_condition c e = Ok r /\
    entry_events c entry /\ status_events status /\
    TradingEngine.strategy_ e' = s' /\
    TradingEngine.console_ e' =
      TradingEngine.console_ e
      ++ LogCandle c (TwoCandelPatternStrategy.getEMA3 s') (TwoCandelPatternStrategy.getEMA5 s')
         :: exit_events c e r ++ entry ++ status /\
    TradingEngine.trade_log_ e' =
      TradingEngine.trade_log_ e ++ console_trades (exit_events c e r ++ entry).
Proof.
  intros H. cbv zeta. unfold TradingEngine.processOne in H.
  pose proof (processCandle_ready c (TradingEngine.strategy_ e)) as Hready.
  destruct (TwoCandelPatternStrategy.processCandle c (TradingEngine.strategy_ e))
    as [s signal]. cbn [fst snd] in *.
  cbn [TradingEngine.set_strategy TradingEngine.strategy_] in H.
  rewrite Hready in H.
  set (e1 := TradingEngine.emit _ _) in H.
  apply bind_Ok in H. destruct H as (e2 & Hx & H).
  apply bind_Ok in H. destruct H as (e3 & Hn & H).
  apply checkExitConditions_spec in Hx. destruct Hx as (r & Hr & Hx).
  rewrite (first_exit_condition_ext c e1 e eq_refl eq_refl) in Hr.
  assert (H2 : TradingEngine.strategy_ e2 = s /\
               TradingEngine.console_ e2 =
                 TradingEngine.console_ e
                 ++ LogCandle c (TwoCandelPatternStrategy.getEMA3 s)
                      (TwoCandelPatternStrategy.getEMA5 s) :: exit_events c e r /\
               TradingEngine.trade_log_ e2 =
                 TradingEngine.trade_log_ e ++ console_trades (exit_events c e r)).
  { destruct r as [reason|].
    - destruct Hx as (Ho & ->).
      assert (Hc : forall x, x = TradingEngine.closePosition c (reason_text reason) e1 ->
                TradingEngine.strategy_ x = s /\
                TradingEngine.console_ x =
                  (TradingEngine.console_ e ++ [LogCandle c (TwoCandelPatternStrategy.getEMA3 s)
                      (TwoCandelPatternStrategy.getEMA5 s)])
                  ++ [LogExit (exit_trade c e) (reason_text reason)] /\
                TradingEngine.trade_log_ x = TradingEngine.trade_log_ e ++ [exit_trade c e]).
      { intros x ->. unfold TradingEngine.closePosition. rewrite Ho. cbn. auto. }
      destruct (Hc _ eq_refl) as (Hc1 & Hc2 & Hc3).
      rewrite <- app_assoc in Hc2. cbn [app] in Hc2.
      destruct reason; cbn [exit_events console_trades flat_map app]; cbv beta iota;
        cbn [TradingEngine.set_session_active TradingEngine.strategy_
             TradingEngine.console_ TradingEngine.trade_log_]; auto.
    - subst e2. cbn. rewrite app_nil_r. auto. }
  destruct H2 as (Hs2 & Hc2 & Hl2).
  assert (H3 : exists entry, entry_events c entry /\
               TradingEngine.strategy_ e3 = s /\
               TradingEngine.console_ e3 = TradingEngine.console_ e2 ++ entry /\
               TradingEngine.trade_log_ e3 = TradingEngine.trade_log_ e2 ++ console_trades entry).
  { destruct (signal && TradingEngine.session_active_ e2).
    - pose proof (executeSellOrder_cases _ _ _ Hn) as (Hs3 & _).
      apply executeSellOrder_events in Hn. cbn in Hn.
      destruct Hn as [(msg & Hc & Hl)|(q & Hq & Hc & Hl)].
      + exists [LogSignal; LogMessage msg]. split; [constructor|].
        rewrite Hc, Hl, <- app_assoc. cbn. rewrite app_nil_r. cbn in Hs3.
        repeat split; congruence.
      + exists [LogSignal; LogTrade (entry_trade c q)]. split; [constructor; exact Hq|].
        rewrite Hc, Hl, <- app_assoc. cbn. cbn in Hs3. repeat split; congruence.
    - injection Hn as <-. exists []. split; [constructor|]. cbn. rewrite !app_nil_r. auto. }
  destruct H3 as (entry & He & Hs3 & Hc3 & Hl3).
  exists r, entry.
  destruct (Position.is_open (TradingEngine.position_ e3)); injection H as <-.
  - eexists [LogPosition _]. cbn [TradingEngine.emit TradingEngine.console_
      TradingEngine.trade_log_ TradingEngine.strategy_].
    rewrite Hc3, Hc2, Hl3, Hl2.
    unfold console_trades. rewrite flat_map_app, <- !app_assoc. cbn [app].
    repeat split; auto. constructor.
  - exists []. rewrite Hc3, Hc2, Hl3, Hl2.
    unfold console_trades. rewrite flat_map_app, <- !app_assoc, app_nil_r. cbn [app].
    repeat split; auto. constructor.
Qed.

(** An invariant of the candle loop that knows which candles were processed:
    the loop stops after a prefix of the candles, and short of the whole list
    only with the session ended. *)
Lemma loop_prefix (P : list Candle.t -> TradingEngine.t -> Prop)
      (cs pre : list Candle.t) (e e' : TradingEngine.t) :
  (forall pre c x x',
     P pre x -> TradingEngine.processOne c x = Ok x' -> P (pre ++ [c]) x') ->
  P pre e -> TradingEngine.loop cs e = Ok e' ->
  exists n : nat,
    (n <= List.length cs)%nat /\ P (pre ++ firstn n cs) e' /\
    (TradingEngine.session_active_ e' = true -> n = List.length cs).
Proof.
  intros Hstep. revert pre e. induction cs as [|c cs IH]; intros pre e HP H.
  - injection H as <-. exists 0%nat. cbn. rewrite app_nil_r. auto.
  - cbn [TradingEngine.loop] in H.
    destruct (TradingEngine.session_active_ e) eqn:Ea; cbn [negb] in H.
    + apply bind_Ok in H. destruct H as (e1 & H1 & H).
      destruct (IH (pre ++ [c]) e1 (Hstep _ _ _ _ HP H1) H) as (n & Hn & HPn & Hall).
      exists (S n). cbn [firstn List.length]. rewrite <- app_assoc in HPn.
      split; [lia|]. split; [exact HPn|]. intros Hs. rewrite (Hall Hs). reflexivity.
    + injection H as <-. exists 0%nat. cbn [firstn]. rewrite app_nil_r.
      split; [lia|]. split; [exact HP|]. congruence.
Qed.

Lemma run_steps (data : MarketData.t) (e' : TradingEngine.t) :
  TradingEngine.run (TradingEngine.new data) = Ok e' ->
  exists e1,
    TradingEngine.loop (MarketData.candles data)
                       (TradingEngine.start (TradingEngine.new data)) = Ok e1 /\
    ((Position.is_open (TradingEngine.position_ e1) = false /\ e' = e1) \/
     (Position.is_open (TradingEngine.position_ e1) = true /\
      MarketData.candles data <> [] /\
      e' = TradingEngine.closePosition (last (MarketData.candles data) Candle.default)
             "End of Market Data" e1)).
Proof.
  unfold TradingEngine.run. cbn [TradingEngine.new TradingEngine.market_data_].
  fold (TradingEngine.new data). intros H.
  apply bind_Ok in H. destruct H as (e1 & H1 & H). exists e1. split; [exact H1|].
  injection H as <-.
  destruct (Position.is_open (TradingEngine.position_ e1)) eqn:Eo; [right|left; auto].
  split; [reflexivity|].
  destruct (MarketData.candles data) as [|c rest] eqn:Ec.
  - rewrite (loop_nil_closed _ _ H1) in Eo. discriminate.
  - split; [discriminate|]. rewrite last_cons_default. reflexivity.
Qed.

Lemma closePosition_events (c : Candle.t) (reason : string) (e : TradingEngine.t) :
  Position.is_open (TradingEngine.position_ e) = true ->
  TradingEngine.console_ (TradingEngine.closePosition c reason e) =
    TradingEngine.console_ e ++ [LogExit (exit_trade c e) reason] /\
  TradingEngine.trade_log_ (TradingEngine.closePosition c reason e) =
    TradingEngine.trade_log_ e ++ [exit_trade c e].
Proof. intros Ho. unfold TradingEngine.closePosition. rewrite Ho. cbn. auto. Qed.

Lemma console_trades_app (l1 l2 : list Event) :
  console_trades (l1 ++ l2) = console_trades l1 ++ console_trades l2.
Proof. apply flat_map_app. Qed.

Lemma console_trades_status (status : list Event) :
  status_events status -> console_trades status = [].
Proof. intros []; reflexivity. Qed.

Lemma console_trades_step (c : Candle.t) (e : TradingEngine.t) (r : option ExitReason)
      (entry status : list Event) (a b : float) :
  status_events status ->
  console_trades (LogCandle c a b :: exit_events c e r ++ entry ++ status)
  = console_trades (exit_events c e r ++ entry).
Proof.
  intros Hs. change (console_trades (LogCandle c a b :: ?l)) with (console_trades l).
  rewrite !console_trades_app, (console_trades_status _ Hs), app_nil_r. reflexivity.
Qed.

(** X3.  The console mirrors the ledger.  After a run, the trade records
    printed by [logTrade] and [logExit], read in order, are exactly the trade
    log: every ENTRY record was printed as an executed trade, every EXIT
    record as a closed trade, and nothing else was printed as a trade. *)
Theorem console_mirrors_trade_log (data : MarketData.t) (e : TradingEngine.t) :
  TradingEngine.run (TradingEngine.new data) = Ok e ->
  console_trades (TradingEngine.console_ e) = TradingEngine.trade_log_ e /\
  entry_lines (TradingEngine.console_ e) = filter is_entry (TradingEngine.trade_log_ e) /\
  map fst (exit_lines (TradingEngine.console_ e)) = filter is_exit (TradingEngine.trade_log_ e).
Proof.
  intros Hrun.
  set (P := fun (_ : list Candle.t) (x : TradingEngine.t) =>
    console_trades (TradingEngine.console_ x) = TradingEngine.trade_log_ x /\
    entry_lines (TradingEngine.console_ x) = filter is_entry (TradingEngine.trade_log_ x) /\
    map fst (exit_lines (TradingEngine.console_ x)) = filter is_exit (TradingEngine.trade_log_ x)).
  destruct (run_steps _ _ Hrun) as (e1 & Hloop & Hend).
  assert (H1 : P [] e1).
  { refine (let H := loop_prefix P _ [] _ _ _ _ Hloop in
            match H with ex_intro _ n (conj _ (conj HP _)) => HP end).
    - intros pre c x x' (Hx1 & Hx2 & Hx3) Hstep.
      destruct (processOne_events _ _ _ Hstep) as (r & entry & status & _ & He & Hs & _ & Hc & Hl).
      unfold P. rewrite Hc, Hl.
      unfold entry_lines, exit_lines in *. rewrite !flat_map_app, !filter_app, map_app.
      rewrite console_trades_app, Hx1, Hx2, Hx3.
      rewrite (console_trades_step _ _ _ _ _ _ _ Hs).
      split; [reflexivity|].
      destruct r as [reason|]; destruct He; destruct Hs; cbn; auto.
    - unfold P. cbn. auto. }
  destruct Hend as [(_ & ->)|(Ho & _ & ->)]; [exact H1|].
  destruct H1 as (Hx1 & Hx2 & Hx3).
  destruct (closePosition_events (last (MarketData.candles data) Candle.default)
              "End of Market Data" e1 Ho) as (Hc & Hl).
  rewrite Hc, Hl. unfold entry_lines, exit_lines in *.
  rewrite console_trades_app, !flat_map_app, !filter_app, map_app, Hx1, Hx2, Hx3.
  cbn. rewrite app_nil_r. auto.
Qed.

Lemma ema_of_strategy_after (prev_close : float) (pre : list Candle.t) :
  let s := strategy_after pre
             (TwoCandelPatternStrategy.initialize prev_close TwoCandelPatternStrategy.new) in
  TwoCandelPatternStrategy.ema3_ s = feed (closes pre) (EMACalculator.new 3) /\
  TwoCandelPatternStrategy.ema5_ s = feed (closes pre) (EMACalculator.new 5).
Proof.
  induction pre as [|c pre IH] using rev_ind; [cbn; auto|].
  cbv zeta in *. rewrite strategy_after_snoc. unfold closes in *.
  rewrite map_app. unfold feed in *. rewrite !fold_left_app. cbn [map fold_left].
  destruct IH as (<- & <-). rewrite processCandle_cases. cbv zeta.
  repeat match goal with |- context [if ?b then _ else _] => destruct b end; cbn; auto.
Qed.

Lemma ema_lines_snoc (pre cs : list Candle.t) (c : Candle.t) :
  ema_lines pre (cs ++ [c]) = ema_lines pre cs ++ [ema_line (pre ++ cs) c].
Proof.
  revert pre. induction cs as [|d cs IH]; intros pre.
  - cbn. rewrite app_nil_r. reflexivity.
  - cbn [app ema_lines]. rewrite IH, <- app_assoc. reflexivity.
Qed.

Lemma candle_lines_step (c : Candle.t) (e : TradingEngine.t) (r : option ExitReason)
      (entry status : list Event) :
  entry_events c entry -> status_events status ->
  candle_lines (exit_events c e r ++ entry ++ status) = [] /\
  warmup_lines (exit_events c e r ++ entry ++ status) = [].
Proof. intros He Hs. destruct r; destruct He; destruct Hs; cbn; auto. Qed.

(** X4.  The candle lines of the console.  A run prints one candle line for
    each candle it processes, in order, and the two averages on the line are
    the EMA(3) and the EMA(5) of all closes up to and including that candle,
    the first of them being the first close itself; the warm-up line is never
    printed; and the run stops short of the last candle only when the
    session has ended. *)
Theorem candle_lines_report_emas (data : MarketData.t) (e : TradingEngine.t) :
  TradingEngine.run (TradingEngine.new data) = Ok e ->
  exists n : nat,
    (n <= List.length (MarketData.candles data))%nat /\
    candle_lines (TradingEngine.console_ e) = ema_lines [] (firstn n (MarketData.candles data)) /\
    warmup_lines (TradingEngine.console_ e) = [] /\
    ((n < List.length (MarketData.candles data))%nat ->
     TradingEngine.session_active_ e = false).
Proof.
  intros Hrun.
  set (init := TwoCandelPatternStrategy.initialize (MarketData.previous_day_close data)
                 TwoCandelPatternStrategy.new).
  set (P := fun (pre : list Candle.t) (x : TradingEngine.t) =>
    TradingEngine.strategy_ x = strategy_after pre init /\
    candle_lines (TradingEngine.console_ x) = ema_lines [] pre /\
    warmup_lines (TradingEngine.console_ x) = []).
  destruct (run_steps _ _ Hrun) as (e1 & Hloop & Hend).
  assert (H1 : exists n : nat,
            (n <= List.length (MarketData.candles data))%nat /\
            P (firstn n (MarketData.candles data)) e1 /\
            (TradingEngine.session_active_ e1 = true ->
             n = List.length (MarketData.candles data))).
  { apply (loop_prefix P (MarketData.candles data) []
             (TradingEngine.start (TradingEngine.new data)) e1); [| |exact Hloop].
    - intros pre c x x' (Hx1 & Hx2 & Hx3) Hstep.
      destruct (processOne_events _ _ _ Hstep) as (r & entry & status & _ & He & Hs & Hst & Hc & _).
      destruct (candle_lines_step c x r entry status He Hs) as (Hq1 & Hq2).
      unfold P. rewrite Hc, Hst, Hx1, <- strategy_after_snoc.
      split; [reflexivity|].
      unfold candle_lines, warmup_lines in *.
      rewrite !flat_map_app, Hx2, Hx3. cbn [flat_map app].
      rewrite Hq1, Hq2, ema_lines_snoc. cbn [app].
      split; [|reflexivity]. f_equal. f_equal. unfold ema_line.
      destruct (ema_of_strategy_after (MarketData.previous_day_close data) (pre ++ [c]))
        as (H3 & H5).
      fold init in H3, H5.
      unfold TwoCandelPatternStrategy.getEMA3, TwoCandelPatternStrategy.getEMA5.
      rewrite H3, H5. reflexivity.
    - unfold P. cbn. auto. }
  destruct H1 as (n & Hn & (_ & Hx2 & Hx3) & Hall). exists n. split; [exact Hn|].
  assert (Hact : (n < List.length (MarketData.candles data))%nat ->
                 TradingEngine.session_active_ e1 = false).
  { intros Hlt. destruct (TradingEngine.session_active_ e1); [|reflexivity].
    specialize (Hall eq_refl). lia. }
  destruct Hend as [(_ & ->)|(Ho & _ & ->)]; [auto|].
  destruct (closePosition_events (last (MarketData.candles data) Candle.default)
              "End of Market Data" e1 Ho) as (Hc & _).
  destruct (closePosition_open (last (MarketData.candles data) Candle.default)
              "End of Market Data" e1 Ho) as (_ & _ & Hsa & _).
  rewrite Hc. unfold candle_lines, warmup_lines in *.
  rewrite !flat_map_app, Hx2, Hx3. cbn. rewrite app_nil_r.
  repeat split; auto. intros Hlt. cbv zeta in Hsa. rewrite Hsa. auto.
Qed.

Lemma at_candle_close_incl (cs1 cs2 : list Candle.t) (t : Trade.t) :
  incl cs1 cs2 -> at_candle_close cs1 t -> at_candle_close cs2 t.
Proof. intros Hi (c & Hc & H). exists c. split; [apply Hi, Hc|exact H]. Qed.

Lemma firstn_incl {A : Type} (n : nat) (l : list A) : incl (firstn n l) l.
Proof.
  intros x Hx. rewrite <- (firstn_skipn n l). apply in_or_app. left. exact Hx.
Qed.

Lemma last_In {A : Type} (l : list A) (d : A) : l <> [] -> In (last l d) l.
Proof.
  induction l as [|x l IH]; [congruence|]. intros _.
  destruct l as [|y l]; [left; reflexivity|].
  right. apply IH. discriminate.
Qed.

(** X5.  Every trade is made at a candle of the data: each record of the
    final trade log carries the timestamp of one of the session's candles
    and that candle's close as its price. *)
Theorem trades_at_candle_closes (data : MarketData.t) (e : TradingEngine.t) :
  TradingEngine.run (TradingEngine.new data) = Ok e ->
  Forall (at_candle_close (MarketData.candles data)) (TradingEngine.trade_log_ e).
Proof.
  intros Hrun.
  set (P := fun (pre : list Candle.t) (x : TradingEngine.t) =>
    Forall (at_candle_close pre) (TradingEngine.trade_log_ x)).
  destruct (run_steps _ _ Hrun) as (e1 & Hloop & Hend).
  assert (H1 : Forall (at_candle_close (MarketData.candles data)) (TradingEngine.trade_log_ e1)).
  { assert (HP : exists n : nat, P (firstn n (MarketData.candles data)) e1).
    { refine (let H := loop_prefix P _ [] _ _ _ _ Hloop in
              match H with ex_intro _ n (conj _ (conj HP _)) => ex_intro _ n HP end). 
      all: cycle 1. { constructor. }
      intros pre c x x' Hx Hstep.
      destruct (processOne_events _ _ _ Hstep) as (r & entry & status & _ & He & _ & _ & _ & Hl).
      unfold P. rewrite Hl. apply Forall_app. split.
      + eapply Forall_impl; [|exact Hx]. intros t. apply at_candle_close_incl.
        intros y Hy. apply in_or_app. auto.
      + assert (Hc : In c (pre ++ [c])) by (apply in_or_app; right; left; reflexivity).
        rewrite console_trades_app. apply Forall_app. split.
        * destruct r; cbn; constructor; [|constructor]. exists c. cbn. auto.
        * destruct He; cbn; repeat constructor. exists c. cbn. auto. }
    destruct HP as (n & HP).
    eapply Forall_impl; [|exact HP]. intros t. apply at_candle_close_incl.
    apply firstn_incl. }
  destruct Hend as [(_ & ->)|(Ho & Hne & ->)]; [exact H1|].
  destruct (closePosition_events (last (MarketData.candles data) Candle.default)
              "End of Market Data" e1 Ho) as (_ & Hl).
  rewrite Hl. apply Forall_app. split; [exact H1|]. constructor; [|constructor].
  exists (last (MarketData.candles data) Candle.default).
  split; [apply last_In, Hne|]. cbn. auto.
Qed.

Lemma first_exit_condition_justified (data : MarketData.t) (cs : list Candle.t)
      (c : Candle.t) (e : TradingEngine.t) (reason : ExitReason) :
  Reachable data e ->
  first_exit_condition c e = Ok (Some reason) ->
  exit_justified (MarketData.capital data) cs (exit_trade c e, reason_text reason).
Proof.
  intros HR. destruct (Reachable_Inv _ _ HR) as [_ _ _ Hstop Htake _ _].
  unfold first_exit_condition, exit_justified.
  destruct (Position.is_open (TradingEngine.position_ e)); [|discriminate].
  unfold RiskManager.isStopLossHit, RiskManager.isTakeProfitHit.
  rewrite Hstop, Htake. cbn [exit_trade Trade.pnl Trade.type Trade.timestamp].
  set (u := Position.getUnrealizedPnL (Candle.close c) (TradingEngine.position_ e)).
  destruct (u <=? - (MarketData.capital data * 0.02))%float eqn:Es.
  { intros H. assert (reason = StopLoss) by congruence. subst.
    cbn [reason_text]. split; [reflexivity|left; auto]. }
  destruct (u >=? MarketData.capital data * 0.07)%float eqn:Et.
  { intros H. assert (reason = TakeProfit) by congruence. subst.
    cbn [reason_text]. split; [reflexivity|right; left; auto]. }
  destruct (TradingEngine.isPastMarketClose (Candle.timestamp c)) as [[|]|f] eqn:Ep;
    cbn [bind]; try discriminate.
  intros H. assert (reason = MarketClose) by congruence. subst.
  cbn [reason_text]. split; [reflexivity|right; right; left; auto].
Qed.

(** X6.  The reason printed with a closed trade is the rule that closed it.
    After a run on capital K, every closing line of the console carries an
    EXIT record, and its reason is "Stop Loss Hit" with PnL <= -(K*0.02), or
    "Take Profit Hit" with the stop-loss test false and PnL >= K*0.07, or
    "Market Close (15:00)" with both tests false and a timestamp at or past
    15:00, or "End of Market Data" at the close of the last candle. *)
Theorem exit_reasons_justified (data : MarketData.t) (e : TradingEngine.t) :
  TradingEngine.run (TradingEngine.new data) = Ok e ->
  Forall (exit_justified (MarketData.capital data) (MarketData.candles data))
         (exit_lines (TradingEngine.console_ e)).
Proof.
  intros Hrun.
  set (J := exit_justified (MarketData.capital data) (MarketData.candles data)).
  set (P := fun (_ : list Candle.t) (x : TradingEngine.t) =>
    Reachable data x /\ Forall J (exit_lines (TradingEngine.console_ x))).
  destruct (run_steps _ _ Hrun) as (e1 & Hloop & Hend).
  assert (H1 : P [] e1).
  { refine (let H := loop_prefix P _ [] _ _ _ _ Hloop in
            match H with ex_intro _ n (conj _ (conj HP _)) => HP end).
    - intros pre c x x' (HR & Hx) Hstep.
      split; [eapply Reachable_processOne; eassumption|].
      destruct (processOne_events _ _ _ Hstep) as (r & entry & status & Hr & He & Hs & _ & Hc & _).
      rewrite Hc. unfold exit_lines in *. rewrite flat_map_app. apply Forall_app.
      split; [exact Hx|]. cbn [flat_map app]. rewrite !flat_map_app.
      replace (flat_map _ entry) with (@nil (Trade.t * string)) by (destruct He; reflexivity).
      replace (flat_map _ status) with (@nil (Trade.t * string)) by (destruct Hs; reflexivity).
      rewrite !app_nil_r. destruct r as [reason|]; cbn; constructor; [|constructor].
      apply (first_exit_condition_justified data _ c x reason HR Hr).
    - split; [apply Reach_strategy, Reach_new|constructor]. }
  destruct Hend as [(_ & ->)|(Ho & Hne & ->)]; [apply H1|].
  destruct H1 as (_ & Hx).
  destruct (closePosition_events (last (MarketData.candles data) Candle.default)
              "End of Market Data" e1 Ho) as (Hc & _).
  rewrite Hc. unfold exit_lines in *. rewrite flat_map_app. apply Forall_app.
  split; [exact Hx|]. cbn. constructor; [|constructor].
  unfold J, exit_justified. cbn. split; [reflexivity|]. auto 10.
Qed.

Lemma exits_count_snoc (log : list Trade.t) (t : Trade.t) :
  exits_count (log ++ [t]) = exits_count log + (if is_exit t then 1 else 0).
Proof.
  unfold exits_count. rewrite filter_app, length_app. cbn [filter].
  destruct (is_exit t); cbn [List.length]; lia.
Qed.

Lemma Book_counts (log : list Trade.t) (pending : option Trade.t) :
  Book log pending ->
  entries_count log = exits_count log + match pending with Some _ => 1 | None => 0 end /\
  Z.of_nat (List.length log) = entries_count log + exits_count log.
Proof.
  induction 1 as [|log t HB IH Ht|log en ex HB IH Ht].
  - cbn. auto.
  - rewrite entries_count_snoc, exits_count_snoc, length_app. cbn [List.length].
    unfold is_entry, is_exit. rewrite Ht. lia.
  - rewrite entries_count_snoc, exits_count_snoc, length_app. cbn [List.length].
    unfold is_entry, is_exit. rewrite Ht. lia.
Qed.

Lemma run_closed (data : MarketData.t) (e : TradingEngine.t) :
  TradingEngine.run (TradingEngine.new data) = Ok e ->
  Position.is_open (TradingEngine.position_ e) = false.
Proof.
  intros Hrun. destruct (run_steps _ _ Hrun) as (e1 & _ & [(Ho & ->)|(Ho & _ & ->)]).
  - exact Ho.
  - apply closePosition_open, Ho.
Qed.

(** X7.  The counts of the summary.  After a run, "Total Trades" is the
    number of ENTRY records of the trade log and also the number of its EXIT
    records, the log holds exactly twice that many records, and that is at
    most two trades and four records. *)
Theorem summary_counts_round_trips (data : MarketData.t) (e : TradingEngine.t) :
  TradingEngine.run (TradingEngine.new data) = Ok e ->
  let n := sum_total_trades (printSummary e) in
  n = entries_count (sum_trade_log (printSummary e)) /\
  n = exits_count (sum_trade_log (printSummary e)) /\
  Z.of_nat (List.length (sum_trade_log (printSummary e))) = 2 * n /\
  0 <= n <= 2.
Proof.
  intros Hrun. cbv zeta.
  pose proof (run_closed _ _ Hrun) as Hclosed.
  destruct (Reachable_Inv _ _ (Reachable_run _ _ Hrun))
    as [(pending & HB & HH) _ _ _ _ Htr Hcap].
  rewrite (holds_closed _ _ HH Hclosed) in HB.
  destruct (Book_counts _ _ HB) as (H1 & H2).
  unfold printSummary, RiskManager.getTradesCount. cbn [sum_total_trades sum_trade_log].
  rewrite Htr in *. lia.
Qed.

Lemma stoi_fail (s : string) (f : failure) :
  stoi s = Fail f -> f = invalid_argument \/ f = out_of_range.
Proof.
  unfold stoi.
  destruct (match skip_spaces s with
            | String "-"%char r => (true, r)
            | String "+"%char r => (false, r)
            | _ => (false, skip_spaces s)
            end) as [negative s2].
  destruct (starts_with_digit s2); [|intros [= <-]; auto].
  destruct (in_int_range _); [discriminate|intros [= <-]; auto].
Qed.

Lemma stoi_digit_colon (a : nat) :
  (a < 10)%nat ->
  stoi (String (digit_char a) (String ":"%char EmptyString)) = Ok (Z.of_nat a).
Proof.
  intros Ha. do 10 (destruct a as [|a]; [reflexivity|]). lia.
Qed.

Lemma stoi_digit (a : nat) :
  (a < 10)%nat -> stoi (String (digit_char a) EmptyString) = Ok (Z.of_nat a).
Proof.
  intros Ha. do 10 (destruct a as [|a]; [reflexivity|]). lia.
Qed.

(** X8.  [parseTimeToMinutes] reads fixed columns.  It takes characters 0-1
    as the hours and characters 3-4 as the minutes: whatever character
    stands between them, and whatever follows, "HHxMM..." gives
    HH * 60 + MM.  An hour written with one digit shifts the columns:
    "H:MM" gives H * 60 plus the last digit only, so that "9:15" is read as
    09:05. *)
Theorem parseTimeToMinutes_fixed_columns (a b c d : nat) (sep : ascii) (rest : string) :
  (a < 10)%nat -> (b < 10)%nat -> (c < 10)%nat -> (d < 10)%nat ->
  TradingEngine.parseTimeToMinutes
    (String (digit_char a) (String (digit_char b) (String sep
       (String (digit_char c) (String (digit_char d) rest)))))
  = Ok (Z.of_nat ((10 * a + b) * 60 + (10 * c + d))) /\
  TradingEngine.parseTimeToMinutes
    (String (digit_char a) (String ":"%char
       (String (digit_char c) (String (digit_char d) EmptyString))))
  = Ok (Z.of_nat (a * 60 + d)).
Proof.
  intros Ha Hb Hc Hd. unfold TradingEngine.parseTimeToMinutes, substr. split.
  - cbn [String.length Nat.ltb Nat.leb substring bind].
    replace (substring 0 0 rest) with EmptyString by (destruct rest; reflexivity).
    rewrite (stoi_two_digits _ _ Ha Hb). cbn [bind].
    rewrite (stoi_two_digits _ _ Hc Hd). cbn [bind]. f_equal. lia.
  - cbn [String.length Nat.ltb Nat.leb substring bind].
    rewrite (stoi_digit_colon _ Ha). cbn [bind].
    rewrite (stoi_digit _ Hd). cbn [bind]. f_equal. lia.
Qed.

(** X9.  A timestamp of fewer than four characters makes
    [parseTimeToMinutes] throw: [std::invalid_argument] from [std::stoi] when
    a field has no digits, [std::out_of_range] from [substr] when the string
    ends before column 3. *)
Theorem parseTimeToMinutes_short_throws (time_str : string) :
  (String.length time_str <= 3)%nat ->
  exists f, TradingEngine.parseTimeToMinutes time_str = Fail f /\
            (f = invalid_argument \/ f = out_of_range).
Proof.
  intros Hlen. unfold TradingEngine.parseTimeToMinutes, substr.
  change (Nat.ltb (String.length time_str) 0) with false. cbv iota. cbn [bind].
  destruct (stoi (substring 0 2 time_str)) as [h|f] eqn:Eh; cbn [bind].
  2:{ exists f. split; [reflexivity|]. apply (stoi_fail _ _ Eh). }
  destruct time_str as [|c0 [|c1 [|c2 [|c3 r]]]]; cbn in Hlen; try lia; cbn; eauto.
Qed.

(** The sign of a quotient and of its integer part. *)
Lemma SFtrunc_finish_negative (M E q : Z) :
  SFtrunc (finish true M E) = Some q -> q <= 0.
Proof.
  unfold finish. destruct M as [|m|m]; [intros [= <-]; lia| |discriminate].
  destruct (E <=? emax - prec); [|discriminate].
  cbv [SFtrunc]. intros [= <-].
  destruct E as [|p|p].
  - rewrite Z.shiftl_0_r. lia.
  - pose proof (proj2 (Z.shiftl_nonneg (Zpos m) (Zpos p)) ltac:(lia)). lia.
  - pose proof (proj2 (Z.shiftr_nonneg (Zpos m) (Zpos p)) ltac:(lia)). lia.
Qed.

Lemma SFdiv_finite_signed (sx sy : bool) (mc : positive) (ec : Z) (mp : positive) (ep : Z) :
  exists M E,
    SFdiv prec emax (S754_finite sx mc ec) (S754_finite sy mp ep)
    = finish (xorb sx sy) M E.
Proof.
  pose proof (div_exp_le mc ec mp ep) as Hle.
  pose proof (div_num_pos mc ec mp ep) as Hpos.
  eexists. eexists.
  rewrite <- (binary_round_aux_closed (xorb sx sy) (div_num mc ec mp ep) (Zpos mp)
                (div_exp mc ec mp ep)) by lia.
  unfold SFdiv, SFdiv_core_binary. cbn [Zdigits2].
  change (fexp prec emax (Zpos (digits2_pos mc) + ec - (Zpos (digits2_pos mp) + ep)))
    with (fexp64 (Zpos (digits2_pos mc) + ec - (Zpos (digits2_pos mp) + ep))).
  fold (div_exp mc ec mp ep).
  assert (Hm : match ec - ep - div_exp mc ec mp ep with
               | 0 => Zpos mc
               | Zpos _ => Z.shiftl (Zpos mc) (ec - ep - div_exp mc ec mp ep)
               | Zneg _ => 0
               end = div_num mc ec mp ep).
  { unfold div_num. destruct (ec - ep - div_exp mc ec mp ep) as [|s|s] eqn:Es; [| |lia].
    - rewrite Z.pow_0_r, Z.mul_1_r. reflexivity.
    - rewrite Z.shiftl_mul_pow2 by lia. reflexivity. }
  rewrite Hm.
  unfold Z.div, Z.modulo.
  destruct (Z.div_eucl (div_num mc ec mp ep) (Zpos mp)) as [q r] eqn:Ed.
  rewrite new_location_locr; [reflexivity|lia|].
  pose proof (Z.mod_pos_bound (div_num mc ec mp ep) (Zpos mp) ltac:(lia)) as Hr.
  unfold Z.modulo in Hr. rewrite Ed in Hr. exact Hr.
Qed.

Lemma SFdiv_trunc_nonpos (K p : spec_float) (q : Z) :
  SFleb K SFzero = true -> SFleb p SFzero = false ->
  SFtrunc (SFdiv prec emax K p) = Some q -> q <= 0.
Proof.
  intros HK Hp.
  destruct K as [sk|[|]| |[|] mk ek]; try discriminate HK;
    destruct p as [sp|[|]| |[|] mp ep]; try discriminate Hp;
    try (cbn; discriminate); try (cbn; intros [= <-]; lia).
  destruct (SFdiv_finite_signed true false mk ek mp ep) as (M & E & ->).
  apply SFtrunc_finish_negative.
Qed.

Lemma calculatePositionSize_nonpos (p : float) (r : RiskManager.t) (q : Z) :
  (RiskManager.current_capital_ r <=? 0)%float = true ->
  RiskManager.calculatePositionSize p r = Ok q -> q <= 0.
Proof.
  intros HK H.
  destruct (p <=? 0)%float eqn:Ep.
  - unfold RiskManager.calculatePositionSize in H. rewrite Ep in H. injection H as <-. lia.
  - destruct (calculatePositionSize_positive _ _ _ Ep H) as (Ht & _).
    unfold trunc_float in Ht. rewrite div_spec in Ht.
    rewrite leb_spec, Prim2SF_zero in HK, Ep.
    exact (SFdiv_trunc_nonpos _ _ _ HK Ep Ht).
Qed.

Lemma checkExitConditions_closed (c : Candle.t) (e : TradingEngine.t) :
  Position.is_open (TradingEngine.position_ e) = false ->
  TradingEngine.checkExitConditions c e = Ok e.
Proof. intros Ho. unfold TradingEngine.checkExitConditions. rewrite Ho. reflexivity. Qed.

(** X10.  No capital, no trade.  An engine built on a capital of zero or
    less never opens a position: whatever the candles, a run that completes
    leaves the trade log empty and the capital as it was, and the summary
    counts no trade. *)
Theorem no_capital_no_trade (data : MarketData.t) (e : TradingEngine.t) :
  (MarketData.capital data <=? 0)%float = true ->
  TradingEngine.run (TradingEngine.new data) = Ok e ->
  TradingEngine.trade_log_ e = [] /\
  sum_total_trades (printSummary e) = 0 /\
  sum_final_capital (printSummary e) = MarketData.capital data.
Proof.
  intros HK Hrun.
  set (P := fun (_ : list Candle.t) (x : TradingEngine.t) =>
    TradingEngine.trade_log_ x = [] /\
    Position.is_open (TradingEngine.position_ x) = false /\
    TradingEngine.risk_manager_ x = RiskManager.new (MarketData.capital data)).
  destruct (run_steps _ _ Hrun) as (e1 & Hloop & Hend).
  assert (H1 : P [] e1).
  { refine (let H := loop_prefix P _ [] _ _ _ _ Hloop in
            match H with ex_intro _ n (conj _ (conj HP _)) => HP end).
    - intros pre c x x' (Hl & Ho & Hr) Hstep.
      destruct (processOne_steps _ _ _ Hstep)
        as (x1 & x2 & x3 & (_ & Hp1 & Hr1 & Hl1 & _) & Hx & Hn & (_ & Hl' & Hp' & Hr' & _)).
      cbv zeta in Hn.
      rewrite checkExitConditions_closed in Hx by congruence. injection Hx as <-.
      assert (H3 : TradingEngine.trade_log_ x3 = TradingEngine.trade_log_ x1 /\
                   TradingEngine.position_ x3 = TradingEngine.position_ x1 /\
                   TradingEngine.risk_manager_ x3 = TradingEngine.risk_manager_ x1).
      { destruct (snd _ && TradingEngine.session_active_ x1); [|subst x3; auto].
        apply executeSellOrder_cases in Hn. cbn in Hn.
        destruct Hn as (_ & _ & [H|(en & _ & _ & Hq & Hpos & _)]); [exact H|].
        exfalso. apply calculatePositionSize_nonpos in Hq; [lia|].
        rewrite Hr1, Hr. exact HK. }
      destruct H3 as (H31 & H32 & H33). unfold P.
      repeat split; congruence.
    - unfold P. cbn. auto. }
  destruct H1 as (Hl & Ho & Hr).
  destruct Hend as [(_ & ->)|(Ho' & _)]; [|congruence].
  unfold printSummary, RiskManager.getTradesCount, RiskManager.getCurrentCapital.
  cbn [sum_total_trades sum_final_capital]. rewrite Hr, Hl. cbn. auto.
Qed.

(* ================================================================== *)
(** * Properties of the parser and of the program *)

Lemma get_Some_lt (s : string) (pos : nat) (c : ascii) :
  String.get pos s = Some c -> (pos < String.length s)%nat.
Proof.
  revert pos. induction s as [|a s IH]; intros pos; cbn; [discriminate|].
  destruct pos as [|pos]; [lia|]. intros H. apply IH in H. lia.
Qed.

Lemma get_None_ge (s : string) (pos : nat) :
  String.get pos s = None -> (String.length s <= pos)%nat.
Proof.
  revert pos. induction s as [|a s IH]; intros pos; cbn; [lia|].
  destruct pos as [|pos]; [discriminate|]. intros H. apply IH in H. lia.
Qed.

Lemma rest_from_0 (s : string) : rest_from s 0 = s.
Proof. destruct s; reflexivity. Qed.

Lemma get_rest_from (s : string) (pos : nat) :
  String.get pos s = match rest_from s pos with
                     | String c _ => Some c
                     | EmptyString => None
                     end.
Proof.
  revert pos. induction s as [|a s IH]; intros [|pos]; cbn; auto.
Qed.

Lemma rest_from_step (s : string) (pos : nat) (c : ascii) (r : string) :
  rest_from s pos = String c r -> rest_from s (S pos) = r.
Proof.
  revert pos. induction s as [|a s IH]; intros [|pos]; cbn; try discriminate.
  - intros [= _ <-]. apply rest_from_0.
  - apply IH.
Qed.

Lemma rest_from_end (s : string) (pos : nat) :
  rest_from s pos = EmptyString -> rest_from s (S pos) = EmptyString.
Proof.
  revert pos. induction s as [|a s IH]; intros [|pos]; cbn; try discriminate; auto.
Qed.

Lemma rest_from_length (s : string) (pos : nat) :
  String.length (rest_from s pos) = (String.length s - pos)%nat.
Proof.
  revert pos. induction s as [|a s IH]; intros [|pos]; cbn; auto.
Qed.

Lemma fine_bind {A B : Type} (stod : string -> result float) (U O : Prop)
      (Q : A -> Prop) (R : B -> Prop) (r : outcome A) (k : A -> outcome B) :
  fine stod U O Q r -> (forall a, Q a -> fine stod U O R (k a)) ->
  fine stod U O R (and_then r k).
Proof. destruct r; cbn; auto. Qed.

Lemma fine_weaken {A : Type} (stod : string -> result float) (U O : Prop)
      (Q Q' : A -> Prop) (r : outcome A) :
  fine stod U O Q r -> (forall a, Q a -> Q' a) -> fine stod U O Q' r.
Proof. destruct r; cbn; auto. Qed.

Lemma fine_over {A : Type} (stod : string -> result float) (U O O' : Prop)
      (Q : A -> Prop) (r : outcome A) :
  (O -> O') -> fine stod U O Q r -> fine stod U O' Q r.
Proof. destruct r; cbn; auto. Qed.

Section InBounds.
Variable stod : string -> result float.
Variable content_ : string.

Local Abbreviation L := (String.length content_).
Local Abbreviation ok := (fine stod (ascii_text content_ = false)).
Local Abbreviation opens := (fun pos => count_open (rest_from content_ pos)).

(** The opening brackets still to come get fewer as the cursor moves on, by
    one at each opening bracket. *)
Lemma opens_step (pos : nat) : (opens (S pos) <= opens pos)%nat.
Proof.
  cbv beta. destruct (rest_from content_ pos) as [|c r] eqn:E.
  - rewrite (rest_from_end _ _ E). lia.
  - rewrite (rest_from_step _ _ _ _ E). cbn. lia.
Qed.

Lemma opens_mono (pos p : nat) : (pos <= p)%nat -> (opens p <= opens pos)%nat.
Proof.
  induction 1 as [|p Hp IH]; [lia|]. pose proof (opens_step p). cbv beta in *. lia.
Qed.

Lemma opens_bracket (pos : nat) (c : ascii) :
  String.get pos content_ = Some c -> opening c = true ->
  (S (opens (S pos)) <= opens pos)%nat.
Proof.
  cbv beta. rewrite get_rest_from. destruct (rest_from content_ pos) as [|c' r] eqn:E;
    [discriminate|].
  intros [= ->] Hc. rewrite (rest_from_step _ _ _ _ E). cbn. rewrite Hc. lia.
Qed.

Lemma fine_later {A : Type} (stack : option nat) (pos p : nat) (Q : A -> Prop)
      (r : outcome A) :
  (pos <= p)%nat -> ok (over content_ stack p) Q r -> ok (over content_ stack pos) Q r.
Proof.
  intros Hp. apply fine_over. intros (n & Hn & Hle). exists n. split; [exact Hn|].
  pose proof (opens_mono pos p Hp). cbv beta in *. lia.
Qed.

(** A call of [skipValue] that is made after an opening bracket has the
    room of one frame less and one bracket less to come. *)
Lemma fine_enter {A : Type} (stack inner : option nat) (pos p1 p2 : nat) (c : ascii)
      (Q : A -> Prop) (r : outcome A) :
  enter stack = Some inner -> String.get p1 content_ = Some c -> opening c = true ->
  (pos <= p1)%nat -> (p1 < p2)%nat ->
  ok (over content_ inner p2) Q r -> ok (over content_ stack pos) Q r.
Proof.
  intros He Hg Hc H1 H2. apply fine_over. intros (n & Hn & Hle). subst inner.
  destruct stack as [[|m]|]; try discriminate. injection He as ->.
  exists (S n). split; [reflexivity|].
  pose proof (opens_bracket p1 c Hg Hc). pose proof (opens_mono pos p1 H1).
  pose proof (opens_mono (S p1) p2 H2). cbv beta in *. lia.
Qed.

Lemma over_full (stack : option nat) (pos : nat) :
  enter stack = None -> over content_ stack pos.
Proof.
  destruct stack as [[|m]|]; try discriminate. intros _. exists 0%nat. split; [reflexivity|lia].
Qed.

Lemma negative_in_text (pos : nat) (c : ascii) :
  String.get pos content_ = Some c -> negative_char c = true -> ascii_text content_ = false.
Proof.
  unfold ascii_text. generalize content_. intros s. revert pos.
  induction s as [|a s IH]; intros pos; cbn; [discriminate|].
  destruct pos as [|pos].
  - intros [= ->] ->. reflexivity.
  - intros Hg Hc. rewrite (IH pos Hg Hc). apply andb_false_r.
Qed.

Lemma skipWhitespace_loop_bounds (fuel pos : nat) :
  (pos <= L)%nat ->
  (pos <= SimpleJSONParser.skipWhitespace_loop content_ fuel pos <= L)%nat.
Proof.
  revert pos. induction fuel as [|fuel IH]; intros pos Hp; cbn; [lia|].
  destruct (String.get pos content_) as [c|] eqn:E; [|lia].
  destruct (SimpleJSONParser.is_blank c); [|lia].
  apply get_Some_lt in E. specialize (IH (S pos)). lia.
Qed.

Lemma skipWhitespace_bounds (pos : nat) :
  (pos <= L)%nat -> (pos <= SimpleJSONParser.skipWhitespace content_ pos <= L)%nat.
Proof. apply skipWhitespace_loop_bounds. Qed.

Lemma parseNumber_loop_fine {O : Prop} (fuel pos : nat) :
  (pos <= L)%nat ->
  ok O (fun p => pos <= p <= L)%nat (SimpleJSONParser.parseNumber_loop content_ fuel pos).
Proof.
  revert pos. induction fuel as [|fuel IH]; intros pos Hp; cbn; [lia|].
  destruct (String.get pos content_) as [c|] eqn:E; [|cbn; lia].
  unfold std_isdigit. destruct (negative_char c) eqn:En; cbn [and_then].
  { right. split; [reflexivity|apply (negative_in_text pos c E En)]. }
  destruct (isdigit c || Ascii.eqb c "."); [|cbn; lia].
  apply get_Some_lt in E. eapply fine_weaken; [apply (IH (S pos)); lia|].
  cbn. intros. lia.
Qed.

Lemma skipValue_scalar_bounds (fuel pos : nat) :
  (pos <= L)%nat ->
  (pos <= SimpleJSONParser.skipValue_scalar content_ fuel pos <= L)%nat.
Proof.
  revert pos. induction fuel as [|fuel IH]; intros pos Hp; cbn; [lia|].
  destruct (String.get pos content_) as [c|] eqn:E; [|lia].
  destruct (negb _ && negb _ && negb _); [|lia].
  apply get_Some_lt in E. specialize (IH (S pos)). lia.
Qed.

Lemma parseString_loop_bounds (fuel pos : nat) (result : string) :
  (pos <= L)%nat ->
  (pos <= fst (SimpleJSONParser.parseString_loop content_ fuel pos result) <= L)%nat.
Proof.
  revert pos result. induction fuel as [|fuel IH]; intros pos result Hp; cbn; [lia|].
  destruct (String.get pos content_) as [c|] eqn:E; [|cbn; lia].
  apply get_Some_lt in E.
  destruct (Ascii.eqb c quote); [cbn; lia|].
  destruct (Ascii.eqb c backslash).
  - destruct (String.get (S pos) content_) as [c'|] eqn:E'; [|cbn; lia].
    apply get_Some_lt in E'. specialize (IH (S (S pos)) (result ++ String c' "")%string). lia.
  - specialize (IH (S pos) (result ++ String c "")%string). lia.
Qed.

Lemma read_in_bounds (pos : nat) :
  (pos <= L)%nat -> exists c, SimpleJSONParser.read content_ pos = Returns c.
Proof.
  intros Hp. unfold SimpleJSONParser.read.
  destruct (String.get pos content_) as [c|] eqn:E; [eauto|].
  apply get_None_ge in E. replace (pos =? L)%nat with true; [eauto|].
  symmetry. apply Nat.eqb_eq. lia.
Qed.

Lemma read_get (pos : nat) (c : ascii) :
  SimpleJSONParser.read content_ pos = Returns c -> c <> NUL ->
  String.get pos content_ = Some c.
Proof.
  unfold SimpleJSONParser.read.
  destruct (String.get pos content_) as [c'|] eqn:E.
  - intros [= <-] _. reflexivity.
  - destruct (pos =? L)%nat; [|discriminate]. intros [= <-] H. congruence.
Qed.

Lemma read_character (pos : nat) (c : ascii) :
  SimpleJSONParser.read content_ pos = Returns c -> c <> NUL -> (pos < L)%nat.
Proof. intros H Hc. apply (get_Some_lt _ _ c). apply (read_get _ _ H Hc). Qed.

Lemma eqb_not_NUL (c d : ascii) : Ascii.eqb c d = true -> d <> NUL -> c <> NUL.
Proof. intros H Hd. apply Ascii.eqb_eq in H. congruence. Qed.

Lemma expect_fine {O : Prop} (c : ascii) (pos : nat) :
  In c ["{"; "}"; "["; "]"; ":"; ","]%char ->
  (pos <= L)%nat ->
  ok O (fun p => pos < p <= L)%nat (SimpleJSONParser.expect content_ c pos).
Proof.
  intros Hc Hp. unfold SimpleJSONParser.expect.
  pose proof (skipWhitespace_bounds pos Hp) as Hw.
  destruct (String.get _ content_) as [c'|] eqn:E; [|constructor; exact Hc].
  apply get_Some_lt in E.
  destruct (Ascii.eqb c' c); cbn; [lia|constructor; exact Hc].
Qed.

Lemma expect_char (c : ascii) (pos p : nat) :
  SimpleJSONParser.expect content_ c pos = Returns p ->
  exists p0, p = S p0 /\ String.get p0 content_ = Some c.
Proof.
  unfold SimpleJSONParser.expect.
  destruct (String.get _ content_) as [c'|] eqn:E; [|discriminate].
  destruct (Ascii.eqb c' c) eqn:Ec; [|discriminate]. intros [= <-].
  apply Ascii.eqb_eq in Ec. subst c'. eauto.
Qed.

Lemma parseString_fine {O : Prop} (pos : nat) :
  (pos <= L)%nat ->
  ok O (fun r => pos + 2 <= snd r <= L)%nat (SimpleJSONParser.parseString content_ pos).
Proof.
  intros Hp. unfold SimpleJSONParser.parseString.
  pose proof (skipWhitespace_bounds pos Hp) as Hw.
  set (p1 := SimpleJSONParser.skipWhitespace content_ pos) in *.
  destruct (read_in_bounds p1 ltac:(lia)) as (c & Hc). rewrite Hc. cbn [and_then].
  destruct (Ascii.eqb c quote) eqn:Eq; cbn [negb]; [|constructor].
  pose proof (read_character _ _ Hc (eqb_not_NUL _ _ Eq ltac:(discriminate))) as Hlt.
  pose proof (parseString_loop_bounds (L - S p1) (S p1) "" ltac:(lia)) as Hl.
  destruct (SimpleJSONParser.parseString_loop content_ (L - S p1) (S p1) "") as [p2 result].
  cbn [fst] in Hl.
  destruct (L <=? p2)%nat eqn:El; [constructor|].
  apply Nat.leb_gt in El. cbn. lia.
Qed.

Lemma substr_in_bounds (start len : nat) :
  (start <= L)%nat -> exists s, substr content_ start len = Ok s.
Proof.
  intros H. unfold substr. replace (Nat.ltb L start) with false; [eauto|].
  symmetry. apply Nat.ltb_ge. exact H.
Qed.

Lemma parseNumber_fine {O : Prop} (pos : nat) :
  (pos <= L)%nat ->
  ok O (fun r => pos <= snd r <= L)%nat (SimpleJSONParser.parseNumber stod content_ pos).
Proof.
  intros Hp. unfold SimpleJSONParser.parseNumber.
  pose proof (skipWhitespace_bounds pos Hp) as Hw.
  set (p1 := SimpleJSONParser.skipWhitespace content_ pos) in *.
  destruct (read_in_bounds p1 ltac:(lia)) as (c & Hc). rewrite Hc. cbn [and_then].
  set (p2 := if Ascii.eqb c "-" then S p1 else p1).
  assert (H2 : (p1 <= p2 <= L)%nat).
  { unfold p2. destruct (Ascii.eqb c "-") eqn:Eq; [|lia].
    pose proof (read_character _ _ Hc (eqb_not_NUL _ _ Eq ltac:(discriminate))). lia. }
  eapply fine_bind; [apply (parseNumber_loop_fine (L - p2) p2); lia|].
  intros p3 H3; cbn beta in H3.
  destruct (substr_in_bounds p1 (p3 - p1) ltac:(lia)) as (num & ->). cbn [library and_then].
  destruct (stod num) as [d|f] eqn:Ed; cbn; [lia|eauto].
Qed.

Lemma skipValue_fine (fuel : nat) :
  forall stack pos, (pos <= L)%nat ->
    ((2 * (L - pos) + 2 <= fuel)%nat ->
     ok (over content_ stack pos) (fun p => pos <= p <= L)%nat
        (SimpleJSONParser.skipValue content_ stack fuel pos)) /\
    ((2 * (L - pos) + 3 <= fuel)%nat ->
     ok (over content_ stack pos) (fun p => pos <= p <= L)%nat
        (SimpleJSONParser.skipValue_members content_ stack fuel pos)) /\
    ((2 * (L - pos) + 3 <= fuel)%nat ->
     ok (over content_ stack pos) (fun p => pos <= p <= L)%nat
        (SimpleJSONParser.skipValue_elements content_ stack fuel pos)).
Proof.
  induction fuel as [|fuel IH]; intros stack pos Hp; [repeat split; lia|].
  split; [|split]; intros Hf.
  - cbn [SimpleJSONParser.skipValue].
    destruct (enter stack) as [inner|] eqn:Ee; [|apply (over_full _ _ Ee)].
    pose proof (skipWhitespace_bounds pos Hp) as Hw.
    set (p1 := SimpleJSONParser.skipWhitespace content_ pos) in *.
    destruct (read_in_bounds p1 ltac:(lia)) as (c & Hc). rewrite Hc. cbn [and_then].
    destruct (Ascii.eqb c quote).
    { eapply fine_bind; [apply (parseString_fine p1); lia|].
      intros [s p] Hs. cbn in *. lia. }
    destruct (Ascii.eqb c "{") eqn:Eo.
    { pose proof (read_get _ _ Hc (eqb_not_NUL _ _ Eo ltac:(discriminate))) as Hg.
      pose proof (get_Some_lt _ _ _ Hg) as Hlt.
      pose proof (skipWhitespace_bounds (S p1) ltac:(lia)) as Hw2.
      set (p2 := SimpleJSONParser.skipWhitespace content_ (S p1)) in *.
      destruct (read_in_bounds p2 ltac:(lia)) as (c2 & Hc2). rewrite Hc2. cbn [and_then].
      eapply fine_bind with (Q := (fun p => p2 <= p <= L)%nat).
      - destruct (negb (Ascii.eqb c2 "}")); [|cbn; lia].
        apply (fine_enter stack inner pos p1 p2 c _ _ Ee Hg);
          [unfold opening; rewrite Eo; reflexivity|lia|lia|].
        apply (IH inner p2 ltac:(lia)). lia.
      - intros p Hq; cbn beta in Hq. eapply fine_weaken; [apply expect_fine; [cbn; auto|lia]|].
        cbn. intros. lia. }
    destruct (Ascii.eqb c "[") eqn:Ea.
    { pose proof (read_get _ _ Hc (eqb_not_NUL _ _ Ea ltac:(discriminate))) as Hg.
      pose proof (get_Some_lt _ _ _ Hg) as Hlt.
      pose proof (skipWhitespace_bounds (S p1) ltac:(lia)) as Hw2.
      set (p2 := SimpleJSONParser.skipWhitespace content_ (S p1)) in *.
      destruct (read_in_bounds p2 ltac:(lia)) as (c2 & Hc2). rewrite Hc2. cbn [and_then].
      eapply fine_bind with (Q := (fun p => p2 <= p <= L)%nat).
      - destruct (negb (Ascii.eqb c2 "]")); [|cbn; lia].
        apply (fine_enter stack inner pos p1 p2 c _ _ Ee Hg);
          [unfold opening; rewrite Ea; apply orb_true_r|lia|lia|].
        apply (IH inner p2 ltac:(lia)). lia.
      - intros p Hq; cbn beta in Hq. eapply fine_weaken; [apply expect_fine; [cbn; auto 10|lia]|].
        cbn. intros. lia. }
    cbn. pose proof (skipValue_scalar_bounds (L - p1) p1 ltac:(lia)). lia.
  - cbn [SimpleJSONParser.skipValue_members].
    eapply fine_bind; [apply (parseString_fine pos Hp)|].
    intros [s p1] H1. cbn [snd] in H1.
    eapply fine_bind; [apply (expect_fine ":" p1); [cbn; auto 10|lia]|].
    intros p2 H2; cbn beta in H2.
    eapply fine_bind with (Q := (fun p => p2 <= p <= L)%nat).
    { apply (fine_later stack pos p2); [lia|]. apply (IH stack p2 ltac:(lia)). lia. }
    intros p3 H3; cbn beta in H3.
    pose proof (skipWhitespace_bounds p3 ltac:(lia)) as Hw.
    set (p4 := SimpleJSONParser.skipWhitespace content_ p3) in *.
    destruct (read_in_bounds p4 ltac:(lia)) as (c & Hc). rewrite Hc. cbn [and_then].
    destruct (Ascii.eqb c "}"); [cbn; lia|].
    eapply fine_bind; [apply (expect_fine "," p4); [cbn; auto 10|lia]|].
    intros p5 H5; cbn beta in H5. apply (fine_later stack pos p5); [lia|].
    eapply fine_weaken; [apply (IH stack p5 ltac:(lia)); lia|].
    cbn. intros. lia.
  - cbn [SimpleJSONParser.skipValue_elements].
    eapply fine_bind with (Q := (fun p => pos <= p <= L)%nat).
    { apply (IH stack pos Hp). lia. }
    intros p3 H3; cbn beta in H3.
    pose proof (skipWhitespace_bounds p3 ltac:(lia)) as Hw.
    set (p4 := SimpleJSONParser.skipWhitespace content_ p3) in *.
    destruct (read_in_bounds p4 ltac:(lia)) as (c & Hc). rewrite Hc. cbn [and_then].
    destruct (Ascii.eqb c "]"); [cbn; lia|].
    eapply fine_bind; [apply (expect_fine "," p4); [cbn; auto 10|lia]|].
    intros p5 H5; cbn beta in H5. apply (fine_later stack pos p5); [lia|].
    eapply fine_weaken; [apply (IH stack p5 ltac:(lia)); lia|].
    cbn. intros. lia.
Qed.

Lemma skipValue_enough (stack : option nat) (pos : nat) :
  (pos <= L)%nat ->
  ok (over content_ stack pos) (fun p => pos <= p <= L)%nat
     (SimpleJSONParser.skipValue content_ stack
        (SimpleJSONParser.skipValue_fuel content_ pos) pos).
Proof.
  intros Hp. apply (skipValue_fine _ stack pos Hp). unfold SimpleJSONParser.skipValue_fuel. lia.
Qed.

Ltac number_member :=
  eapply fine_bind; [apply parseNumber_fine; assumption|];
  let d := fresh "d" in let p := fresh "p" in let H := fresh "H" in
  intros [d p] H; exact H.

Lemma parseCandle_member_fine (stack : option nat) (key : string) (candle : Candle.t)
      (pos : nat) :
  (pos <= L)%nat ->
  ok (over content_ stack pos) (fun r => pos <= snd r <= L)%nat
     (SimpleJSONParser.parseCandle_member stod stack content_ key candle pos).
Proof.
  intros Hp. unfold SimpleJSONParser.parseCandle_member.
  destruct (String.eqb key "timestamp").
  { eapply fine_bind; [apply parseString_fine; assumption|].
    intros [s p] H. cbn in *. lia. }
  do 4 (match goal with |- context [if ?b then _ else _] => destruct b end;
        [number_member|]).
  eapply fine_bind; [apply skipValue_enough; assumption|].
  intros p H. exact H.
Qed.

Lemma parseCandle_loop_fine (stack : option nat) (fuel : nat) :
  forall candle pos, (pos <= L)%nat -> (L - pos < fuel)%nat ->
    ok (over content_ stack pos) (fun r => pos <= snd r <= L)%nat
       (SimpleJSONParser.parseCandle_loop stod stack content_ fuel candle pos).
Proof.
  induction fuel as [|fuel IH]; intros candle pos Hp Hf; [lia|].
  cbn [SimpleJSONParser.parseCandle_loop].
  pose proof (skipWhitespace_bounds pos Hp) as Hw.
  set (p1 := SimpleJSONParser.skipWhitespace content_ pos) in *.
  destruct (read_in_bounds p1 ltac:(lia)) as (c & Hc). rewrite Hc. cbn [and_then].
  destruct (Ascii.eqb c "}"); [cbn; lia|].
  eapply fine_bind; [apply (parseString_fine p1); lia|].
  intros [key p2] H2. cbn [snd] in H2.
  eapply fine_bind; [apply (expect_fine ":" p2); [cbn; auto 10|lia]|].
  intros p3 H3; cbn beta in H3.
  eapply fine_bind;
    [apply (fine_later stack pos p3); [lia|];
     apply (parseCandle_member_fine stack key candle p3); lia|].
  intros [candle' p4] H4. cbn [snd] in H4.
  pose proof (skipWhitespace_bounds p4 ltac:(lia)) as Hw5.
  set (p5 := SimpleJSONParser.skipWhitespace content_ p4) in *.
  destruct (read_in_bounds p5 ltac:(lia)) as (c5 & Hc5). rewrite Hc5. cbn [and_then].
  destruct (Ascii.eqb c5 "}"); [cbn; lia|].
  eapply fine_bind; [apply (expect_fine "," p5); [cbn; auto 10|lia]|].
  intros p6 H6; cbn beta in H6. apply (fine_later stack pos p6); [lia|].
  eapply fine_weaken; [apply IH; lia|].
  intros [x p]. cbn. lia.
Qed.

Lemma parseCandle_fine (stack : option nat) (pos : nat) :
  (pos <= L)%nat ->
  ok (over content_ stack pos) (fun r => pos < snd r <= L)%nat
     (SimpleJSONParser.parseCandle stod stack content_ pos).
Proof.
  intros Hp. unfold SimpleJSONParser.parseCandle.
  eapply fine_bind; [apply (expect_fine "{" pos); [cbn; auto|lia]|].
  intros p1 H1; cbn beta in H1.
  eapply fine_bind;
    [apply (fine_later stack pos p1); [lia|];
     apply (parseCandle_loop_fine stack _ Candle.default p1);
       [lia|unfold SimpleJSONParser.loop_fuel; lia]|].
  intros [candle p2] H2. cbn [snd] in H2.
  eapply fine_bind; [apply (expect_fine "}" p2); [cbn; auto|lia]|].
  intros p3 H3; cbn beta in H3. cbn. lia.
Qed.

Lemma parse_candles_fine (stack : option nat) (fuel : nat) :
  forall candles pos, (pos <= L)%nat -> (L - pos < fuel)%nat ->
    ok (over content_ stack pos) (fun r => pos <= snd r <= L)%nat
       (SimpleJSONParser.parse_candles stod stack content_ fuel candles pos).
Proof.
  induction fuel as [|fuel IH]; intros candles pos Hp Hf; [lia|].
  cbn [SimpleJSONParser.parse_candles].
  eapply fine_bind; [apply (parseCandle_fine stack pos Hp)|].
  intros [candle p1] H1. cbn [snd] in H1.
  pose proof (skipWhitespace_bounds p1 ltac:(lia)) as Hw.
  set (p2 := SimpleJSONParser.skipWhitespace content_ p1) in *.
  destruct (read_in_bounds p2 ltac:(lia)) as (c & Hc). rewrite Hc. cbn [and_then].
  destruct (Ascii.eqb c "]"); [cbn; lia|].
  eapply fine_bind; [apply (expect_fine "," p2); [cbn; auto 10|lia]|].
  intros p3 H3; cbn beta in H3. apply (fine_later stack pos p3); [lia|].
  eapply fine_weaken; [apply IH; lia|].
  intros [x p]. cbn. lia.
Qed.

Lemma parse_member_fine (stack : option nat) (key : string) (data : MarketData.t)
      (pos : nat) :
  (pos <= L)%nat ->
  ok (over content_ stack pos) (fun r => pos <= snd r <= L)%nat
     (SimpleJSONParser.parse_member stod stack content_ key data pos).
Proof.
  intros Hp. unfold SimpleJSONParser.parse_member.
  destruct (String.eqb key "instrument").
  { eapply fine_bind; [apply parseString_fine; assumption|].
    intros [s p] H. cbn in *. lia. }
  do 2 (match goal with |- context [if ?b then _ else _] => destruct b end;
        [number_member|]).
  destruct (String.eqb key "candles").
  { eapply fine_bind; [apply (expect_fine "[" pos); [cbn; auto|lia]|].
    intros p1 H1; cbn beta in H1.
    pose proof (skipWhitespace_bounds p1 ltac:(lia)) as Hw.
    set (p2 := SimpleJSONParser.skipWhitespace content_ p1) in *.
    destruct (read_in_bounds p2 ltac:(lia)) as (c & Hc). rewrite Hc. cbn [and_then].
    eapply fine_bind with (Q := (fun r => p2 <= snd r <= L)%nat).
    - destruct (negb (Ascii.eqb c "]")); [|cbn; lia].
      apply (fine_later stack pos p2); [lia|].
      apply parse_candles_fine; [lia|unfold SimpleJSONParser.loop_fuel; lia].
    - intros [candles p3] H3. cbn [snd] in H3.
      eapply fine_bind; [apply (expect_fine "]" p3); [cbn; auto 10|lia]|].
      intros p4 H4; cbn beta in H4. cbn. lia. }
  eapply fine_bind; [apply skipValue_enough; assumption|].
  intros p H. exact H.
Qed.

Lemma parse_loop_fine (stack : option nat) (fuel : nat) :
  forall data pos, (pos <= L)%nat -> (L - pos < fuel)%nat ->
    ok (over content_ stack pos) (fun r => pos <= snd r <= L)%nat
       (SimpleJSONParser.parse_loop stod stack content_ fuel data pos).
Proof.
  induction fuel as [|fuel IH]; intros data pos Hp Hf; [lia|].
  cbn [SimpleJSONParser.parse_loop].
  pose proof (skipWhitespace_bounds pos Hp) as Hw.
  set (p1 := SimpleJSONParser.skipWhitespace content_ pos) in *.
  destruct (read_in_bounds p1 ltac:(lia)) as (c & Hc). rewrite Hc. cbn [and_then].
  destruct (Ascii.eqb c "}"); [cbn; lia|].
  eapply fine_bind; [apply (parseString_fine p1); lia|].
  intros [key p2] H2. cbn [snd] in H2.
  eapply fine_bind; [apply (expect_fine ":" p2); [cbn; auto 10|lia]|].
  intros p3 H3; cbn beta in H3.
  eapply fine_bind;
    [apply (fine_later stack pos p3); [lia|];
     apply (parse_member_fine stack key data p3); lia|].
  intros [data' p4] H4. cbn [snd] in H4.
  pose proof (skipWhitespace_bounds p4 ltac:(lia)) as Hw5.
  set (p5 := SimpleJSONParser.skipWhitespace content_ p4) in *.
  destruct (read_in_bounds p5 ltac:(lia)) as (c5 & Hc5). rewrite Hc5. cbn [and_then].
  destruct (Ascii.eqb c5 "}"); [cbn; lia|].
  eapply fine_bind; [apply (expect_fine "," p5); [cbn; auto 10|lia]|].
  intros p6 H6; cbn beta in H6. apply (fine_later stack pos p6); [lia|].
  eapply fine_weaken; [apply IH; lia|].
  intros [x p]. cbn. lia.
Qed.

(** After the opening brace of the document one bracket less is to come. *)
Lemma over_document (stack : option nat) (p0 : nat) :
  String.get p0 content_ = Some "{"%char ->
  over content_ stack (S p0) ->
  exists n, stack = Some n /\ (n < count_open content_)%nat.
Proof.
  intros Hg (n & Hn & Hle). exists n. split; [exact Hn|].
  pose proof (opens_bracket p0 _ Hg eq_refl). pose proof (opens_mono 0 p0 ltac:(lia)).
  cbv beta in *. rewrite rest_from_0 in *. lia.
Qed.

End InBounds.

Lemma parse_fine (stod : string -> result float) (stack : option nat)
      (json_content : string) :
  fine stod (ascii_text json_content = false)
       (exists n, stack = Some n /\ (n < count_open json_content)%nat)
       (fun _ => True) (SimpleJSONParser.parse stod stack json_content).
Proof.
  unfold SimpleJSONParser.parse.
  pose proof (@expect_fine stod json_content False "{" 0%nat ltac:(cbn; auto) ltac:(lia))
    as H0.
  destruct (SimpleJSONParser.expect json_content "{" 0) as [p1| | | |] eqn:E0;
    cbn [and_then]; cbn [fine] in H0 |- *; try assumption; try contradiction.
  destruct (expect_char json_content _ _ _ E0) as (p0 & -> & Hg).
  apply (fine_over stod _ (over json_content stack (S p0)));
    [apply (over_document json_content stack p0 Hg)|].
  eapply fine_bind;
    [apply (parse_loop_fine stod json_content stack _ default_market_data (S p0));
       [lia|unfold SimpleJSONParser.loop_fuel; lia]|].
  intros [data p2] H2. cbn [snd] in H2.
  eapply fine_bind; [apply (expect_fine stod json_content "}" p2); [cbn; auto|lia]|].
  intros p3 H3; cbn beta in H3. exact I.
Qed.


Lemma rest_from_app (s : string) (pos : nat) (a b : string) :
  rest_from s pos = (a ++ b)%string -> rest_from s (pos + String.length a) = b.
Proof.
  revert pos. induction a as [|c a IH]; intros pos H; cbn in *.
  - rewrite Nat.add_0_r. exact H.
  - rewrite Nat.add_succ_r. apply (IH (S pos)). apply (rest_from_step _ _ _ _ H).
Qed.

Lemma length_append (a b : string) :
  String.length (a ++ b) = (String.length a + String.length b)%nat.
Proof. induction a as [|c a IH]; cbn; auto. Qed.

Lemma append_assoc (a b c : string) : ((a ++ b) ++ c = a ++ (b ++ c))%string.
Proof. induction a as [|x a IH]; cbn; [reflexivity|]. rewrite IH. reflexivity. Qed.

Lemma append_nil_r (a : string) : (a ++ "")%string = a.
Proof. induction a as [|x a IH]; cbn; [reflexivity|]. rewrite IH. reflexivity. Qed.

Section Tokens.
Variable stod : string -> result float.
Variable content_ : string.

Local Abbreviation L := (String.length content_).
Local Abbreviation rest := (rest_from content_).

Lemma get_of_rest (pos : nat) (c : ascii) (r : string) :
  rest pos = String c r -> String.get pos content_ = Some c.
Proof. intros H. rewrite get_rest_from, H. reflexivity. Qed.

Lemma get_of_rest_end (pos : nat) :
  rest pos = EmptyString -> String.get pos content_ = None.
Proof. intros H. rewrite get_rest_from, H. reflexivity. Qed.

Lemma rest_in_bounds (pos : nat) (c : ascii) (r : string) :
  rest pos = String c r -> (pos < L)%nat.
Proof. intros H. apply (get_Some_lt _ _ c). apply (get_of_rest _ _ _ H). Qed.

Lemma read_of_rest (pos : nat) (c : ascii) (r : string) :
  rest pos = String c r -> SimpleJSONParser.read content_ pos = Returns c.
Proof. intros H. unfold SimpleJSONParser.read. rewrite (get_of_rest _ _ _ H). reflexivity. Qed.

(** A cursor loop run on no less fuel than there are characters left stops
    where the loop of the source stops. *)
Lemma skipWhitespace_loop_spec (w r : string) :
  forall fuel pos,
    rest pos = (w ++ r)%string -> blanks w = true -> stops SimpleJSONParser.is_blank r = true ->
    (String.length (w ++ r) <= fuel)%nat ->
    SimpleJSONParser.skipWhitespace_loop content_ fuel pos = (pos + String.length w)%nat.
Proof.
  induction w as [|c w IH]; intros fuel pos Hr Hw Hs Hf; cbn [append String.length] in *.
  - rewrite Nat.add_0_r. destruct fuel as [|fuel]; [reflexivity|]. cbn.
    destruct r as [|c r].
    + rewrite (get_of_rest_end _ Hr). reflexivity.
    + rewrite (get_of_rest _ _ _ Hr). cbn in Hs. apply negb_true_iff in Hs. rewrite Hs.
      reflexivity.
  - destruct fuel as [|fuel]; [lia|]. cbn.
    rewrite (get_of_rest _ _ _ Hr). cbn in Hw. apply andb_true_iff in Hw.
    destruct Hw as (Hc & Hw). rewrite Hc.
    rewrite (IH fuel (S pos) (rest_from_step _ _ _ _ Hr) Hw Hs ltac:(lia)). lia.
Qed.

Lemma skipWhitespace_spec (w r : string) (pos : nat) :
  rest pos = (w ++ r)%string -> blanks w = true -> stops SimpleJSONParser.is_blank r = true ->
  SimpleJSONParser.skipWhitespace content_ pos = (pos + String.length w)%nat.
Proof.
  intros Hr Hw Hs. unfold SimpleJSONParser.skipWhitespace.
  apply (skipWhitespace_loop_spec w r); auto.
  rewrite <- Hr, rest_from_length. lia.
Qed.

Lemma skipWhitespace_none (r : string) (pos : nat) :
  rest pos = r -> stops SimpleJSONParser.is_blank r = true ->
  SimpleJSONParser.skipWhitespace content_ pos = pos.
Proof.
  intros Hr Hs. rewrite (skipWhitespace_spec "" r pos Hr eq_refl Hs). cbn. lia.
Qed.

Lemma expect_spec (c : ascii) (w r : string) (pos : nat) :
  rest pos = (w ++ String c r)%string -> blanks w = true ->
  SimpleJSONParser.is_blank c = false ->
  SimpleJSONParser.expect content_ c pos = Returns (pos + String.length w + 1)%nat /\
  rest (pos + String.length w + 1) = r.
Proof.
  intros Hr Hw Hc. unfold SimpleJSONParser.expect.
  rewrite (skipWhitespace_spec w (String c r) pos Hr Hw) by (cbn; rewrite Hc; reflexivity).
  pose proof (rest_from_app _ _ _ _ Hr) as Hr'.
  rewrite (get_of_rest _ _ _ Hr'), Ascii.eqb_refl.
  split; [f_equal; lia|]. rewrite Nat.add_1_r. apply (rest_from_step _ _ _ _ Hr').
Qed.

Lemma expect_other (c : ascii) (w r : string) (pos : nat) :
  rest pos = (w ++ r)%string -> blanks w = true ->
  stops (fun c' => SimpleJSONParser.is_blank c' || Ascii.eqb c' c) r = true ->
  SimpleJSONParser.expect content_ c pos = Throws (SimpleJSONParser.expected c).
Proof.
  intros Hr Hw Hs. unfold SimpleJSONParser.expect.
  assert (Hs' : stops SimpleJSONParser.is_blank r = true).
  { destruct r as [|c' r]; [reflexivity|]. cbn in *.
    apply negb_true_iff in Hs. apply orb_false_iff in Hs. destruct Hs as (-> & _). reflexivity. }
  rewrite (skipWhitespace_spec w r pos Hr Hw Hs').
  pose proof (rest_from_app _ _ _ _ Hr) as Hr'.
  destruct r as [|c' r].
  - rewrite (get_of_rest_end _ Hr'). reflexivity.
  - rewrite (get_of_rest _ _ _ Hr'). cbn in Hs.
    apply negb_true_iff in Hs. apply orb_false_iff in Hs. destruct Hs as (_ & ->). reflexivity.
Qed.

Lemma parseString_loop_spec (n : nat) :
  forall raw r fuel pos acc,
    (String.length raw <= n)%nat ->
    rest pos = (raw ++ String quote r)%string -> quotable raw = true ->
    (String.length raw < fuel)%nat ->
    SimpleJSONParser.parseString_loop content_ fuel pos acc
    = ((pos + String.length raw)%nat, (acc ++ unescape raw)%string).
Proof.
  induction n as [|n IH]; intros raw r fuel pos acc Hn Hr Hq Hf.
  - destruct raw; [|cbn in Hn; lia]. cbn [append String.length unescape] in *.
    rewrite Nat.add_0_r, append_nil_r. destruct fuel as [|fuel]; [lia|]. cbn.
    rewrite (get_of_rest _ _ _ Hr). change (Ascii.eqb quote quote) with true. reflexivity.
  - destruct raw as [|c raw].
    { cbn [append String.length unescape] in *.
      rewrite Nat.add_0_r, append_nil_r. destruct fuel as [|fuel]; [lia|]. cbn.
      rewrite (get_of_rest _ _ _ Hr). change (Ascii.eqb quote quote) with true. reflexivity. }
    destruct fuel as [|fuel]; [lia|].
    cbn [append String.length] in *. cbn [SimpleJSONParser.parseString_loop].
    rewrite (get_of_rest _ _ _ Hr).
    pose proof (rest_from_step _ _ _ _ Hr) as Hr1.
    cbn [quotable unescape] in *.
    destruct (Ascii.eqb c backslash) eqn:Eb.
    + destruct (Ascii.eqb c quote) eqn:Eq.
      { apply Ascii.eqb_eq in Eb, Eq. subst c. discriminate. }
      destruct raw as [|c' raw]; [discriminate|].
      cbn [append String.length] in *.
      rewrite (get_of_rest _ _ _ Hr1).
      rewrite (IH raw r fuel (S (S pos)) (acc ++ String c' "")%string);
        [|lia|apply (rest_from_step _ _ _ _ Hr1)|exact Hq|lia].
      f_equal; [lia|]. rewrite append_assoc. reflexivity.
    + apply andb_true_iff in Hq. destruct Hq as (Hq1 & Hq).
      apply negb_true_iff in Hq1. rewrite Hq1.
      rewrite (IH raw r fuel (S pos) (acc ++ String c "")%string);
        [|lia|exact Hr1|exact Hq|lia].
      f_equal; [lia|]. rewrite append_assoc. reflexivity.
Qed.

Lemma blank_not_quote : SimpleJSONParser.is_blank quote = false.
Proof. reflexivity. Qed.

Lemma parseString_spec (w raw r : string) (pos : nat) :
  rest pos = (w ++ String quote (raw ++ String quote r))%string ->
  blanks w = true -> quotable raw = true ->
  SimpleJSONParser.parseString content_ pos
    = Returns (unescape raw, (pos + String.length w + String.length raw + 2)%nat) /\
  rest (pos + String.length w + String.length raw + 2) = r.
Proof.
  intros Hr Hw Hq. unfold SimpleJSONParser.parseString.
  rewrite (skipWhitespace_spec w _ pos Hr Hw) by reflexivity.
  pose proof (rest_from_app _ _ _ _ Hr) as Hr1.
  rewrite (read_of_rest _ _ _ Hr1). cbn [and_then].
  change (Ascii.eqb quote quote) with true. cbn [negb].
  pose proof (rest_from_step _ _ _ _ Hr1) as Hr2.
  pose proof (rest_from_app _ _ _ _ Hr2) as Hr3.
  assert (Hlen : (String.length raw < L - S (pos + String.length w))%nat).
  { pose proof (rest_from_length content_ (S (pos + String.length w))) as Hl.
    rewrite Hr2, length_append in Hl. cbn in Hl. lia. }
  rewrite (parseString_loop_spec _ raw r _ _ "" (le_n _) Hr2 Hq Hlen).
  pose proof (rest_in_bounds _ _ _ Hr3) as Hb.
  replace (L <=? S (pos + String.length w) + String.length raw)%nat with false
    by (symmetry; apply Nat.leb_gt; exact Hb).
  cbn [append]. split.
  - f_equal. f_equal. lia.
  - replace (pos + String.length w + String.length raw + 2)%nat
      with (S (S (pos + String.length w) + String.length raw)) by lia.
    apply (rest_from_step _ _ _ _ Hr3).
Qed.

Lemma number_char_not_negative (c : ascii) :
  number_char c = true -> negative_char c = false.
Proof. destruct c as [[|] [|] [|] [|] [|] [|] [|] [|]]; vm_compute; congruence. Qed.

Lemma parseNumber_loop_spec (body r : string) :
  forall fuel pos,
    rest pos = (body ++ r)%string -> all_chars number_char body = true ->
    stops number_char r = true -> stops negative_char r = true ->
    (String.length (body ++ r) <= fuel)%nat ->
    SimpleJSONParser.parseNumber_loop content_ fuel pos
    = Returns (pos + String.length body)%nat.
Proof.
  induction body as [|c body IH]; intros fuel pos Hr Hb Hs Hn Hf;
    cbn [append String.length] in *.
  - rewrite Nat.add_0_r. destruct fuel as [|fuel]; [reflexivity|]. cbn.
    destruct r as [|c r].
    + rewrite (get_of_rest_end _ Hr). reflexivity.
    + rewrite (get_of_rest _ _ _ Hr). cbn in Hs, Hn. apply negb_true_iff in Hs, Hn.
      unfold std_isdigit. rewrite Hn. cbn [and_then].
      unfold number_char in Hs. rewrite Hs. reflexivity.
  - destruct fuel as [|fuel]; [lia|]. cbn.
    rewrite (get_of_rest _ _ _ Hr). cbn in Hb. apply andb_true_iff in Hb.
    destruct Hb as (Hc & Hb). unfold std_isdigit.
    rewrite (number_char_not_negative _ Hc). cbn [and_then].
    unfold number_char in Hc. rewrite Hc.
    rewrite (IH fuel (S pos) (rest_from_step _ _ _ _ Hr) Hb Hs Hn ltac:(lia)).
    f_equal. lia.
Qed.

Lemma substring_of_rest (s : string) (pos : nat) (a b : string) :
  rest_from s pos = (a ++ b)%string -> substring pos (String.length a) s = a.
Proof.
  revert pos. induction s as [|c s IH]; intros [|pos] H; cbn in *.
  - destruct a; [reflexivity|discriminate].
  - destruct a; [reflexivity|discriminate].
  - clear IH. revert c s H. induction a as [|x a IHa]; intros c s H; [reflexivity|].
    cbn in *. injection H as <- H. f_equal.
    destruct s as [|c' s].
    + destruct a; [reflexivity|discriminate].
    + apply IHa. exact H.
  - apply IH. exact H.
Qed.

Lemma number_token_not_blank (tok r : string) :
  number_token tok = true -> stops SimpleJSONParser.is_blank (tok ++ r) = true.
Proof.
  destruct tok as [|c tok]; [discriminate|]. cbn. intros H.
  apply andb_true_iff in H. destruct H as (H & _).
  apply negb_true_iff. revert H.
  destruct c as [[|] [|] [|] [|] [|] [|] [|] [|]]; vm_compute; congruence.
Qed.

Lemma parseNumber_spec (w tok r : string) (pos : nat) :
  rest pos = (w ++ tok ++ r)%string -> blanks w = true ->
  number_token tok = true -> number_end r = true ->
  SimpleJSONParser.parseNumber stod content_ pos
    = (let* d := library (stod tok) in
       Returns (d, (pos + String.length w + String.length tok)%nat)) /\
  rest (pos + String.length w + String.length tok) = r.
Proof.
  intros Hr Hw Ht Hs. unfold SimpleJSONParser.parseNumber.
  apply andb_true_iff in Hs. destruct Hs as (Hs & Hn).
  rewrite (skipWhitespace_spec w _ pos Hr Hw) by (apply number_token_not_blank; exact Ht).
  pose proof (rest_from_app _ _ _ _ Hr) as Hr1.
  set (p1 := (pos + String.length w)%nat) in *.
  assert (Hs' : stops number_char r = true).
  { destruct r as [|c r]; [reflexivity|]. cbn in *. apply negb_true_iff in Hs.
    unfold number_sign_or_char in Hs. apply orb_false_iff in Hs. destruct Hs as (_ & ->).
    reflexivity. }
  destruct tok as [|c tok]; [discriminate|].
  cbn [append] in Hr1. rewrite (read_of_rest _ _ _ Hr1). cbn [and_then].
  cbn [number_token] in Ht. apply andb_true_iff in Ht. destruct Ht as (Hc & Hb).
  pose proof (rest_from_step _ _ _ _ Hr1) as Hr2.
  assert (Hloop : SimpleJSONParser.parseNumber_loop content_
                    (L - (if Ascii.eqb c "-" then S p1 else p1))
                    (if Ascii.eqb c "-" then S p1 else p1)
                  = Returns (p1 + String.length (String c tok))%nat).
  { destruct (Ascii.eqb c "-") eqn:Em.
    - rewrite (parseNumber_loop_spec tok r _ _ Hr2 Hb Hs' Hn).
      + cbn. f_equal. lia.
      + rewrite <- Hr2, rest_from_length. lia.
    - cbn [orb] in Hc.
      rewrite (parseNumber_loop_spec (String c tok) r _ _ Hr1).
      + reflexivity.
      + cbn. rewrite Hc, Hb. reflexivity.
      + exact Hs'.
      + exact Hn.
      + pose proof (rest_from_length content_ p1) as Hl. rewrite Hr1 in Hl.
        cbn [append]. lia. }
  rewrite Hloop. cbn [and_then].
  unfold substr. pose proof (rest_in_bounds _ _ _ Hr1) as Hb1.
  replace (Nat.ltb L p1) with false by (symmetry; apply Nat.ltb_ge; lia).
  replace (p1 + String.length (String c tok) - p1)%nat with (String.length (String c tok))
    by lia.
  assert (Hr1' : rest p1 = (String c tok ++ r)%string) by exact Hr1.
  rewrite (substring_of_rest _ _ _ _ Hr1'). cbn [library and_then].
  split; [reflexivity|].
  apply (rest_from_app _ _ _ _ Hr1').
Qed.

End Tokens.

Lemma unescape_length (raw : string) :
  (String.length (unescape raw) <= String.length raw)%nat.
Proof.
  assert (H : forall n raw, (String.length raw <= n)%nat ->
                            (String.length (unescape raw) <= String.length raw)%nat).
  { induction n as [|n IH]; intros [|c r] Hn; cbn [String.length] in Hn; try (cbn; lia).
    cbn [unescape]. destruct (Ascii.eqb c backslash).
    - destruct r as [|c' r']; cbn [String.length] in *; [lia|].
      specialize (IH r' ltac:(lia)). lia.
    - cbn [String.length]. specialize (IH r ltac:(lia)). lia. }
  apply (H (String.length raw)). lia.
Qed.

Lemma unescape_plain (raw : string) :
  all_chars (fun c => negb (Ascii.eqb c backslash)) raw = true -> unescape raw = raw.
Proof.
  induction raw as [|c r IH]; cbn; [reflexivity|]. intros H.
  apply andb_true_iff in H. destruct H as (Hc & Hr). apply negb_true_iff in Hc.
  rewrite Hc, (IH Hr). reflexivity.
Qed.

(** X12.  [parseString] does not decode escapes.  It returns the text between
    the quotation marks with every backslash dropped and the character after
    it kept as it stands, an escaped quotation mark included (so backslash-n
    gives the letter n, not a line feed), and leaves the cursor after the
    closing quotation mark.  The result is never longer than the text, and a
    text without backslashes is returned as it is. *)
Theorem parseString_keeps_escaped_characters (content w raw r : string) (pos : nat) :
  rest_from content pos = (w ++ String quote (raw ++ String quote r))%string ->
  blanks w = true -> quotable raw = true ->
  exists p,
    SimpleJSONParser.parseString content pos = Returns (unescape raw, p) /\
    rest_from content p = r /\
    (String.length (unescape raw) <= String.length raw)%nat /\
    (all_chars (fun c => negb (Ascii.eqb c backslash)) raw = true -> unescape raw = raw).
Proof.
  intros Hr Hw Hq. destruct (parseString_spec content w raw r pos Hr Hw Hq) as (H1 & H2).
  eexists. split; [exact H1|]. split; [exact H2|].
  split; [apply unescape_length|apply unescape_plain].
Qed.

(** X13.  A document has to be an object.  When the first character of the
    text that is not white space is not an opening brace, and also when there
    is no such character (an empty file), [parse] throws "Expected '{'",
    whatever the room on the stack. *)
Theorem parse_requires_object (stod : string -> result float) (stack : option nat)
        (w r : string) :
  blanks w = true ->
  stops (fun c => SimpleJSONParser.is_blank c || Ascii.eqb c "{") r = true ->
  SimpleJSONParser.parse stod stack (w ++ r) = Throws "Expected '{'".
Proof.
  intros Hw Hs. unfold SimpleJSONParser.parse.
  rewrite (expect_other (w ++ r) "{" w r 0 (rest_from_0 _) Hw Hs). reflexivity.
Qed.

Lemma json_value_induction (P : json_value -> Prop) :
  (forall raw, P (JString raw)) ->
  (forall text, P (JScalar text)) ->
  (forall members, Forall (fun kv => P (snd kv)) members -> P (JObject members)) ->
  (forall elements, Forall P elements -> P (JArray elements)) ->
  forall v, P v.
Proof.
  intros HS HC HO HA. fix IH 1. intros [raw|text|members|elements].
  - apply HS.
  - apply HC.
  - apply HO. induction members as [|[k v] members IHm]; constructor; [apply IH|exact IHm].
  - apply HA. induction elements as [|v elements IHe]; constructor; [apply IH|exact IHe].
Qed.

Ltac flatten :=
  unfold punct, quoted in *;
  repeat first [rewrite !append_assoc in * | progress (cbn [append] in * )].

Lemma blank_is_no_number_char (c : ascii) :
  SimpleJSONParser.is_blank c = true -> number_sign_or_char c = false.
Proof. destruct c as [[|] [|] [|] [|] [|] [|] [|] [|]]; vm_compute; congruence. Qed.

Lemma blank_is_no_delimiter (c : ascii) :
  SimpleJSONParser.is_blank c = true -> not_delimiter c = true.
Proof. destruct c as [[|] [|] [|] [|] [|] [|] [|] [|]]; vm_compute; congruence. Qed.

Lemma delimiter_is_no_blank (c : ascii) :
  delimiter c = true -> SimpleJSONParser.is_blank c = false.
Proof. destruct c as [[|] [|] [|] [|] [|] [|] [|] [|]]; vm_compute; congruence. Qed.

Lemma delimiter_is_no_number_char (c : ascii) :
  delimiter c = true -> number_sign_or_char c = false.
Proof. destruct c as [[|] [|] [|] [|] [|] [|] [|] [|]]; vm_compute; congruence. Qed.

Lemma blank_is_not_negative (c : ascii) :
  SimpleJSONParser.is_blank c = true -> negative_char c = false.
Proof. destruct c as [[|] [|] [|] [|] [|] [|] [|] [|]]; vm_compute; congruence. Qed.

Lemma delimiter_is_not_negative (c : ascii) :
  delimiter c = true -> negative_char c = false.
Proof. destruct c as [[|] [|] [|] [|] [|] [|] [|] [|]]; vm_compute; congruence. Qed.

Lemma fits_le (stack : option nat) (a b : nat) :
  fits stack b -> (a <= b)%nat -> fits stack a.
Proof. destruct stack as [n|]; cbn; [lia|auto]. Qed.

Lemma fits_cons (stack : option nat) (a : nat) (l : list nat) :
  fits stack (list_max (a :: l)) -> fits stack a /\ fits stack (list_max l).
Proof.
  change (list_max (a :: l)) with (Nat.max a (list_max l)).
  intros H. split; apply (fits_le _ _ _ H); lia.
Qed.

Lemma enter_fits (stack : option nat) (d : nat) :
  fits stack (S d) -> exists inner, enter stack = Some inner /\ fits inner d.
Proof.
  destruct stack as [[|n]|]; cbn; intros H.
  - lia.
  - exists (Some n). split; [reflexivity|]. cbn. lia.
  - exists None. split; [reflexivity|exact I].
Qed.

Lemma all_chars_app (P : ascii -> bool) (a b : string) :
  all_chars P (a ++ b) = all_chars P a && all_chars P b.
Proof. induction a as [|c a IH]; cbn; [reflexivity|]. rewrite IH, andb_assoc. reflexivity. Qed.

Lemma all_chars_impl (P Q : ascii -> bool) (s : string) :
  (forall c, P c = true -> Q c = true) -> all_chars P s = true -> all_chars Q s = true.
Proof.
  intros H. induction s as [|c s IH]; cbn; [auto|]. intros Hs.
  apply andb_true_iff in Hs. destruct Hs as (Hc & Hs). rewrite (H _ Hc), (IH Hs). reflexivity.
Qed.

Lemma stops_after_blanks (P : ascii -> bool) (w : string) (d : ascii) (k : string) :
  blanks w = true -> (forall c, SimpleJSONParser.is_blank c = true -> P c = false) ->
  P d = false -> stops P (w ++ String d k) = true.
Proof.
  intros Hw Hb Hd. destruct w as [|c w]; cbn in *.
  - rewrite Hd. reflexivity.
  - apply andb_true_iff in Hw. destruct Hw as (Hc & _). rewrite (Hb _ Hc). reflexivity.
Qed.

Lemma length_join_more (sep x y : string) (l : list string) :
  String.length (join sep (x :: y :: l))
  = (String.length x + String.length sep + String.length (join sep (y :: l)))%nat.
Proof. cbn [join]. rewrite !length_append. lia. Qed.

Lemma length_punct (w : string) (c : ascii) :
  String.length (punct w c) = (String.length w + 1)%nat.
Proof. unfold punct. rewrite length_append. reflexivity. Qed.

Lemma length_quoted (w raw : string) :
  String.length (quoted w raw) = (String.length w + String.length raw + 2)%nat.
Proof. unfold quoted. rewrite length_append. cbn. rewrite length_append. cbn. lia. Qed.

Section Document.
Variable stod : string -> result float.
Variable content_ : string.
Variable w : string.
Hypothesis blanks_w : blanks w = true.

Local Abbreviation L := (String.length content_).
Local Abbreviation rest := (rest_from content_).

Lemma rest_bound (pos : nat) (a b : string) :
  rest pos = (a ++ b)%string -> (String.length a <= L - pos)%nat.
Proof.
  intros H. pose proof (rest_from_length content_ pos) as Hl.
  rewrite H, length_append in Hl. lia.
Qed.

(** A cursor loop stops at the end of the text or before a character of the
    other kind: the fuel it was given is not what stops it. *)
Lemma skipWhitespace_loop_exit (fuel pos : nat) :
  (L - pos <= fuel)%nat ->
  stops SimpleJSONParser.is_blank
        (rest (SimpleJSONParser.skipWhitespace_loop content_ fuel pos)) = true.
Proof.
  revert pos. induction fuel as [|fuel IH]; intros pos Hf; cbn.
  - pose proof (rest_from_length content_ pos) as Hl.
    destruct (rest pos); [reflexivity|cbn in Hl; lia].
  - rewrite get_rest_from. destruct (rest pos) as [|c r] eqn:Er.
    + rewrite Er. reflexivity.
    + destruct (SimpleJSONParser.is_blank c) eqn:Ec.
      * apply IH. lia.
      * rewrite Er. cbn. rewrite Ec. reflexivity.
Qed.

Lemma skipWhitespace_idempotent (pos : nat) :
  SimpleJSONParser.skipWhitespace content_ (SimpleJSONParser.skipWhitespace content_ pos)
  = SimpleJSONParser.skipWhitespace content_ pos.
Proof.
  pose proof (skipWhitespace_loop_exit (L - pos) pos (le_n _)) as H.
  fold (SimpleJSONParser.skipWhitespace content_ pos) in H.
  apply (skipWhitespace_none content_ _ _ eq_refl H).
Qed.

Lemma peek (pos : nat) (c : ascii) (k : string) :
  rest pos = (w ++ String c k)%string -> SimpleJSONParser.is_blank c = false ->
  rest (SimpleJSONParser.skipWhitespace content_ pos) = String c k /\
  SimpleJSONParser.read content_ (SimpleJSONParser.skipWhitespace content_ pos) = Returns c.
Proof.
  intros Hr Hc.
  rewrite (skipWhitespace_spec content_ w _ pos Hr blanks_w) by (cbn; rewrite Hc; reflexivity).
  pose proof (rest_from_app _ _ _ _ Hr) as Hr'.
  split; [exact Hr'|apply (read_of_rest _ _ _ _ Hr')].
Qed.

Lemma peek_here (pos : nat) (c : ascii) (k : string) :
  rest pos = String c k -> SimpleJSONParser.is_blank c = false ->
  SimpleJSONParser.skipWhitespace content_ pos = pos.
Proof.
  intros Hr Hc. apply (skipWhitespace_none content_ _ _ Hr). cbn. rewrite Hc. reflexivity.
Qed.

Lemma expect_at (c : ascii) (pos : nat) (k : string) :
  rest pos = (punct w c ++ k)%string -> SimpleJSONParser.is_blank c = false ->
  exists p, SimpleJSONParser.expect content_ c pos = Returns p /\ rest p = k.
Proof.
  intros Hr Hc. flatten.
  destruct (expect_spec content_ c w k pos Hr blanks_w Hc) as (H1 & H2). eauto.
Qed.

Lemma expect_here (c : ascii) (pos : nat) (k : string) :
  rest pos = String c k -> SimpleJSONParser.is_blank c = false ->
  exists p, SimpleJSONParser.expect content_ c pos = Returns p /\ rest p = k.
Proof.
  intros Hr Hc.
  destruct (expect_spec content_ c "" k pos Hr eq_refl Hc) as (H1 & H2). eauto.
Qed.

Lemma parseString_at (raw : string) (pos : nat) (k : string) :
  rest pos = (quoted w raw ++ k)%string -> quotable raw = true ->
  exists p, SimpleJSONParser.parseString content_ pos = Returns (unescape raw, p) /\
            rest p = k.
Proof.
  intros Hr Hq. flatten.
  destruct (parseString_spec content_ w raw k pos Hr blanks_w Hq) as (H1 & H2). eauto.
Qed.

Lemma parseString_here (raw : string) (pos : nat) (k : string) :
  rest pos = String quote (raw ++ String quote k) -> quotable raw = true ->
  exists p, SimpleJSONParser.parseString content_ pos = Returns (unescape raw, p) /\
            rest p = k.
Proof.
  intros Hr Hq.
  destruct (parseString_spec content_ "" raw k pos Hr eq_refl Hq) as (H1 & H2). eauto.
Qed.

Lemma parseNumber_at (tok : string) (pos : nat) (d : ascii) (k : string) :
  rest pos = (w ++ tok ++ w ++ String d k)%string -> number_token tok = true ->
  delimiter d = true ->
  exists p, SimpleJSONParser.parseNumber stod content_ pos
            = (let* x := library (stod tok) in Returns (x, p)) /\
            rest p = (w ++ String d k)%string.
Proof.
  intros Hr Ht Hd.
  destruct (parseNumber_spec stod content_ w tok _ pos Hr blanks_w Ht) as (H1 & H2).
  - unfold number_end. apply andb_true_iff. split; apply stops_after_blanks;
      auto using blank_is_no_number_char, delimiter_is_no_number_char,
                 blank_is_not_negative, delimiter_is_not_negative.
  - eauto.
Qed.

Lemma skipValue_scalar_spec (body k : string) :
  forall fuel pos,
    rest pos = (body ++ k)%string -> all_chars not_delimiter body = true ->
    stops not_delimiter k = true ->
    (String.length (body ++ k) <= fuel)%nat ->
    SimpleJSONParser.skipValue_scalar content_ fuel pos = (pos + String.length body)%nat.
Proof.
  induction body as [|c body IH]; intros fuel pos Hr Hb Hs Hf; cbn [append String.length] in *.
  - rewrite Nat.add_0_r. destruct fuel as [|fuel]; [reflexivity|]. cbn.
    destruct k as [|c k].
    + rewrite (get_of_rest_end _ _ Hr). reflexivity.
    + rewrite (get_of_rest _ _ _ _ Hr). cbn in Hs. apply negb_true_iff in Hs.
      unfold not_delimiter, delimiter in Hs. apply negb_false_iff in Hs.
      apply orb_true_iff in Hs. destruct Hs as [Hs|Hs];
        [apply orb_true_iff in Hs; destruct Hs as [Hs|Hs]|]; rewrite Hs;
        cbn; rewrite ?andb_false_r; reflexivity.
  - destruct fuel as [|fuel]; [lia|]. cbn.
    rewrite (get_of_rest _ _ _ _ Hr). cbn in Hb. apply andb_true_iff in Hb.
    destruct Hb as (Hc & Hb). unfold not_delimiter, delimiter in Hc.
    apply negb_true_iff in Hc. apply orb_false_iff in Hc. destruct Hc as (Hc & Hc3).
    apply orb_false_iff in Hc. destruct Hc as (Hc1 & Hc2). rewrite Hc1, Hc2, Hc3. cbn.
    rewrite (IH fuel (S pos) (rest_from_step _ _ _ _ Hr) Hb Hs ltac:(lia)). lia.
Qed.

Lemma scalar_start_facts (c : ascii) :
  scalar_start c = true ->
  SimpleJSONParser.is_blank c = false /\ Ascii.eqb c quote = false /\
  Ascii.eqb c "{" = false /\ Ascii.eqb c "[" = false /\ not_delimiter c = true /\
  Ascii.eqb c "]" = false /\ Ascii.eqb c "}" = false.
Proof. destruct c as [[|] [|] [|] [|] [|] [|] [|] [|]]; vm_compute; intuition congruence. Qed.

Lemma members_from_blank (stack : option nat) (fuel pos pos' : nat) :
  SimpleJSONParser.skipWhitespace content_ pos = SimpleJSONParser.skipWhitespace content_ pos' ->
  SimpleJSONParser.skipValue_members content_ stack fuel pos
  = SimpleJSONParser.skipValue_members content_ stack fuel pos'.
Proof.
  intros H. destruct fuel as [|fuel]; [reflexivity|].
  cbn [SimpleJSONParser.skipValue_members]. unfold SimpleJSONParser.parseString.
  rewrite H. reflexivity.
Qed.

Lemma elements_from_blank (stack : option nat) (fuel pos pos' : nat) :
  SimpleJSONParser.skipWhitespace content_ pos = SimpleJSONParser.skipWhitespace content_ pos' ->
  SimpleJSONParser.skipValue_elements content_ stack fuel pos
  = SimpleJSONParser.skipValue_elements content_ stack fuel pos'.
Proof.
  intros H. destruct fuel as [|fuel]; [reflexivity|].
  cbn [SimpleJSONParser.skipValue_elements].
  destruct fuel as [|fuel]; [reflexivity|].
  cbn [SimpleJSONParser.skipValue]. rewrite H. reflexivity.
Qed.

(** The start of a rendered value, after the blanks before it. *)
Lemma render_value_start (v : json_value) :
  skippable v = true ->
  exists c r, render_value w v = (w ++ String c r)%string /\
              SimpleJSONParser.is_blank c = false /\ Ascii.eqb c "]" = false.
Proof.
  destruct v as [raw|text|members|elements]; cbn [render_value skippable]; intros H.
  - eexists _, _. unfold quoted. split; [reflexivity|]. split; reflexivity.
  - destruct text as [|c r]; [discriminate|]. cbn in H. apply andb_true_iff in H.
    destruct H as (H & _). apply scalar_start_facts in H.
    exists c, r. intuition.
  - eexists _, _. flatten. split; [reflexivity|]. split; reflexivity.
  - eexists _, _. flatten. split; [reflexivity|]. split; reflexivity.
Qed.

Lemma skipValue_members_spec (inner : option nat) (ms : list (string * json_value)) :
  Forall (fun kv => skipValue_ok content_ w inner (snd kv)) ms ->
  forallb (fun kv => quotable (fst kv) && skippable (snd kv)) ms = true ->
  fits inner (list_max (map (fun kv => depth (snd kv)) ms)) ->
  ms <> [] ->
  forall fuel pos k,
    rest pos = (join (punct w ",") (map (member_text w) ms) ++ punct w "}" ++ k)%string ->
    (2 * String.length (join (punct w ",") (map (member_text w) ms)) + 3 <= fuel)%nat ->
    exists p, SimpleJSONParser.skipValue_members content_ inner fuel pos = Returns p /\
              rest p = String "}" k.
Proof.
  induction 1 as [|[key v] ms Hv Hms IH]; intros Hok Hfit Hne fuel pos k Hr Hf;
    [congruence|].
  cbn [map snd] in Hfit. apply fits_cons in Hfit. destruct Hfit as (Hfv & Hfit).
  cbn [forallb fst snd] in Hok. apply andb_true_iff in Hok. destruct Hok as (Hkv & Hok).
  apply andb_true_iff in Hkv. destruct Hkv as (Hkey & Hval).
  destruct fuel as [|fuel]; [lia|]. cbn [SimpleJSONParser.skipValue_members].
  cbn [map] in Hr, Hf. cbn [snd] in Hv.
  assert (Hlen : (String.length (member_text w (key, v))
                  = String.length w + String.length key + 2 + (String.length w + 1)
                    + String.length (render_value w v))%nat).
  { unfold member_text. cbn [fst snd]. rewrite !length_append, length_quoted, length_punct. lia. }
  destruct ms as [|m2 ms].
  - (* the last member *)
    cbn [join map] in Hr, Hf. unfold member_text in Hr. cbn [fst snd] in Hr.
    rewrite !append_assoc in Hr.
    destruct (parseString_at key pos _ Hr Hkey) as (p1 & -> & Hr1). cbn [and_then].
    destruct (expect_at ":" p1 _ Hr1 eq_refl) as (p2 & -> & Hr2). cbn [and_then].
    assert (Hr2' : rest p2 = (render_value w v ++ w ++ String "}" k)%string).
    { rewrite Hr2. unfold punct. rewrite !append_assoc. reflexivity. }
    destruct (Hv Hval Hfv fuel p2 "}"%char k Hr2' eq_refl ltac:(lia)) as (p3 & -> & Hr3).
    cbn [and_then].
    rewrite (read_of_rest _ _ _ _ Hr3). cbn [and_then].
    change (Ascii.eqb "}" "}") with true. cbv iota. eauto.
  - (* a member followed by others *)
    cbn [map] in Hf, Hr. rewrite length_join_more, length_punct in Hf.
    cbn [join map] in Hr. cbn [join map] in IH.
    set (more := match map (member_text w) ms with
                 | [] => member_text w m2
                 | _ :: _ => (member_text w m2 ++ punct w "," ++ join (punct w ",") (map (member_text w) ms))%string
                 end) in *.
    unfold member_text in Hr at 1. cbn [fst snd] in Hr.
    rewrite !append_assoc in Hr.
    destruct (parseString_at key pos _ Hr Hkey) as (p1 & -> & Hr1). cbn [and_then].
    destruct (expect_at ":" p1 _ Hr1 eq_refl) as (p2 & -> & Hr2). cbn [and_then].
    assert (Hr2' : rest p2 = (render_value w v ++ w ++ String ","
                                (more ++ punct w "}" ++ k))%string).
    { rewrite Hr2. unfold punct. rewrite !append_assoc. reflexivity. }
    destruct (Hv Hval Hfv fuel p2 ","%char _ Hr2' eq_refl ltac:(lia)) as (p3 & -> & Hr3).
    cbn [and_then].
    rewrite (read_of_rest _ _ _ _ Hr3). cbn [and_then].
    change (Ascii.eqb "," "}") with false. cbv iota.
    destruct (expect_here "," _ _ Hr3 eq_refl) as (p4 & -> & Hr4). cbn [and_then].
    apply (IH Hok Hfit ltac:(discriminate) fuel p4 k Hr4).
    change (join (punct w ",") (member_text w m2 :: map (member_text w) ms)) with more in Hf. lia.
Qed.

Lemma skipValue_elements_spec (inner : option nat) (es : list json_value) :
  Forall (skipValue_ok content_ w inner) es ->
  forallb skippable es = true ->
  fits inner (list_max (map depth es)) ->
  es <> [] ->
  forall fuel pos k,
    rest pos = (join (punct w ",") (map (render_value w) es) ++ punct w "]" ++ k)%string ->
    (2 * String.length (join (punct w ",") (map (render_value w) es)) + 3 <= fuel)%nat ->
    exists p, SimpleJSONParser.skipValue_elements content_ inner fuel pos = Returns p /\
              rest p = String "]" k.
Proof.
  induction 1 as [|v es Hv Hes IH]; intros Hok Hfit Hne fuel pos k Hr Hf; [congruence|].
  cbn [map] in Hfit. apply fits_cons in Hfit. destruct Hfit as (Hfv & Hfit).
  cbn [forallb] in Hok. apply andb_true_iff in Hok. destruct Hok as (Hval & Hok).
  destruct fuel as [|fuel]; [lia|]. cbn [SimpleJSONParser.skipValue_elements].
  cbn [map] in Hr, Hf.
  destruct es as [|v2 es].
  - cbn [join map] in Hr, Hf.
    assert (Hr' : rest pos = (render_value w v ++ w ++ String "]" k)%string).
    { rewrite Hr. unfold punct. rewrite !append_assoc. reflexivity. }
    destruct (Hv Hval Hfv fuel pos "]"%char k Hr' eq_refl ltac:(lia)) as (p3 & -> & Hr3).
    cbn [and_then].
    rewrite (read_of_rest _ _ _ _ Hr3). cbn [and_then].
    change (Ascii.eqb "]" "]") with true. cbv iota. eauto.
  - cbn [map] in Hf, Hr. rewrite length_join_more, length_punct in Hf.
    cbn [join map] in Hr. cbn [join map] in IH.
    set (more := match map (render_value w) es with
                 | [] => render_value w v2
                 | _ :: _ => (render_value w v2 ++ punct w "," ++ join (punct w ",") (map (render_value w) es))%string
                 end) in *.
    assert (Hr' : rest pos = (render_value w v ++ w ++ String ","
                                (more ++ punct w "]" ++ k))%string).
    { rewrite Hr. unfold punct. rewrite !append_assoc. reflexivity. }
    destruct (Hv Hval Hfv fuel pos ","%char _ Hr' eq_refl ltac:(lia)) as (p3 & -> & Hr3).
    cbn [and_then].
    rewrite (read_of_rest _ _ _ _ Hr3). cbn [and_then].
    change (Ascii.eqb "," "]") with false. cbv iota.
    destruct (expect_here "," _ _ Hr3 eq_refl) as (p4 & -> & Hr4). cbn [and_then].
    apply (IH Hok Hfit ltac:(discriminate) fuel p4 k Hr4).
    change (join (punct w ",") (render_value w v2 :: map (render_value w) es))
      with more in Hf. lia.
Qed.

Lemma skipValue_spec (v : json_value) :
  forall stack, skipValue_ok content_ w stack v.
Proof.
  induction v as [raw|text|members IHm|elements IHe] using json_value_induction;
    intros stack Hok Hfit fuel pos d k Hr Hd Hf;
    (destruct fuel as [|fuel]; [lia|]); cbn [SimpleJSONParser.skipValue];
    cbn [depth] in Hfit; destruct (enter_fits _ _ Hfit) as (inner & Hent & Hin);
    clear Hfit; rewrite Hent; cbv iota;
    pose proof (delimiter_is_no_blank _ Hd) as Hdb.
  - (* a string *)
    cbn [render_value skippable] in *. unfold quoted in Hr. rewrite !append_assoc in Hr.
    cbn [append] in Hr.
    destruct (peek pos _ _ Hr eq_refl) as (Hr1 & ->). cbn [and_then].
    change (Ascii.eqb quote quote) with true. cbv iota.
    rewrite append_assoc in Hr1. cbn [append] in Hr1.
    destruct (parseString_here raw _ _ Hr1 Hok) as (p2 & -> & Hr2). cbn [and_then].
    exists p2. split; [reflexivity|]. apply (peek p2 d k Hr2 Hdb).
  - (* a number, true, false, null *)
    cbn [render_value skippable] in *. destruct text as [|c r]; [discriminate|].
    cbn [scalar_text] in Hok. apply andb_true_iff in Hok. destruct Hok as (Hc & Hr0).
    destruct (scalar_start_facts c Hc) as (Hb & Hq & Ho & Ha & Hn & _).
    rewrite !append_assoc in Hr. cbn [append] in Hr.
    destruct (peek pos _ _ Hr Hb) as (Hr1 & ->). cbn [and_then].
    rewrite Hq, Ho, Ha.
    set (p1 := SimpleJSONParser.skipWhitespace content_ pos) in *.
    assert (Hr1' : rest p1 = ((String c r ++ w) ++ String d k)%string).
    { rewrite Hr1. rewrite append_assoc. reflexivity. }
    rewrite (skipValue_scalar_spec (String c r ++ w) (String d k) _ p1 Hr1').
    + eexists. split; [reflexivity|].
      pose proof (rest_from_app _ _ _ _ Hr1') as Hr2.
      rewrite (peek_here _ _ _ Hr2 Hdb). exact Hr2.
    + rewrite all_chars_app. cbn [all_chars]. rewrite Hn, Hr0. cbn.
      apply (all_chars_impl _ _ _ blank_is_no_delimiter blanks_w).
    + cbn. unfold not_delimiter. rewrite Hd. reflexivity.
    + rewrite <- Hr1', rest_from_length. lia.
  - (* an object *)
    cbn [render_value skippable] in *.
    change (fun kv => (quoted w (fst kv) ++ punct w ":" ++ render_value w (snd kv))%string)
      with (member_text w) in Hr, Hf.
    rewrite !length_append, !length_punct in Hf.
    unfold punct in Hr at 1. rewrite !append_assoc in Hr. cbn [append] in Hr.
    destruct (peek pos _ _ Hr eq_refl) as (Hr1 & ->). cbn [and_then].
    change (Ascii.eqb "{" quote) with false. change (Ascii.eqb "{" "{") with true. cbv iota.
    set (p1 := SimpleJSONParser.skipWhitespace content_ pos) in *.
    pose proof (rest_from_step _ _ _ _ Hr1) as Hr2.
    destruct members as [|m ms].
    + cbn [map join append] in Hr2. unfold punct in Hr2. rewrite !append_assoc in Hr2.
      cbn [append] in Hr2.
      destruct (peek (S p1) _ _ Hr2 eq_refl) as (Hr3 & ->). cbn [and_then].
      change (Ascii.eqb "}" "}") with true. cbn [negb and_then].
      destruct (expect_here "}" _ _ Hr3 eq_refl) as (p4 & -> & Hr4).
      exists p4. split; [reflexivity|]. apply (peek p4 d k Hr4 Hdb).
    + assert (Hstart : exists r0, rest (S p1) = (w ++ String quote r0)%string).
      { rewrite Hr2. cbn [map]. destruct (map (member_text w) ms); cbn [join];
          unfold member_text, quoted; rewrite !append_assoc; cbn [append]; eauto. }
      destruct Hstart as (r0 & Hstart).
      destruct (peek (S p1) _ _ Hstart eq_refl) as (_ & ->). cbn [and_then].
      change (Ascii.eqb quote "}") with false. cbn [negb].
      rewrite (members_from_blank inner fuel _ (S p1) (skipWhitespace_idempotent _)).
      rewrite <- !append_assoc in Hr2.
      assert (Hr2' : rest (S p1) = (join (punct w ",") (map (member_text w) (m :: ms))
                                    ++ punct w "}" ++ w ++ String d k)%string).
      { rewrite Hr2. rewrite !append_assoc. reflexivity. }
      assert (IHm' : Forall (fun kv => skipValue_ok content_ w inner (snd kv)) (m :: ms))
        by (apply (Forall_impl _ (fun kv H => H inner) IHm)).
      destruct (skipValue_members_spec inner (m :: ms) IHm' Hok Hin ltac:(discriminate)
                  fuel _ _ Hr2')
        as (p3 & -> & Hr3); [lia|]. cbn [and_then].
      destruct (expect_here "}" _ _ Hr3 eq_refl) as (p4 & -> & Hr4).
      exists p4. split; [reflexivity|]. apply (peek p4 d k Hr4 Hdb).
  - (* an array *)
    cbn [render_value skippable] in *.
    rewrite !length_append, !length_punct in Hf.
    unfold punct in Hr at 1. rewrite !append_assoc in Hr. cbn [append] in Hr.
    destruct (peek pos _ _ Hr eq_refl) as (Hr1 & ->). cbn [and_then].
    change (Ascii.eqb "[" quote) with false. change (Ascii.eqb "[" "{") with false.
    change (Ascii.eqb "[" "[") with true. cbv iota.
    set (p1 := SimpleJSONParser.skipWhitespace content_ pos) in *.
    pose proof (rest_from_step _ _ _ _ Hr1) as Hr2.
    destruct elements as [|v vs].
    + cbn [map join append] in Hr2. unfold punct in Hr2. rewrite !append_assoc in Hr2.
      cbn [append] in Hr2.
      destruct (peek (S p1) _ _ Hr2 eq_refl) as (Hr3 & ->). cbn [and_then].
      change (Ascii.eqb "]" "]") with true. cbn [negb and_then].
      destruct (expect_here "]" _ _ Hr3 eq_refl) as (p4 & -> & Hr4).
      exists p4. split; [reflexivity|]. apply (peek p4 d k Hr4 Hdb).
    + assert (Hv : skippable v = true).
      { cbn [forallb] in Hok. apply andb_true_iff in Hok. apply Hok. }
      destruct (render_value_start v Hv) as (c0 & r0 & Hv0 & Hb0 & Hc0).
      assert (Hstart : exists r1, rest (S p1) = (w ++ String c0 r1)%string).
      { rewrite Hr2. cbn [map]. destruct (map (render_value w) vs); cbn [join];
          rewrite Hv0; rewrite !append_assoc; cbn [append]; eauto. }
      destruct Hstart as (r1 & Hstart).
      destruct (peek (S p1) _ _ Hstart Hb0) as (_ & ->). cbn [and_then].
      rewrite Hc0. cbn [negb].
      rewrite (elements_from_blank inner fuel _ (S p1) (skipWhitespace_idempotent _)).
      assert (Hr2' : rest (S p1) = (join (punct w ",") (map (render_value w) (v :: vs))
                                    ++ punct w "]" ++ w ++ String d k)%string).
      { rewrite Hr2. rewrite ?append_assoc. reflexivity. }
      assert (IHe' : Forall (skipValue_ok content_ w inner) (v :: vs))
        by (apply (Forall_impl _ (fun v H => H inner) IHe)).
      destruct (skipValue_elements_spec inner (v :: vs) IHe' Hok Hin ltac:(discriminate)
                  fuel _ _ Hr2')
        as (p3 & -> & Hr3); [lia|]. cbn [and_then].
      destruct (expect_here "]" _ _ Hr3 eq_refl) as (p4 & -> & Hr4).
      exists p4. split; [reflexivity|]. apply (peek p4 d k Hr4 Hdb).
Qed.


Lemma join_length (sep : string) (parts : list string) :
  Forall (fun p => 1 <= String.length p)%nat parts ->
  (List.length parts <= String.length (join sep parts))%nat.
Proof.
  induction 1 as [|x l Hx Hl IH]; [cbn; lia|].
  destruct l as [|y l]; [cbn; lia|].
  rewrite length_join_more. cbn [List.length] in *. lia.
Qed.

Lemma rendered_members_length {M : Type} (render : M -> string) (ms : list M) (pos : nat)
      (k : string) :
  (forall m, 1 <= String.length (render m))%nat ->
  rest pos = (join (punct w ",") (map render ms) ++ k)%string ->
  (List.length ms <= L - pos)%nat.
Proof.
  intros Hlen Hr. pose proof (rest_bound _ _ _ Hr) as Hb.
  pose proof (join_length (punct w ",") (map render ms)) as Hj.
  rewrite length_map in Hj.
  enough (List.length ms <= String.length (join (punct w ",") (map render ms)))%nat by lia.
  apply Hj. apply Forall_forall. intros x Hx. apply in_map_iff in Hx.
  destruct Hx as (m & <- & _). apply Hlen.
Qed.

Lemma render_candle_member_length (m : candle_member) :
  (1 <= String.length (render_candle_member w m))%nat.
Proof. unfold render_candle_member. rewrite length_append, length_quoted. lia. Qed.

Lemma render_member_length (m : member) :
  (1 <= String.length (render_member w m))%nat.
Proof. unfold render_member. rewrite length_append, length_quoted. lia. Qed.

Lemma render_candles_length (c : list candle_member) (cs : list (list candle_member)) :
  (List.length (c :: cs) + String.length w
   <= String.length (join (punct w ",") (map (render_candle w) (c :: cs))))%nat.
Proof.
  revert c. induction cs as [|c2 cs IH]; intros c.
  - cbn [map join List.length]. unfold render_candle.
    rewrite !length_append, !length_punct. lia.
  - cbn [map] in *. rewrite length_join_more. specialize (IH c2).
    cbn [List.length] in *. unfold render_candle at 1.
    rewrite !length_append, !length_punct. lia.
Qed.

Lemma skipValue_at (stack : option nat) (v : json_value) (pos : nat) (d : ascii)
      (k : string) :
  skippable v = true -> fits stack (depth v) -> delimiter d = true ->
  rest pos = (render_value w v ++ w ++ String d k)%string ->
  exists p,
    SimpleJSONParser.skipValue content_ stack
                               (SimpleJSONParser.skipValue_fuel content_ pos) pos
    = Returns p /\
    rest (SimpleJSONParser.skipWhitespace content_ p) = String d k.
Proof.
  intros Hv Hfit Hd Hr. apply (skipValue_spec v stack Hv Hfit _ pos d k Hr Hd).
  unfold SimpleJSONParser.skipValue_fuel. pose proof (rest_bound _ _ _ Hr). lia.
Qed.

Lemma follows_number {A : Type} (tok : string) (set : float -> A) (pos : nat)
      (d : ascii) (k : string) :
  rest pos = (w ++ tok ++ w ++ String d k)%string -> number_token tok = true ->
  delimiter d = true ->
  follows (let* x := library (stod tok) in Returns (set x))
          (let* (x, pos) := SimpleJSONParser.parseNumber stod content_ pos in
           Returns (set x, pos))
          (fun p => rest (SimpleJSONParser.skipWhitespace content_ p) = String d k).
Proof.
  intros Hr Hok Hd. destruct (parseNumber_at _ _ _ _ Hr Hok Hd) as (p & -> & Hr').
  destruct (stod tok); cbn; [|reflexivity].
  exists p. split; [reflexivity|apply (peek p _ _ Hr' (delimiter_is_no_blank _ Hd))].
Qed.

Lemma follows_string {A : Type} (raw : string) (set : string -> A) (pos : nat)
      (d : ascii) (k : string) :
  rest pos = (quoted w raw ++ w ++ String d k)%string -> quotable raw = true ->
  delimiter d = true ->
  follows (Returns (set (unescape raw)))
          (let* (s, pos) := SimpleJSONParser.parseString content_ pos in
           Returns (set s, pos))
          (fun p => rest (SimpleJSONParser.skipWhitespace content_ p) = String d k).
Proof.
  intros Hr Hok Hd. destruct (parseString_at raw pos _ Hr Hok) as (p & -> & Hr').
  cbn. exists p. split; [reflexivity|apply (peek p _ _ Hr' (delimiter_is_no_blank _ Hd))].
Qed.

Lemma follows_skip {A : Type} (stack : option nat) (v : json_value) (a : A) (pos : nat)
      (d : ascii) (k : string) :
  rest pos = (render_value w v ++ w ++ String d k)%string -> skippable v = true ->
  fits stack (depth v) -> delimiter d = true ->
  follows (Returns a)
          (let* pos := SimpleJSONParser.skipValue
                         content_ stack (SimpleJSONParser.skipValue_fuel content_ pos) pos in
           Returns (a, pos))
          (fun p => rest (SimpleJSONParser.skipWhitespace content_ p) = String d k).
Proof.
  intros Hr Hv Hfit Hd.
  destruct (skipValue_at stack v pos d k Hv Hfit Hd Hr) as (p & -> & Hr').
  cbn. eauto.
Qed.

Lemma parseCandle_member_spec (stack : option nat) (m : candle_member)
      (candle : Candle.t) (pos : nat) (d : ascii) (k : string) :
  candle_member_ok m = true -> fits stack (candle_member_depth m) -> delimiter d = true ->
  rest pos = (candle_member_value w m ++ w ++ String d k)%string ->
  follows (candle_with stod m candle)
          (SimpleJSONParser.parseCandle_member stod stack content_
                                               (unescape (candle_member_key m)) candle pos)
          (fun p => rest (SimpleJSONParser.skipWhitespace content_ p) = String d k).
Proof.
  intros Hok Hfit Hd Hr.
  destruct m as [raw|tok|tok|tok|tok|key v];
    cbn [candle_member_key candle_member_value candle_member_ok candle_with
         candle_member_depth] in *;
    try rewrite append_assoc in Hr.
  - apply (follows_string raw (fun s => SimpleJSONParser.set_timestamp s candle)); auto.
  - apply (follows_number tok (fun x => SimpleJSONParser.set_open x candle)); auto.
  - apply (follows_number tok (fun x => SimpleJSONParser.set_high x candle)); auto.
  - apply (follows_number tok (fun x => SimpleJSONParser.set_low x candle)); auto.
  - apply (follows_number tok (fun x => SimpleJSONParser.set_close x candle)); auto.
  - apply andb_true_iff in Hok. destruct Hok as (Hok & Hv).
    apply andb_true_iff in Hok. destruct Hok as (_ & Hkey).
    apply negb_true_iff in Hkey. unfold candle_key in Hkey.
    repeat (apply orb_false_iff in Hkey; destruct Hkey as (Hkey & ?)).
    unfold SimpleJSONParser.parseCandle_member.
    repeat match goal with H : String.eqb _ _ = false |- _ => rewrite H; clear H end.
    apply (follows_skip stack v); auto.
Qed.

Lemma parse_member_scalar_spec (stack : option nat) (m : member) (data : MarketData.t)
      (pos : nat) (d : ascii) (k : string) :
  match m with MCandles _ => False | _ => True end ->
  member_ok m = true -> fits stack (member_depth m) -> delimiter d = true ->
  rest pos = (member_value w m ++ w ++ String d k)%string ->
  follows (data_with stod m data)
          (SimpleJSONParser.parse_member stod stack content_ (unescape (member_key m))
                                         data pos)
          (fun p => rest (SimpleJSONParser.skipWhitespace content_ p) = String d k).
Proof.
  intros Hm Hok Hfit Hd Hr.
  destruct m as [raw|tok|tok|candles|key v]; [| | |contradiction|];
    cbn [member_key member_value member_ok data_with member_depth] in *;
    try rewrite append_assoc in Hr.
  - apply (follows_string raw (fun s => SimpleJSONParser.set_instrument s data)); auto.
  - apply (follows_number tok (fun x => SimpleJSONParser.set_previous_day_close x data)); auto.
  - apply (follows_number tok (fun x => SimpleJSONParser.set_capital x data)); auto.
  - apply andb_true_iff in Hok. destruct Hok as (Hok & Hv).
    apply andb_true_iff in Hok. destruct Hok as (_ & Hkey).
    apply negb_true_iff in Hkey. unfold document_key in Hkey.
    repeat (apply orb_false_iff in Hkey; destruct Hkey as (Hkey & ?)).
    unfold SimpleJSONParser.parse_member.
    repeat match goal with H : String.eqb _ _ = false |- _ => rewrite H; clear H end.
    apply (follows_skip stack v); auto.
Qed.

(** The text of a list of members splits at the first one: it ends at the
    closing character, or at the comma before the others. *)
Lemma members_split {M : Type} (render : M -> string) (m : M) (ms : list M)
      (close : ascii) (k : string) :
  exists d k',
    (join (punct w ",") (map render (m :: ms)) ++ punct w close ++ k
     = render m ++ w ++ String d k')%string /\
    match ms with
    | [] => d = close /\ k' = k
    | _ :: _ => d = ","%char /\
                k' = (join (punct w ",") (map render ms) ++ punct w close ++ k)%string
    end.
Proof.
  destruct ms as [|m2 ms].
  - exists close, k. split; [|auto]. cbn [map join]. unfold punct.
    rewrite ?append_assoc. reflexivity.
  - eexists ","%char, _. split; [|split; reflexivity]. cbn [map join]. unfold punct.
    rewrite ?append_assoc. reflexivity.
Qed.

Lemma parseCandle_loop_spec (stack : option nat) (ms : list candle_member) :
  forallb candle_member_ok ms = true -> fits stack (candle_depth ms) ->
  forall fuel candle pos k,
    rest pos = (join (punct w ",") (map (render_candle_member w) ms) ++ punct w "}" ++ k)%string ->
    (List.length ms < fuel)%nat ->
    follows (fold_members (candle_with stod) ms candle)
            (SimpleJSONParser.parseCandle_loop stod stack content_ fuel candle pos)
            (fun p => rest p = String "}" k).
Proof.
  induction ms as [|m ms IH]; intros Hok Hfit fuel candle pos k Hr Hf;
    (destruct fuel as [|fuel]; [cbn in Hf; lia|]); cbn [SimpleJSONParser.parseCandle_loop].
  - cbn [map join append] in Hr. unfold punct in Hr. rewrite append_assoc in Hr.
    cbn [append] in Hr.
    destruct (peek pos _ _ Hr eq_refl) as (Hr1 & ->). cbn [and_then].
    change (Ascii.eqb "}" "}") with true. cbv iota. cbn. eauto.
  - cbn [forallb] in Hok. apply andb_true_iff in Hok. destruct Hok as (Hm & Hok).
    unfold candle_depth in Hfit. cbn [map] in Hfit. apply fits_cons in Hfit.
    destruct Hfit as (Hfm & Hfit).
    assert (Hkey : quotable (candle_member_key m) = true).
    { destruct m; try reflexivity. cbn in Hm. apply andb_true_iff in Hm.
      destruct Hm as (Hm & _). apply andb_true_iff in Hm. apply Hm. }
    destruct (members_split (render_candle_member w) m ms "}" k) as (d & k' & Hs & Hnext).
    rewrite Hs in Hr. clear Hs. unfold render_candle_member in Hr.
    rewrite !append_assoc in Hr.
    assert (Hd : delimiter d = true) by (destruct ms; destruct Hnext as (-> & _); reflexivity).
    assert (Hq : exists r0, rest pos = (w ++ String quote r0)%string).
    { rewrite Hr. unfold quoted. rewrite !append_assoc. cbn [append]. eauto. }
    destruct Hq as (r0 & Hq).
    destruct (peek pos _ _ Hq eq_refl) as (Hr1 & ->). cbn [and_then].
    change (Ascii.eqb quote "}") with false. cbv iota.
    unfold SimpleJSONParser.parseString at 1. rewrite skipWhitespace_idempotent.
    fold (SimpleJSONParser.parseString content_ pos).
    destruct (parseString_at _ pos _ Hr Hkey) as (p1 & -> & Hr2). cbn [and_then].
    destruct (expect_at ":" p1 _ Hr2 eq_refl) as (p2 & -> & Hr3). cbn [and_then].
    pose proof (parseCandle_member_spec stack m candle p2 d k' Hm Hfm Hd Hr3) as Hmem.
    cbn [fold_members].
    destruct (candle_with stod m candle) as [c'| | | |]; cbn [follows and_then] in Hmem |- *;
      [|rewrite Hmem; reflexivity ..].
    destruct Hmem as (p3 & -> & Hr4). cbn [and_then].
    rewrite (read_of_rest _ _ _ _ Hr4). cbn [and_then].
    destruct ms as [|m2 ms]; destruct Hnext as (-> & ->).
    + change (Ascii.eqb "}" "}") with true. cbv iota. cbn. eauto.
    + change (Ascii.eqb "," "}") with false. cbv iota.
      destruct (expect_here "," _ _ Hr4 eq_refl) as (p4 & -> & Hr5). cbn [and_then].
      apply (IH Hok Hfit fuel c' p4 k Hr5). cbn [List.length] in *. lia.
Qed.

Lemma parseCandle_spec (stack : option nat) (ms : list candle_member) (pos : nat)
      (k : string) :
  forallb candle_member_ok ms = true -> fits stack (candle_depth ms) ->
  rest pos = (render_candle w ms ++ k)%string ->
  follows (candle_of stod ms) (SimpleJSONParser.parseCandle stod stack content_ pos)
          (fun p => rest p = k).
Proof.
  intros Hok Hfit Hr. unfold SimpleJSONParser.parseCandle, render_candle in *.
  rewrite !append_assoc in Hr.
  destruct (expect_at "{" pos _ Hr eq_refl) as (p1 & -> & Hr1). cbn [and_then].
  assert (Hfuel : (List.length ms < SimpleJSONParser.loop_fuel content_ p1)%nat).
  { unfold SimpleJSONParser.loop_fuel.
    pose proof (rendered_members_length _ ms p1 _ render_candle_member_length Hr1). lia. }
  pose proof (parseCandle_loop_spec stack ms Hok Hfit (SimpleJSONParser.loop_fuel content_ p1)
                Candle.default p1 k Hr1 Hfuel) as Hloop.
  unfold candle_of.
  destruct (fold_members (candle_with stod) ms Candle.default) as [c| | | |];
    cbn [follows] in Hloop |- *; [|rewrite Hloop; reflexivity ..].
  destruct Hloop as (p2 & -> & Hr2). cbn [and_then].
  destruct (expect_here "}" _ _ Hr2 eq_refl) as (p3 & -> & Hr3). cbn [and_then]. eauto.
Qed.

Lemma parse_candles_from_blank (stack : option nat) (fuel : nat) (cs : list Candle.t)
      (pos pos' : nat) :
  SimpleJSONParser.skipWhitespace content_ pos = SimpleJSONParser.skipWhitespace content_ pos' ->
  SimpleJSONParser.parse_candles stod stack content_ fuel cs pos
  = SimpleJSONParser.parse_candles stod stack content_ fuel cs pos'.
Proof.
  intros H. destruct fuel as [|fuel]; [reflexivity|].
  cbn [SimpleJSONParser.parse_candles].
  unfold SimpleJSONParser.parseCandle, SimpleJSONParser.expect. rewrite H. reflexivity.
Qed.

Lemma parse_candles_spec (stack : option nat) (candles : list (list candle_member)) :
  forallb (forallb candle_member_ok) candles = true ->
  fits stack (list_max (map candle_depth candles)) ->
  candles <> [] ->
  forall fuel acc pos k,
    rest pos = (join (punct w ",") (map (render_candle w) candles) ++ punct w "]" ++ k)%string ->
    (List.length candles <= fuel)%nat ->
    follows (fold_members (candles_with stod) candles acc)
            (SimpleJSONParser.parse_candles stod stack content_ fuel acc pos)
            (fun p => rest p = String "]" k).
Proof.
  induction candles as [|c cs IH]; intros Hok Hfit Hne fuel acc pos k Hr Hf; [congruence|].
  cbn [map] in Hfit. apply fits_cons in Hfit. destruct Hfit as (Hfc & Hfit).
  destruct fuel as [|fuel]; [cbn in Hf; lia|]. cbn [SimpleJSONParser.parse_candles].
  cbn [forallb] in Hok. apply andb_true_iff in Hok. destruct Hok as (Hc & Hok).
  destruct (members_split (render_candle w) c cs "]" k) as (d & k' & Hs & Hnext).
  rewrite Hs in Hr. clear Hs.
  pose proof (parseCandle_spec stack c pos _ Hc Hfc Hr) as Hone.
  cbn [fold_members]. unfold candles_with at 1.
  destruct (candle_of stod c) as [c'| | | |]; cbn [follows and_then] in Hone |- *;
    [|rewrite Hone; reflexivity ..].
  destruct Hone as (p1 & -> & Hr1). cbn [and_then].
  assert (Hdb : SimpleJSONParser.is_blank d = false).
  { destruct cs; destruct Hnext as (-> & _); reflexivity. }
  destruct (peek p1 _ _ Hr1 Hdb) as (Hr2 & ->). cbn [and_then].
  destruct cs as [|c2 cs]; destruct Hnext as (-> & ->).
  - change (Ascii.eqb "]" "]") with true. cbv iota. cbn. eauto.
  - change (Ascii.eqb "," "]") with false. cbv iota.
    destruct (expect_here "," _ _ Hr2 eq_refl) as (p4 & -> & Hr5). cbn [and_then].
    apply (IH Hok Hfit ltac:(discriminate) fuel (acc ++ [c'])%list p4 k Hr5).
    cbn [List.length] in *. lia.
Qed.

Lemma parse_member_spec (stack : option nat) (m : member) (data : MarketData.t)
      (pos : nat) (d : ascii) (k : string) :
  member_ok m = true -> fits stack (member_depth m) -> delimiter d = true ->
  rest pos = (member_value w m ++ w ++ String d k)%string ->
  follows (data_with stod m data)
          (SimpleJSONParser.parse_member stod stack content_ (unescape (member_key m))
                                         data pos)
          (fun p => rest (SimpleJSONParser.skipWhitespace content_ p) = String d k).
Proof.
  intros Hok Hfit Hd Hr. pose proof (delimiter_is_no_blank _ Hd) as Hdb.
  destruct m as [raw|tok|tok|candles|key v];
    try (apply parse_member_scalar_spec; auto; exact I).
  cbn [member_key member_value member_ok data_with member_depth] in *.
  unfold SimpleJSONParser.parse_member.
  change (String.eqb (unescape "candles") "instrument") with false.
  change (String.eqb (unescape "candles") "previous_day_close") with false.
  change (String.eqb (unescape "candles") "capital") with false.
  change (String.eqb (unescape "candles") "candles") with true. cbv iota.
  rewrite !append_assoc in Hr.
  destruct (expect_at "[" pos _ Hr eq_refl) as (p1 & -> & Hr1). cbn [and_then].
  destruct candles as [|c cs].
  - cbn [map join append] in Hr1. unfold punct in Hr1. rewrite append_assoc in Hr1.
    cbn [append] in Hr1.
    destruct (peek p1 _ _ Hr1 eq_refl) as (Hr2 & ->). cbn [and_then].
    change (Ascii.eqb "]" "]") with true. cbn [negb and_then fold_members].
    destruct (expect_here "]" _ _ Hr2 eq_refl) as (p3 & -> & Hr3). cbn [and_then follows].
    exists p3. split; [reflexivity|apply (peek p3 _ _ Hr3 Hdb)].
  - assert (Hstart : exists r0, rest p1 = (w ++ String "{" r0)%string).
    { rewrite Hr1. cbn [map]. destruct (map (render_candle w) cs); cbn [join];
        unfold render_candle, punct; rewrite !append_assoc; cbn [append]; eauto. }
    destruct Hstart as (r0 & Hstart).
    destruct (peek p1 _ _ Hstart eq_refl) as (Hr2 & ->). cbn [and_then].
    change (Ascii.eqb "{" "]") with false. cbn [negb].
    rewrite (parse_candles_from_blank stack _ _ _ p1 (skipWhitespace_idempotent _)).
    pose proof (parse_candles_spec stack (c :: cs) Hok Hfit ltac:(discriminate)
                  (SimpleJSONParser.loop_fuel content_
                     (SimpleJSONParser.skipWhitespace content_ p1))
                  (MarketData.candles data) p1 _ Hr1) as Hall.
    assert (Hfuel : (List.length (c :: cs)
                     <= SimpleJSONParser.loop_fuel content_
                          (SimpleJSONParser.skipWhitespace content_ p1))%nat).
    { unfold SimpleJSONParser.loop_fuel.
      pose proof (render_candles_length c cs) as Hj.
      pose proof (rest_from_length content_ (SimpleJSONParser.skipWhitespace content_ p1))
        as Hlen.
      rewrite Hr2 in Hlen.
      assert (Hlen1 : String.length (w ++ String "{" r0)
                      = String.length (join (punct w ",") (map (render_candle w) (c :: cs))
                                       ++ punct w "]" ++ w ++ String d k))
        by (rewrite <- Hstart, <- Hr1; reflexivity).
      rewrite !length_append in Hlen1. cbn [String.length] in Hlen, Hlen1. lia. }
    specialize (Hall Hfuel).
    destruct (fold_members (candles_with stod) (c :: cs) (MarketData.candles data))
      as [cs'| | | |]; cbn [follows and_then] in Hall |- *; [|rewrite Hall; reflexivity ..].
    destruct Hall as (p2 & -> & Hr3). cbn [and_then].
    destruct (expect_here "]" _ _ Hr3 eq_refl) as (p3 & -> & Hr4). cbn [and_then].
    exists p3. split; [reflexivity|apply (peek p3 _ _ Hr4 Hdb)].
Qed.

Lemma parse_loop_spec (stack : option nat) (ms : list member) :
  forallb member_ok ms = true -> fits stack (document_depth ms) ->
  forall fuel data pos k,
    rest pos = (join (punct w ",") (map (render_member w) ms) ++ punct w "}" ++ k)%string ->
    (List.length ms < fuel)%nat ->
    follows (fold_members (data_with stod) ms data)
            (SimpleJSONParser.parse_loop stod stack content_ fuel data pos)
            (fun p => rest p = String "}" k).
Proof.
  induction ms as [|m ms IH]; intros Hok Hfit fuel data pos k Hr Hf;
    (destruct fuel as [|fuel]; [cbn in Hf; lia|]); cbn [SimpleJSONParser.parse_loop].
  - cbn [map join append] in Hr. unfold punct in Hr. rewrite append_assoc in Hr.
    cbn [append] in Hr.
    destruct (peek pos _ _ Hr eq_refl) as (Hr1 & ->). cbn [and_then].
    change (Ascii.eqb "}" "}") with true. cbv iota. cbn. eauto.
  - cbn [forallb] in Hok. apply andb_true_iff in Hok. destruct Hok as (Hm & Hok).
    unfold document_depth in Hfit. cbn [map] in Hfit. apply fits_cons in Hfit.
    destruct Hfit as (Hfm & Hfit).
    assert (Hkey : quotable (member_key m) = true).
    { destruct m; try reflexivity. cbn in Hm. apply andb_true_iff in Hm.
      destruct Hm as (Hm & _). apply andb_true_iff in Hm. apply Hm. }
    destruct (members_split (render_member w) m ms "}" k) as (d & k' & Hs & Hnext).
    rewrite Hs in Hr. clear Hs. unfold render_member in Hr.
    rewrite !append_assoc in Hr.
    assert (Hd : delimiter d = true) by (destruct ms; destruct Hnext as (-> & _); reflexivity).
    assert (Hq : exists r0, rest pos = (w ++ String quote r0)%string).
    { rewrite Hr. unfold quoted. rewrite !append_assoc. cbn [append]. eauto. }
    destruct Hq as (r0 & Hq).
    destruct (peek pos _ _ Hq eq_refl) as (Hr1 & ->). cbn [and_then].
    change (Ascii.eqb quote "}") with false. cbv iota.
    unfold SimpleJSONParser.parseString at 1. rewrite skipWhitespace_idempotent.
    fold (SimpleJSONParser.parseString content_ pos).
    destruct (parseString_at _ pos _ Hr Hkey) as (p1 & -> & Hr2). cbn [and_then].
    destruct (expect_at ":" p1 _ Hr2 eq_refl) as (p2 & -> & Hr3). cbn [and_then].
    pose proof (parse_member_spec stack m data p2 d k' Hm Hfm Hd Hr3) as Hmem.
    cbn [fold_members].
    destruct (data_with stod m data) as [x| | | |]; cbn [follows and_then] in Hmem |- *;
      [|rewrite Hmem; reflexivity ..].
    destruct Hmem as (p3 & -> & Hr4). cbn [and_then].
    rewrite (read_of_rest _ _ _ _ Hr4). cbn [and_then].
    destruct ms as [|m2 ms]; destruct Hnext as (-> & ->).
    + change (Ascii.eqb "}" "}") with true. cbv iota. cbn. eauto.
    + change (Ascii.eqb "," "}") with false. cbv iota.
      destruct (expect_here "," _ _ Hr4 eq_refl) as (p4 & -> & Hr5). cbn [and_then].
      apply (IH Hok Hfit fuel x p4 k Hr5). cbn [List.length] in *. lia.
Qed.

End Document.

(** X14.  The parser reads a document back.  On the text of a document whose
    members are well formed, written with any blanks before each token and
    followed by anything, [parse] gives the data the members describe, and
    ends the way the first number [std::stod] refuses makes it end.  This
    holds in the abstract machine, and on every stack that has room for the
    deepest nesting of the values the document makes [skipValue] pass
    over. *)
Theorem parse_of_rendered_document (stod : string -> result float) (w : string)
        (doc : list member) (trailing : string) :
  blanks w = true -> forallb member_ok doc = true ->
  SimpleJSONParser.parse stod None (render_document w doc ++ trailing) = data_of stod doc /\
  forall n, (document_depth doc <= n)%nat ->
    SimpleJSONParser.parse stod (Some n) (render_document w doc ++ trailing)
    = data_of stod doc.
Proof.
  intros Hw Hok. set (content := (render_document w doc ++ trailing)%string).
  assert (Hr : rest_from content 0
               = (punct w "{" ++ join (punct w ",") (map (render_member w) doc)
                  ++ punct w "}" ++ trailing)%string).
  { rewrite rest_from_0. unfold content, render_document. rewrite !append_assoc. reflexivity. }
  assert (H : forall stack, fits stack (document_depth doc) ->
                SimpleJSONParser.parse stod stack content = data_of stod doc).
  { intros stack Hfit. unfold SimpleJSONParser.parse.
    destruct (expect_at content w Hw "{" 0 _ Hr eq_refl) as (p1 & -> & Hr1). cbn [and_then].
    assert (Hfuel : (List.length doc < SimpleJSONParser.loop_fuel content p1)%nat).
    { unfold SimpleJSONParser.loop_fuel.
      pose proof (rendered_members_length content w _ doc p1 _ (render_member_length w) Hr1).
      lia. }
    pose proof (parse_loop_spec stod content w Hw stack doc Hok Hfit _ default_market_data p1
                  trailing Hr1 Hfuel) as Hloop.
    unfold data_of.
    destruct (fold_members (data_with stod) doc default_market_data) as [x| | | |];
      cbn [follows] in Hloop; [|rewrite Hloop; reflexivity ..].
    destruct Hloop as (p2 & -> & Hr2). cbn [and_then].
    destruct (expect_here content "}" _ _ Hr2 eq_refl) as (p3 & -> & Hr3). reflexivity. }
  split; [apply (H None I)|]. intros n Hn. apply (H (Some n) Hn).
Qed.


(* ------------------------------------------------------------------ *)
(** ** The further properties at the sample data *)

Lemma stod_decimal_defined (s : string) : stod_decimal s <> Fail undefined_behaviour.
Proof.
  unfold stod_decimal.
  destruct (match skip_spaces s with
            | String "-"%char r => (true, r)
            | String "+"%char r => (false, r)
            | _ => (false, skip_spaces s)
            end) as [negative s2].
  destruct (_ =? 0)%nat; [discriminate|].
  destruct (underflows _ _); [discriminate|].
  destruct (decimal_to_double _ _ _); discriminate.
Qed.

Lemma console_mirrors_trade_log_witness :
  TradingEngine.run (TradingEngine.new demo) = Ok demo_final /\
  console_trades (TradingEngine.console_ demo_final) = TradingEngine.trade_log_ demo_final /\
  entry_lines (TradingEngine.console_ demo_final)
  = filter is_entry (TradingEngine.trade_log_ demo_final) /\
  map fst (exit_lines (TradingEngine.console_ demo_final))
  = filter is_exit (TradingEngine.trade_log_ demo_final).
Proof.
  assert (H : TradingEngine.run (TradingEngine.new demo) = Ok demo_final)
    by (vm_compute; reflexivity).
  split; [exact H|]. apply (console_mirrors_trade_log demo demo_final H).
Defined.

Lemma candle_lines_report_emas_witness :
  TradingEngine.run (TradingEngine.new demo) = Ok demo_final /\
  candle_lines (TradingEngine.console_ demo_final) = ema_lines [] (MarketData.candles demo) /\
  warmup_lines (TradingEngine.console_ demo_final) = [].
Proof.
  assert (H : TradingEngine.run (TradingEngine.new demo) = Ok demo_final)
    by (vm_compute; reflexivity).
  destruct (candle_lines_report_emas demo demo_final H) as (n & _ & _ & Hw & _).
  split; [exact H|]. split; [vm_compute; reflexivity|exact Hw].
Defined.

Lemma trades_at_candle_closes_witness :
  TradingEngine.run (TradingEngine.new demo) = Ok demo_final /\
  Forall (at_candle_close (MarketData.candles demo)) (TradingEngine.trade_log_ demo_final).
Proof.
  assert (H : TradingEngine.run (TradingEngine.new demo) = Ok demo_final)
    by (vm_compute; reflexivity).
  split; [exact H|]. apply (trades_at_candle_closes demo demo_final H).
Defined.

Lemma exit_reasons_justified_witness :
  TradingEngine.run (TradingEngine.new demo) = Ok demo_final /\
  Forall (exit_justified (MarketData.capital demo) (MarketData.candles demo))
         (exit_lines (TradingEngine.console_ demo_final)).
Proof.
  assert (H : TradingEngine.run (TradingEngine.new demo) = Ok demo_final)
    by (vm_compute; reflexivity).
  split; [exact H|]. apply (exit_reasons_justified demo demo_final H).
Defined.

Lemma summary_counts_round_trips_witness :
  TradingEngine.run (TradingEngine.new demo) = Ok demo_final /\
  sum_total_trades (printSummary demo_final) = 1 /\
  entries_count (sum_trade_log (printSummary demo_final)) = 1 /\
  exits_count (sum_trade_log (printSummary demo_final)) = 1 /\
  List.length (sum_trade_log (printSummary demo_final)) = 2%nat.
Proof.
  assert (H : TradingEngine.run (TradingEngine.new demo) = Ok demo_final)
    by (vm_compute; reflexivity).
  destruct (summary_counts_round_trips demo demo_final H) as (H1 & H2 & H3 & _).
  assert (Hn : sum_total_trades (printSummary demo_final) = 1) by (vm_compute; reflexivity).
  split; [exact H|]. split; [exact Hn|].
  split; [rewrite <- H1; exact Hn|]. split; [rewrite <- H2; exact Hn|].
  rewrite Hn in H3. lia.
Defined.

Lemma parseTimeToMinutes_fixed_columns_witness :
  TradingEngine.parseTimeToMinutes "09:15" = Ok 555 /\
  TradingEngine.parseTimeToMinutes "0:15" = Ok 5.
Proof.
  apply (parseTimeToMinutes_fixed_columns 0 9 1 5 ":" ""); lia.
Defined.

Lemma parseTimeToMinutes_short_throws_witness :
  exists f, TradingEngine.parseTimeToMinutes "9:1" = Fail f /\
            (f = invalid_argument \/ f = out_of_range).
Proof.
  apply (parseTimeToMinutes_short_throws "9:1"). cbn. lia.
Defined.

Lemma no_capital_no_trade_witness :
  (MarketData.capital demo_broke <=? 0)%float = true /\
  TradingEngine.run (TradingEngine.new demo_broke) = Ok demo_broke_final /\
  TradingEngine.trade_log_ demo_broke_final = [] /\
  sum_total_trades (printSummary demo_broke_final) = 0 /\
  sum_final_capital (printSummary demo_broke_final) = MarketData.capital demo_broke.
Proof.
  assert (Hk : (MarketData.capital demo_broke <=? 0)%float = true) by reflexivity.
  assert (H : TradingEngine.run (TradingEngine.new demo_broke) = Ok demo_broke_final)
    by (vm_compute; reflexivity).
  split; [exact Hk|]. split; [exact H|].
  apply (no_capital_no_trade demo_broke demo_broke_final Hk H).
Defined.

Lemma parseString_keeps_escaped_characters_witness :
  exists p,
    SimpleJSONParser.parseString (json " 'a\nb\'c' :") 0 = Returns (json "anb'c", p) /\
    rest_from (json " 'a\nb\'c' :") p = " :"%string.
Proof.
  destruct (parseString_keeps_escaped_characters
              (json " 'a\nb\'c' :") " " (json "a\nb\'c") " :" 0)
    as (p & Hp & Hr & _); [reflexivity|reflexivity|reflexivity|].
  exists p. split; [exact Hp|exact Hr].
Defined.

Lemma parse_requires_object_witness :
  SimpleJSONParser.parse stod_decimal None " [1, 2]" = Throws "Expected '{'" /\
  SimpleJSONParser.parse stod_decimal (Some 0%nat) "" = Throws "Expected '{'".
Proof.
  split.
  - apply (parse_requires_object stod_decimal None " " "[1, 2]"); reflexivity.
  - apply (parse_requires_object stod_decimal (Some 0%nat) "" ""); reflexivity.
Defined.

Lemma parse_of_rendered_document_witness :
  SimpleJSONParser.parse stod_decimal None (render_document " " demo_members ++ " trailing")
  = Returns demo /\
  document_depth demo_members = 3%nat /\
  SimpleJSONParser.parse stod_decimal (Some 3%nat)
                         (render_document " " demo_members ++ " trailing")
  = Returns demo.
Proof.
  assert (Hd : data_of stod_decimal demo_members = Returns demo) by (vm_compute; reflexivity).
  destruct (parse_of_rendered_document stod_decimal " " demo_members " trailing")
    as (H0 & Hn); [reflexivity|reflexivity|].
  rewrite <- Hd. split; [exact H0|]. split; [reflexivity|].
  apply Hn. vm_compute. lia.
Defined.

